(** * Indexed multi-world representation: dimension allocator and
      counterfactual handlers

    A shallow embedding of

    - [causal_pyro/indexed/handlers.py]:
      [IndexPlatesMessenger], [DependentMaskMessenger];
    - [causal_pyro/counterfactual/ops.py]:
      [BaseCounterfactual], [Factual], [MultiWorldCounterfactual],
      [TwinWorldCounterfactual];

    together with the part of the Pyro runtime these classes are written
    against (the handler stack, the plate dimension allocator, message
    dispatch).  Python integers are [Z]; Python objects live in a heap and
    are referred to by identity; a method that mutates state or raises is
    a function in the monad [M], in which the state survives a raised
    exception, as it does in Python. *)

From Stdlib Require Import ZArith Lia.
From stdpp Require Import base list strings pretty gmap.

Local Open Scope Z_scope.

(** ** Python exceptions and builtins *)

(** The exception classes that occur.  None of them is a subclass of
    another one in Python's hierarchy. *)
Inductive exn :=
| ValueError (what : string)
| AssertionError (what : string)
| IndexError (what : string)
| AttributeError (what : string)
| ZeroDivisionError (what : string)
| KeyError (what : string)
| TypeError (what : string)
| NotImplementedError.

(** [isinstance(e, ValueError)] *)
Definition is_ValueError (e : exn) : bool :=
  match e with ValueError _ => true | _ => false end.

(** [isinstance(e, AssertionError)] *)
Definition is_AssertionError (e : exn) : bool :=
  match e with AssertionError _ => true | _ => false end.

(** [str(e)] *)
Definition str (e : exn) : string :=
  match e with
  | ValueError s | AssertionError s | IndexError s
  | AttributeError s | ZeroDivisionError s | KeyError s | TypeError s => s
  | NotImplementedError => ""
  end.

Module Py.

(** [needle in hay] on strings. *)
Fixpoint str_in (needle hay : string) : bool :=
  if String.prefix needle hay then true
  else match hay with
       | EmptyString => false
       | String _ rest => str_in needle rest
       end.

(** The newline character. *)
Definition nl : string := String (Ascii.ascii_of_nat 10) EmptyString.

(** [l.index(x)]: position of the first occurrence, [None] where Python
    raises [ValueError]. *)
Fixpoint index `{EqDecision A} (x : A) (l : list A) : option nat :=
  match l with
  | [] => None
  | y :: l' => if decide (y = x) then Some 0%nat else S <$> index x l'
  end.

(** [l.insert(i, x)] for [0 <= i]: past the end it appends. *)
Definition insert {A} (i : nat) (x : A) (l : list A) : list A :=
  take i l ++ x :: drop i l.

(** [max(s)] and [min(s)] of a set of integers; [None] where Python raises
    [ValueError] (empty argument). *)
Definition max (s : gset Z) : option Z :=
  match elements s with
  | [] => None
  | x :: xs => Some (foldr Z.max x xs)
  end.

Definition min (s : gset Z) : option Z :=
  match elements s with
  | [] => None
  | x :: xs => Some (foldr Z.min x xs)
  end.

(** [len(s)] *)
Definition len (s : gset Z) : Z := Z.of_nat (size s).

(** [l[i]] and [l[i] = x] with Python's negative indices; [None] where
    Python raises [IndexError]. *)
Definition position {A} (l : list A) (i : Z) : option nat :=
  let n := Z.of_nat (length l) in
  if decide (0 ≤ i < n) then Some (Z.to_nat i)
  else if decide (- n ≤ i < 0) then Some (Z.to_nat (n + i))
  else None.

Definition getitem {A} (l : list A) (i : Z) : option A :=
  p ← position l i; l !! p.

Definition setitem {A} (l : list A) (i : Z) (x : A) : list A :=
  match position l i with
  | Some p => <[p := x]> l
  | None => l
  end.

End Py.

(** ** Objects, the heap and the Pyro runtime state *)

(** Objects are referred to by identity: a reference is an index in the
    heap.  [==] and [in] on handler objects compare references. *)
Abbreviation ref := nat.

(** The classes of the handler objects.  [Messenger], [IndepMessenger] and
    [ReparamMessenger] are Pyro's. *)
Inductive Class :=
| object
| Messenger
| IndepMessenger
| ReparamMessenger
| _LazyPlateMessenger
| IndexPlatesMessenger
| DependentMaskMessenger
| AmbiguousConditioningReparamMessenger
| BaseCounterfactual
| Factual
| MultiWorldCounterfactual
| TwinWorldCounterfactual.

Global Instance Class_eq_dec : EqDecision Class.
Proof. solve_decision. Defined.

(** Instance attributes.  An [IndexPlatesMessenger] (and so a
    [MultiWorldCounterfactual] or [TwinWorldCounterfactual]) has
    [_orig_dim], [first_available_dim] and the ordered dictionary [plates];
    a plate has [name], [dim] and [size]. *)
Inductive Fields :=
| IndexPlatesFields (_orig_dim first_available_dim : Z)
                    (plates : list (string * ref))
| PlateFields (name : string) (dim size : Z)
| NoFields.

Record Obj := { class_of : Class; fields : Fields }.

(** An event of the axis history (see [Runtime]). *)
Inductive AxisEvent :=
| Allocated (name : string) (dim : Z)
| Freed (name : string) (dim : Z).

(** The state: Pyro's global handler stack [_PYRO_STACK] (the last element
    is the most recently installed handler), the stack of Pyro's
    [_DIM_ALLOCATOR] (position [i] holds the name of the plate at
    dimension [-1 - i]), and the heap.  [history] is instrumentation, not
    program state: it records the axis allocations and releases in the
    order in which they happen, so that ordering properties can be
    stated. *)
Record Runtime := {
  _PYRO_STACK : list ref;
  _DIM_ALLOCATOR : list (option string);
  heap : list Obj;
  history : list AxisEvent
}.

(** The result of running a piece of code: it returns or it raises, and in
    both cases leaves a state behind. *)
Inductive Outcome (A : Type) :=
| Return (a : A) (σ : Runtime)
| Raise (e : exn) (σ : Runtime).
Arguments Return {A} a σ.
Arguments Raise {A} e σ.

Definition M (A : Type) : Type := Runtime → Outcome A.

Global Instance M_ret : MRet M := λ A a σ, Return a σ.
Global Instance M_bind : MBind M := λ A B f m σ,
  match m σ with
  | Return a σ' => f a σ'
  | Raise e σ' => Raise e σ'
  end.

Definition raise {A} (e : exn) : M A := λ σ, Raise e σ.

(** [try: m except Exception as e: h e] *)
Definition try_except {A} (m : M A) (h : exn → M A) : M A := λ σ,
  match m σ with
  | Return a σ' => Return a σ'
  | Raise e σ' => h e σ'
  end.

(** [assert b, what] *)
Definition assert (b : bool) (what : string) : M unit :=
  if b then mret tt else raise (AssertionError what).

Definition get_stack : M (list ref) := λ σ, Return (_PYRO_STACK σ) σ.

Definition set_stack (s : list ref) : M unit := λ σ,
  Return tt {| _PYRO_STACK := s; _DIM_ALLOCATOR := _DIM_ALLOCATOR σ;
               heap := heap σ; history := history σ |}.

Definition get_dims : M (list (option string)) :=
  λ σ, Return (_DIM_ALLOCATOR σ) σ.

Definition set_dims (d : list (option string)) : M unit := λ σ,
  Return tt {| _PYRO_STACK := _PYRO_STACK σ; _DIM_ALLOCATOR := d;
               heap := heap σ; history := history σ |}.

Definition record_event (ev : AxisEvent) : M unit := λ σ,
  Return tt {| _PYRO_STACK := _PYRO_STACK σ;
               _DIM_ALLOCATOR := _DIM_ALLOCATOR σ;
               heap := heap σ; history := history σ ++ [ev] |}.

(** Reading an object.  A reference always denotes an object in Python;
    the error case is only there to make the function total. *)
Definition deref (r : ref) : M Obj := λ σ,
  match heap σ !! r with
  | Some o => Return o σ
  | None => Raise (AttributeError "dangling reference") σ
  end.

Definition set_fields (r : ref) (f : Fields) : M unit := λ σ,
  match heap σ !! r with
  | Some o =>
      Return tt {| _PYRO_STACK := _PYRO_STACK σ;
                   _DIM_ALLOCATOR := _DIM_ALLOCATOR σ;
                   heap := <[r := {| class_of := class_of o; fields := f |}]>
                             (heap σ);
                   history := history σ |}
  | None => Raise (AttributeError "dangling reference") σ
  end.

(** Object creation: the new object gets a fresh reference. *)
Definition new (c : Class) (f : Fields) : M ref := λ σ,
  Return (length (heap σ))
         {| _PYRO_STACK := _PYRO_STACK σ;
            _DIM_ALLOCATOR := _DIM_ALLOCATOR σ;
            heap := heap σ ++ [{| class_of := c; fields := f |}];
            history := history σ |}.

(** The attributes of an [IndexPlatesMessenger] instance. *)
Definition index_plates_fields (self : ref)
  : M (Z * Z * list (string * ref)) :=
  o ← deref self;
  match fields o with
  | IndexPlatesFields od fad ps => mret (od, fad, ps)
  | _ => raise (AttributeError "plates")
  end.

(** The attributes [(name, dim, size)] of a plate. *)
Definition plate_fields (self : ref) : M (string * Z * Z) :=
  o ← deref self;
  match fields o with
  | PlateFields n d s => mret (n, d, s)
  | _ => raise (AttributeError "dim")
  end.

(** [for x in l: body x] *)
Fixpoint for_each {A} (l : list A) (body : A → M unit) : M unit :=
  match l with
  | [] => mret tt
  | x :: l' => body x ;; for_each l' body
  end.

(** ** Index sets, values and messages *)

(** [IndexSet]: a dictionary from names to sets of integers.  The
    constructor drops the names whose set is empty. *)
Abbreviation IndexSet := (list (string * gset Z)).

Definition IndexSet_of (mapping : list (string * gset Z)) : IndexSet :=
  filter (λ kv, kv.2 ≠ ∅) mapping.

(** [d[k]] / [k in d] on a dictionary kept as an association list. *)
Fixpoint dict_get {V} (k : string) (d : list (string * V)) : option V :=
  match d with
  | [] => None
  | (k', v) :: d' => if decide (k' = k) then Some v else dict_get k d'
  end.

(** [d.pop(k)]: the dictionary without [k]. *)
Definition dict_remove {V} (k : string) (d : list (string * V))
  : list (string * V) :=
  filter (λ kv, kv.1 ≠ k) d.

(** Pyro's [CondIndepStackFrame]. *)
Record CondIndepStackFrame := {
  frame_name : string; frame_dim : Z; frame_size : Z; frame_counter : Z
}.

(** The values that travel in messages.  Arrays are primitives of the
    array library and stay symbolic: [VArray] is an array given by the
    caller, [VScatter] stands for the array [scatter] builds from its
    branches, and [VAnd a b] for [a & b]. *)
#[local] Unset Elimination Schemes.
Inductive Value :=
| VNone
| VArray (label : string)
| VIndexSet (s : IndexSet)
| VFrames (d : list (string * CondIndepStackFrame))
| VScatter (branches : list (IndexSet * Value)) (event_dim : Z)
| VAnd (a b : Value).
#[local] Set Elimination Schemes.

(** The keyword arguments of an operation; [event_dim] is the only key the
    handlers read. *)
Record Kwargs := { event_dim : option Z }.

(** A Pyro message.  [fn] is the default implementation of the operation,
    which [default_process_message] calls when no handler has produced a
    value. *)
Module msg.
Record t := {
  type : string;
  name : option string;
  fn : list Value → Kwargs → exn + Value;
  is_observed : bool;
  args : list Value;
  kwargs : Kwargs;
  value : Value;
  mask : Value;
  done : bool;
  stop : bool
}.

Definition set_name (n : option string) (m : t) : t :=
  {| type := type m; name := n; fn := fn m; is_observed := is_observed m;
     args := args m; kwargs := kwargs m; value := value m; mask := mask m;
     done := done m; stop := stop m |}.

Definition set_kwargs (k : Kwargs) (m : t) : t :=
  {| type := type m; name := name m; fn := fn m; is_observed := is_observed m;
     args := args m; kwargs := k; value := value m; mask := mask m;
     done := done m; stop := stop m |}.

Definition set_value (v : Value) (m : t) : t :=
  {| type := type m; name := name m; fn := fn m; is_observed := is_observed m;
     args := args m; kwargs := kwargs m; value := v; mask := mask m;
     done := done m; stop := stop m |}.

Definition set_mask (v : Value) (m : t) : t :=
  {| type := type m; name := name m; fn := fn m; is_observed := is_observed m;
     args := args m; kwargs := kwargs m; value := value m; mask := v;
     done := done m; stop := stop m |}.

Definition set_done (b : bool) (m : t) : t :=
  {| type := type m; name := name m; fn := fn m; is_observed := is_observed m;
     args := args m; kwargs := kwargs m; value := value m; mask := mask m;
     done := b; stop := stop m |}.

Definition set_stop (b : bool) (m : t) : t :=
  {| type := type m; name := name m; fn := fn m; is_observed := is_observed m;
     args := args m; kwargs := kwargs m; value := value m; mask := mask m;
     done := done m; stop := b |}.
End msg.

(** ** The Pyro runtime *)

(** [pyro.poutine.runtime._DimAllocator], for a plate that asks for a
    given dimension. *)
Module _DimAllocator.

Definition dq : string := String (Ascii.ascii_of_nat 34) EmptyString.

(** The message of the collision error. *)
Definition collide_message (name other : string) (dim : Z) : string :=
  "at plates " +:+ dq +:+ name +:+ dq +:+ " and " +:+ dq +:+ other +:+ dq
  +:+ ", collide at dim=" +:+ pretty dim +:+ Py.nl +:+ Py.nl
  +:+ "Try moving the dim of one plate to the left, e.g. dim="
  +:+ pretty (dim - 1).

Definition allocate (name : string) (dim : Z) : M Z :=
  stack ← get_dims;
  if decide (Some name ∈ stack)
  then raise (ValueError ("duplicate plate " +:+ dq +:+ name +:+ dq))
  else if decide (0 ≤ dim)
  then raise (ValueError
                ("Expected dim < 0 to index from the right, actual "
                 +:+ pretty dim))
  else
    (* while dim < -len(self._stack): self._stack.append(None) *)
    let stack :=
      stack ++ replicate (Z.to_nat (- dim) - length stack)%nat None in
    set_dims stack ;;
    match stack !! Z.to_nat (-1 - dim) with
    | Some (Some other) =>
        raise (ValueError (collide_message name other dim))
    | _ =>
        set_dims (<[Z.to_nat (-1 - dim) := Some name]> stack) ;;
        record_event (Allocated name dim) ;;
        mret dim
    end.

(** [while self._stack and self._stack[-1] is None: self._stack.pop()] *)
Fixpoint pop_trailing_none (l : list (option string))
  : list (option string) :=
  match l with
  | [] => []
  | x :: l' =>
      match x, pop_trailing_none l' with
      | None, [] => []
      | _, r => x :: r
      end
  end.

Definition free (name : string) (dim : Z) : M unit :=
  stack ← get_dims;
  let free_idx := -1 - dim in
  match Py.getitem stack free_idx with
  | None => raise (IndexError "list index out of range")
  | Some x =>
      assert (bool_decide (x = Some name)) "" ;;
      set_dims (pop_trailing_none (Py.setitem stack free_idx None)) ;;
      record_event (Freed name dim)
  end.

End _DimAllocator.

(** [pyro.poutine.messenger.Messenger] as a context manager.  [__exit__]
    receives the exception that leaves the block, if any. *)
Module Messenger.

Definition __enter__ (self : ref) : M ref :=
  stack ← get_stack;
  if decide (self ∈ stack)
  then raise (ValueError "cannot install a Messenger instance twice")
  else set_stack (stack ++ [self]) ;; mret self.

Definition __exit__ (self : ref) (exc : option exn) : M unit :=
  stack ← get_stack;
  match exc with
  | None =>
      match last stack with
      | None => raise (IndexError "list index out of range")
      | Some top =>
          if decide (top = self)
          then set_stack (removelast stack)
          else raise (ValueError
                        "This Messenger is not on the bottom of the stack")
      end
  | Some _ =>
      match Py.index self stack with
      | Some loc => set_stack (take loc stack)
      | None => mret tt
      end
  end.

End Messenger.

(** [pyro.poutine.indep_messenger.IndepMessenger], for a plate with a
    given dimension (a vectorized plate). *)
Module IndepMessenger.

Definition __init__ (c : Class) (name : string) (size dim : Z) : M ref :=
  if decide (size = 0)
  then raise (ZeroDivisionError "size cannot be zero")
  else new c (PlateFields name dim size).

Definition __enter__ (self : ref) : M ref :=
  '(name, dim, size) ← plate_fields self;
  dim ← _DimAllocator.allocate name dim;
  set_fields self (PlateFields name dim size) ;;
  Messenger.__enter__ self.

Definition __exit__ (self : ref) (exc : option exn) : M unit :=
  '(name, dim, _) ← plate_fields self;
  _DimAllocator.free name dim ;;
  Messenger.__exit__ self exc.

End IndepMessenger.

(** ** [causal_pyro/indexed]: the dimension allocator *)

(** Modelled from the spec: [_LazyPlateMessenger] is defined in
    [causal_pyro/indexed/internals.py], which is not part of the sources
    at hand.  It is an [IndepMessenger] (a scoped axis with a name, an
    axis and a size) whose Pyro name is the index name behind a fixed
    prefix; its [frame] is the [(name, axis, size)] entry that
    [get_index_plates] reports; it ignores every message that is not a
    [sample] message. *)
Module _LazyPlateMessenger.

Definition prefix : string := "__index_plate__".

Definition __init__ (name : string) (dim size : Z) : M ref :=
  IndepMessenger.__init__ _LazyPlateMessenger
    (prefix +:+ "_" +:+ name) size dim.

Definition frame (self : ref) : M CondIndepStackFrame :=
  '(name, dim, size) ← plate_fields self;
  mret {| frame_name := name; frame_dim := dim; frame_size := size;
          frame_counter := 0 |}.

End _LazyPlateMessenger.

(** [repr] of a handler object, as it appears in an f-string.  Python
    prints the address of the object; here its reference. *)
Definition class_name (c : Class) : string :=
  match c with
  | object => "object"
  | Messenger => "Messenger"
  | IndepMessenger => "IndepMessenger"
  | ReparamMessenger => "ReparamMessenger"
  | _LazyPlateMessenger => "_LazyPlateMessenger"
  | IndexPlatesMessenger => "IndexPlatesMessenger"
  | DependentMaskMessenger => "DependentMaskMessenger"
  | AmbiguousConditioningReparamMessenger =>
      "AmbiguousConditioningReparamMessenger"
  | BaseCounterfactual => "BaseCounterfactual"
  | Factual => "Factual"
  | MultiWorldCounterfactual => "MultiWorldCounterfactual"
  | TwinWorldCounterfactual => "TwinWorldCounterfactual"
  end.

Definition repr (self : ref) : M string :=
  o ← deref self;
  mret ("<" +:+ class_name (class_of o) +:+ " object at "
        +:+ pretty (Z.of_nat self) +:+ ">").

(** [repr] of a set of integers. *)
Definition repr_set (s : gset Z) : string :=
  "{" +:+ String.concat ", " (pretty <$> elements s) +:+ "}".

Module IndexPlatesMessenger.

(** [__init__], for an object of class [c] ([IndexPlatesMessenger] or one
    of its subclasses). *)
Definition __init__ (c : Class) (first_available_dim : option Z) : M ref :=
  let first_available_dim :=
    match first_available_dim with
    | None => -5 (* conservative default for 99% of models *)
    | Some d => d
    end in
  assert (bool_decide (first_available_dim < 0)) "" ;;
  new c (IndexPlatesFields first_available_dim first_available_dim []).

(** [super().__enter__()] is [Messenger.__enter__]: no class between
    [IndexPlatesMessenger] and [Messenger] in the method resolution order
    of the three classes defines [__enter__]; likewise for [__exit__]. *)
Definition __enter__ (self : ref) : M ref :=
  '(_orig_dim, first_available_dim, plates) ← index_plates_fields self;
  assert (bool_decide (plates = [])) "" ;;
  assert (bool_decide (first_available_dim = _orig_dim)) "" ;;
  Messenger.__enter__ self.

(** [self.plates.pop(name)] *)
Definition plates_pop (self : ref) (name : string) : M ref :=
  '(_orig_dim, first_available_dim, plates) ← index_plates_fields self;
  match dict_get name plates with
  | None => raise (KeyError name)
  | Some plate =>
      set_fields self
        (IndexPlatesFields _orig_dim first_available_dim
           (dict_remove name plates)) ;;
      mret plate
  end.

Definition __exit__ (self : ref) (exc : option exn) : M unit :=
  '(_, _, plates) ← index_plates_fields self;
  for_each (reverse (plates.*1)) (λ name,
    plate ← plates_pop self name;
    IndepMessenger.__exit__ plate exc) ;;
  '(_orig_dim, _, plates) ← index_plates_fields self;
  set_fields self (IndexPlatesFields _orig_dim _orig_dim plates) ;;
  Messenger.__exit__ self exc.

(** [{name: plate.frame for name, plate in self.plates.items()}] *)
Fixpoint frames_of (plates : list (string * ref))
  : M (list (string * CondIndepStackFrame)) :=
  match plates with
  | [] => mret []
  | (name, plate) :: rest =>
      f ← _LazyPlateMessenger.frame plate;
      fs ← frames_of rest;
      mret ((name, f) :: fs)
  end.

Definition _pyro_get_index_plates (self : ref) (m : msg.t) : M msg.t :=
  '(_, _, plates) ← index_plates_fields self;
  fs ← frames_of plates;
  mret (msg.set_stop true (msg.set_done true (msg.set_value (VFrames fs) m))).

(** The text of the allocation error. *)
Definition allocation_message (self_repr : string)
    (first_available_dim _orig_dim : Z) : string :=
  self_repr +:+ " was unable to allocate an index plate dimension "
  +:+ "at dimension " +:+ pretty first_available_dim +:+ "." +:+ Py.nl
  +:+ "Try setting a value less than " +:+ pretty _orig_dim
  +:+ " for `first_available_dim` "
  +:+ "that is less than the leftmost (most negative) plate dimension in your model.".

Definition _enter_index_plate (self : ref) (plate : ref) : M ref :=
  try_except (IndepMessenger.__enter__ plate ;; mret tt)
    (λ e,
       if is_ValueError e then
         if Py.str_in "collide at dim" (str e) then
           self_repr ← repr self;
           '(_orig_dim, first_available_dim, _) ← index_plates_fields self;
           raise (ValueError (allocation_message self_repr
                                first_available_dim _orig_dim))
         else raise e
       else raise e) ;;
  stack ← get_stack;
  match Py.index plate stack with
  | None => raise (ValueError "x is not in list")
  | Some i =>
      let stack := delete i stack in
      set_stack stack ;;
      match Py.index self stack with
      | None => raise (ValueError "x is not in list")
      | Some j =>
          '(_, _, plates) ← index_plates_fields self;
          set_stack (Py.insert (j + length plates + 1) plate stack) ;;
          mret plate
      end
  end.

(** The body of the loop of [_pyro_add_indices], for one item of the
    index set. *)
Definition add_index (self : ref) (name : string) (indices : gset Z)
  : M unit :=
  '(_, first_available_dim, plates) ← index_plates_fields self;
  match dict_get name plates with
  | None =>
      match Py.max indices with
      | None => raise (ValueError "max() arg is an empty sequence")
      | Some mx =>
          let new_size := Z.max (mx + 1) (Py.len indices) in
          plate ← _LazyPlateMessenger.__init__
                    name first_available_dim new_size;
          plate ← _enter_index_plate self plate;
          '(_orig_dim, first_available_dim, plates)
            ← index_plates_fields self;
          set_fields self
            (IndexPlatesFields _orig_dim first_available_dim
               (plates ++ [(name, plate)])) ;;
          '(_orig_dim, first_available_dim, plates)
            ← index_plates_fields self;
          set_fields self
            (IndexPlatesFields _orig_dim (first_available_dim - 1) plates)
      end
  | Some plate =>
      '(_, _, size) ← plate_fields plate;
      match Py.min indices, Py.max indices with
      | Some mn, Some mx =>
          assert (bool_decide (0 ≤ mn) && bool_decide (mn ≤ Py.len indices - 1)
                  && bool_decide (Py.len indices - 1 ≤ mx)
                  && bool_decide (mx < size))
            ("cannot add " +:+ name +:+ "=" +:+ repr_set indices
             +:+ " to " +:+ pretty size)
      | _, _ => raise (ValueError "min() arg is an empty sequence")
      end
  end.

Definition _pyro_add_indices (self : ref) (m : msg.t) : M msg.t :=
  match msg.args m with
  | [VIndexSet indexset] =>
      for_each indexset (λ '(name, indices), add_index self name indices) ;;
      mret m
  | [_] => raise (AttributeError "items")
  | _ => raise (ValueError "wrong number of values to unpack")
  end.

End IndexPlatesMessenger.

(** [DependentMaskMessenger]: the abstract [get_mask] raises
    [NotImplementedError]; a subclass overrides it.  [_pyro_sample] is
    written against the method the object's class provides, which is the
    parameter [get_mask] here. *)
Module DependentMaskMessenger.

Definition get_mask (self : ref)
    (dist : list Value → Kwargs → exn + Value) (value : Value)
    (device : string) : M Value :=
  raise NotImplementedError.

Section _pyro_sample.

(** Modelled from the spec: [get_sample_msg_device] is defined in
    [causal_pyro/indexed/internals.py], which is not part of the sources
    at hand; it yields the device on which the site's arrays live. *)
Variable get_sample_msg_device :
  (list Value → Kwargs → exn + Value) → Value → string.

(** The [get_mask] of the class of [self]. *)
Variable get_mask :
  ref → (list Value → Kwargs → exn + Value) → Value → string → M Value.

Definition _pyro_sample (self : ref) (m : msg.t) : M msg.t :=
  let device := get_sample_msg_device (msg.fn m) (msg.value m) in
  mask ← get_mask self (msg.fn m) (msg.value m) device;
  mret (msg.set_mask
          (match msg.mask m with
           | VNone => mask
           | old => VAnd old mask
           end) m).

End _pyro_sample.

End DependentMaskMessenger.

(** ** [causal_pyro/counterfactual]: the hooks that run on the way down *)

Module BaseCounterfactual.

Definition _pyro_get_index_plates (self : ref) (m : msg.t) : M msg.t :=
  let m := msg.set_done true (msg.set_stop true m) in
  mret (msg.set_value (VFrames []) m).

Definition _pyro_intervene (self : ref) (m : msg.t) : M msg.t :=
  mret (msg.set_stop true m).

End BaseCounterfactual.

(** ** Classes and method resolution *)

(** The base classes, as the [class] statements give them. *)
Definition bases (c : Class) : list Class :=
  match c with
  | object => []
  | Messenger => [object]
  | IndepMessenger => [Messenger]
  | ReparamMessenger => [Messenger]
  | _LazyPlateMessenger => [IndepMessenger]
  | IndexPlatesMessenger => [Messenger]
  | DependentMaskMessenger => [Messenger]
  | AmbiguousConditioningReparamMessenger => [ReparamMessenger]
  | BaseCounterfactual => [AmbiguousConditioningReparamMessenger]
  | Factual => [BaseCounterfactual]
  | MultiWorldCounterfactual => [IndexPlatesMessenger; BaseCounterfactual]
  | TwinWorldCounterfactual => [IndexPlatesMessenger; BaseCounterfactual]
  end.

(** Python's method resolution order (C3 linearization):
    [mro c = c :: merge (map mro (bases c) ++ [bases c])], where [merge]
    repeatedly takes the first head that occurs in no tail. *)
Module C3.

Definition in_tail (h : Class) (l : list Class) : bool :=
  bool_decide (h ∈ tail l).

Definition good_head (ls : list (list Class)) (h : Class) : bool :=
  forallb (λ l, negb (in_tail h l)) ls.

Definition drop_head (h : Class) (l : list Class) : list Class :=
  match l with
  | x :: l' => if decide (x = h) then l' else l
  | [] => []
  end.

Fixpoint merge (fuel : nat) (ls : list (list Class)) : option (list Class) :=
  let ls := filter (λ l, l ≠ []) ls in
  match ls, fuel with
  | [], _ => Some []
  | _, O => None
  | _, S fuel =>
      h ← List.find (good_head ls) (omap head ls);
      rest ← merge fuel (drop_head h <$> ls);
      Some (h :: rest)
  end.

Fixpoint linearize (fuel : nat) (c : Class) : option (list Class) :=
  match fuel with
  | O => None
  | S fuel =>
      parents ← mapM (linearize fuel) (bases c);
      rest ← merge (length (concat parents) + length (bases c))
                   (parents ++ [bases c]);
      Some (c :: rest)
  end.

End C3.

(** The hierarchy has depth 6. *)
Definition mro (c : Class) : list Class :=
  default [] (C3.linearize 8 c).

(** A hook: a method that receives the message. *)
Definition Hook := ref → msg.t → M msg.t.

Section Dispatch.

(** [own c attr] is the entry for [attr] in the dictionary of class [c]. *)
Variable own : Class → string → option Hook.

(** [getattr(self, attr, None)] for a method: the entry of the first class
    in the method resolution order that has one. *)
Definition class_getattr (c : Class) (attr : string) : option Hook :=
  head (omap (λ c', own c' attr) (mro c)).

(** [Messenger._process_message] and [Messenger._postprocess_message].
    A plate overrides [_process_message]: [IndepMessenger] only extends
    [msg["cond_indep_stack"]], which no hook here reads, and
    [_LazyPlateMessenger] returns at once for a message that is not a
    [sample] message. *)
Definition _process_message (self : ref) (m : msg.t) : M msg.t :=
  o ← deref self;
  if bool_decide (IndepMessenger ∈ mro (class_of o)) then mret m
  else
    match class_getattr (class_of o) ("_pyro_" +:+ msg.type m) with
    | Some method => method self m
    | None => mret m
    end.

Definition _postprocess_message (self : ref) (m : msg.t) : M msg.t :=
  o ← deref self;
  match class_getattr (class_of o) ("_pyro_post_" +:+ msg.type m) with
  | Some method => method self m
  | None => mret m
  end.

(** [pyro.poutine.runtime.default_process_message] *)
Definition default_process_message (m : msg.t) : M msg.t :=
  if msg.done m || msg.is_observed m then mret (msg.set_done true m)
  else
    match msg.fn m (msg.args m) (msg.kwargs m) with
    | inl e => raise e
    | inr v => mret (msg.set_done true (msg.set_value v m))
    end.

(** The first loop of [apply_stack]:
    [for frame in reversed(stack): pointer += 1; frame._process_message(msg);
     if msg["stop"]: break].
    [reversed] reads the list as it is at each step; [i] is the number of
    positions below the one read next. *)
Fixpoint walk_down (i : nat) (pointer : nat) (m : msg.t)
  : M (nat * msg.t) :=
  match i with
  | O => mret (pointer, m)
  | S i =>
      stack ← get_stack;
      match stack !! i with
      | None => mret (pointer, m)
      | Some frame =>
          m ← _process_message frame m;
          if msg.stop m then mret (S pointer, m)
          else walk_down i (S pointer) m
      end
  end.

(** [for frame in frames: frame._postprocess_message(msg)] *)
Fixpoint walk_up (frames : list ref) (m : msg.t) : M msg.t :=
  match frames with
  | [] => mret m
  | frame :: frames =>
      m ← _postprocess_message frame m;
      walk_up frames m
  end.

(** [stack[-pointer:]] *)
Definition last_frames (pointer : nat) (stack : list ref) : list ref :=
  match pointer with
  | O => stack
  | _ => drop (length stack - pointer)%nat stack
  end.

(** [pyro.poutine.runtime.apply_stack] (the message has no
    continuation). *)
Definition apply_stack (m : msg.t) : M msg.t :=
  stack ← get_stack;
  '(pointer, m) ← walk_down (length stack) 0 m;
  m ← default_process_message m;
  stack ← get_stack;
  walk_up (last_frames pointer stack) m.

(** [pyro.poutine.runtime.effectful(fn, type=type)], called with the
    positional arguments [args], the keyword arguments [kwargs] and the
    keyword [name]. *)
Definition effectful (type : string)
    (fn : list Value → Kwargs → exn + Value)
    (args : list Value) (kwargs : Kwargs) (name : option string) : M Value :=
  stack ← get_stack;
  if bool_decide (stack = []) then
    match fn args kwargs with
    | inl e => raise e
    | inr v => mret v
    end
  else
    m ← apply_stack
          {| msg.type := type; msg.name := name; msg.fn := fn;
             msg.is_observed := false; msg.args := args;
             msg.kwargs := kwargs; msg.value := VNone; msg.mask := VNone;
             msg.done := false; msg.stop := false |};
    mret (msg.value m).

End Dispatch.

(** The class dictionaries, for the hooks that raise no further effect.
    Only the hooks for the messages of the indexed operations and of
    [intervene] are listed; [sample] messages are not dispatched in this
    development. *)
Definition own_hooks (c : Class) (attr : string) : option Hook :=
  match c with
  | IndexPlatesMessenger =>
      if decide (attr = "_pyro_get_index_plates")
      then Some IndexPlatesMessenger._pyro_get_index_plates
      else if decide (attr = "_pyro_add_indices")
      then Some IndexPlatesMessenger._pyro_add_indices
      else None
  | BaseCounterfactual =>
      if decide (attr = "_pyro_get_index_plates")
      then Some BaseCounterfactual._pyro_get_index_plates
      else if decide (attr = "_pyro_intervene")
      then Some BaseCounterfactual._pyro_intervene
      else None
  | _ => None
  end.

(** ** [causal_pyro/indexed/ops.py] *)

(** Modelled from the spec: [add_indices], [union] and [scatter] are
    defined in [causal_pyro/indexed/ops.py], which is not part of the
    sources at hand.  [add_indices(indexset)] is an effect of type
    [add_indices] with the index set as its only argument, answered by the
    dimension allocators on the handler stack.  [union] joins index sets
    name by name.  [scatter(branches, event_dim)] registers the union of
    the keys of its branches with the allocator and merges the branches
    into one array, which stays symbolic here. *)
Definition add_indices (indexset : IndexSet) : M Value :=
  effectful own_hooks "add_indices"
    (λ args _, match args with
               | [v] => inr v
               | _ => inl (TypeError "add_indices() takes 1 argument")
               end)
    [VIndexSet indexset] {| event_dim := None |} None.

Definition union_item (acc : IndexSet) (item : string * gset Z) : IndexSet :=
  match dict_get item.1 acc with
  | None => acc ++ [item]
  | Some _ =>
      (λ kv, if decide (kv.1 = item.1) then (kv.1, kv.2 ∪ item.2) else kv)
        <$> acc
  end.

Definition union (indexsets : list IndexSet) : IndexSet :=
  foldl (λ acc s, foldl union_item acc s) [] indexsets.

Definition scatter (branches : list (IndexSet * Value)) (event_dim : Z)
  : M Value :=
  add_indices (union (branches.*1)) ;;
  mret (VScatter branches event_dim).

(** ** [causal_pyro/counterfactual]: the hooks that run on the way up *)

Module Factual.

Definition _pyro_post_intervene (self : ref) (m : msg.t) : M msg.t :=
  match msg.args m with
  | [obs; _] => mret (msg.set_value obs m)
  | _ => raise (ValueError "wrong number of values to unpack")
  end.

End Factual.

Module MultiWorldCounterfactual.

Definition _pyro_post_intervene (self : ref) (m : msg.t) : M msg.t :=
  match msg.args m with
  | [] => raise (IndexError "tuple index out of range")
  | obs :: _ =>
      let act := msg.value m in
      (* msg["kwargs"].setdefault("event_dim", 0) *)
      let ed := default 0 (event_dim (msg.kwargs m)) in
      let m := msg.set_kwargs {| event_dim := Some ed |} m in
      let m :=
        match msg.name m with
        | None => msg.set_name (Some "__intervention__") m
        | Some _ => m
        end in
      '(_, first_available_dim, plates) ← index_plates_fields self;
      let m :=
        match msg.name m with
        | Some n =>
            match dict_get n plates with
            | Some _ =>
                msg.set_name (Some (n +:+ "_" +:+ pretty first_available_dim))
                  m
            | None => m
            end
        | None => m
        end in
      match msg.name m with
      | None => raise (TypeError "keywords must be strings")
      | Some name =>
          v ← scatter [ (IndexSet_of [(name, {[0]})], obs);
                        (IndexSet_of [(name, {[1]})], act) ] ed;
          mret (msg.set_value v m)
      end
  end.

End MultiWorldCounterfactual.

Module TwinWorldCounterfactual.

Definition _pyro_post_intervene (self : ref) (m : msg.t) : M msg.t :=
  match msg.args m with
  | [] => raise (IndexError "tuple index out of range")
  | obs :: _ =>
      let act := msg.value m in
      let ed := default 0 (event_dim (msg.kwargs m)) in
      let m := msg.set_kwargs {| event_dim := Some ed |} m in
      (* disregard the name *)
      let name := "__intervention__" in
      v ← scatter [ (IndexSet_of [(name, {[0]})], obs);
                    (IndexSet_of [(name, {[1]})], act) ] ed;
      mret (msg.set_value v m)
  end.

End TwinWorldCounterfactual.

(** The complete class dictionaries. *)
Definition hooks (c : Class) (attr : string) : option Hook :=
  match own_hooks c attr with
  | Some h => Some h
  | None =>
      if decide (attr = "_pyro_post_intervene") then
        match c with
        | Factual => Some Factual._pyro_post_intervene
        | MultiWorldCounterfactual =>
            Some MultiWorldCounterfactual._pyro_post_intervene
        | TwinWorldCounterfactual =>
            Some TwinWorldCounterfactual._pyro_post_intervene
        | _ => None
        end
      else None
  end.

(** Modelled from the spec: [intervene] is an effect of type [intervene]
    with the observed and the proposed value as arguments and the optional
    keywords [name] and [event_dim]; it is the primitive the
    counterfactual handlers intercept.  Its implementation without
    handlers is not part of the sources at hand and is the parameter
    [default]. *)
Definition intervene (default : list Value → Kwargs → exn + Value)
    (obs act : Value) (name : option string) (ed : option Z) : M Value :=
  effectful hooks "intervene" default [obs; act] {| event_dim := ed |} name.

(** A scope: [with cm: body], for a context manager given by its
    [__enter__] and [__exit__]. *)
Definition with_ {A} (enter : M ref) (exit : option exn → M unit)
    (body : M A) : M A := λ σ,
  match enter σ with
  | Raise e σ => Raise e σ
  | Return _ σ =>
      match body σ with
      | Return a σ => (exit None ;; mret a) σ
      | Raise e σ => (exit (Some e) ;; raise e) σ
      end
  end.

(** ** Vocabulary of the statements *)

(** The Pyro name of the plate for an index name. *)
Definition plate_name (name : string) : string :=
  _LazyPlateMessenger.prefix +:+ "_" +:+ name.

(** The position of a dimension in the stack of the dimension
    allocator. *)
Definition axis_index (dim : Z) : nat := Z.to_nat (-1 - dim).

(** The name that holds axis [dim], if one does. *)
Definition axis_owner (σ : Runtime) (dim : Z) : option string :=
  mjoin (_DIM_ALLOCATOR σ !! axis_index dim).

(** The stack of the dimension allocator, extended to reach [dim]. *)
Definition padded (dims : list (option string)) (dim : Z)
  : list (option string) :=
  dims ++ replicate (Z.to_nat (- dim) - length dims)%nat None.

Definition plate_obj (name : string) (dim size : Z) : Obj :=
  {| class_of := _LazyPlateMessenger;
     fields := PlateFields (plate_name name) dim size |}.

Definition allocator_obj (c : Class) (od fad : Z)
    (plates : list (string * ref)) : Obj :=
  {| class_of := c; fields := IndexPlatesFields od fad plates |}.

(** The state after the allocator [self] (of class [c], with attributes
    [od], [fad], [plates], at position [length below] of the handler
    stack, followed there by [rest]) has registered a plate of size [size]
    for [name]. *)
Definition registered (σ : Runtime) (self : ref) (c : Class) (od fad : Z)
    (plates : list (string * ref)) (below rest : list ref)
    (name : string) (size : Z) : Runtime :=
  let plate := length (heap σ) in
  {| _PYRO_STACK :=
       below ++ self :: take (length plates) rest
             ++ plate :: drop (length plates) rest;
     _DIM_ALLOCATOR :=
       <[axis_index fad := Some (plate_name name)]>
         (padded (_DIM_ALLOCATOR σ) fad);
     heap :=
       <[self := allocator_obj c od (fad - 1) (plates ++ [(name, plate)])]>
         (heap σ ++ [plate_obj name fad size]);
     history := history σ ++ [Allocated (plate_name name) fad] |}.

(** The condition that [_pyro_add_indices] asserts for a name that has a
    plate of size [size]. *)
Definition in_range (indices : gset Z) (size : Z) : bool :=
  match Py.min indices, Py.max indices with
  | Some mn, Some mx =>
      bool_decide (0 ≤ mn) && bool_decide (mn ≤ Py.len indices - 1)
      && bool_decide (Py.len indices - 1 ≤ mx) && bool_decide (mx < size)
  | _, _ => false
  end.

(** The size of the plate for a new name. *)
Definition new_size (indices : gset Z) : Z :=
  match Py.max indices with
  | Some mx => Z.max (mx + 1) (Py.len indices)
  | None => 0
  end.

(** The items of an index set whose name has no plate yet. *)
Definition new_items (plates : list (string * ref)) (indexset : IndexSet)
  : IndexSet :=
  filter (λ item, dict_get item.1 plates = None) indexset.

(** The state of an active allocator: [self] is an object of class [c]
    with original dimension [od], cursor [fad] and registry [plates]; it
    sits on the handler stack above the handlers [below], directly
    followed by its plates in the order of their creation and then by the
    handlers [above], which were installed after it.  The [i]-th plate has
    axis [od - i], and holds that axis in Pyro's dimension allocator. *)
Record allocator_wf (σ : Runtime) (self : ref) (c : Class) (od fad : Z)
    (plates : list (string * ref)) (below above : list ref) : Prop := {
  wf_self : heap σ !! self = Some (allocator_obj c od fad plates);
  wf_neg : od < 0;
  wf_stack : _PYRO_STACK σ = below ++ self :: plates.*2 ++ above;
  wf_nodup : NoDup (_PYRO_STACK σ);
  wf_valid : ∀ r, r ∈ _PYRO_STACK σ → (r < length (heap σ))%nat;
  wf_names : NoDup plates.*1;
  wf_plates : ∀ i name p,
    plates !! i = Some (name, p) →
    (∃ size, heap σ !! p = Some (plate_obj name (od - Z.of_nat i) size))
    ∧ _DIM_ALLOCATOR σ !! axis_index (od - Z.of_nat i)
      = Some (Some (plate_name name))
}.

(** Between two calls of its methods, the cursor of the allocator is [od]
    minus the number of its plates. *)
Definition allocator_inv (σ : Runtime) (self : ref) (c : Class) (od : Z)
    (plates : list (string * ref)) (below above : list ref) : Prop :=
  allocator_wf σ self c od (od - Z.of_nat (length plates)) plates
    below above.

(** What can be observed of the allocator [self] in a state: its cursor,
    its registry, and the axis and the size of the plate it holds for a
    name. *)
Definition cursor (σ : Runtime) (self : ref) : option Z :=
  o ← heap σ !! self;
  match fields o with
  | IndexPlatesFields _ fad _ => Some fad
  | _ => None
  end.

Definition registry (σ : Runtime) (self : ref)
  : option (list (string * ref)) :=
  o ← heap σ !! self;
  match fields o with
  | IndexPlatesFields _ _ plates => Some plates
  | _ => None
  end.

Definition plate_of (σ : Runtime) (self : ref) (name : string)
  : option (string * Z * Z) :=
  plates ← registry σ self;
  p ← dict_get name plates;
  o ← heap σ !! p;
  match fields o with
  | PlateFields n dim size => Some (n, dim, size)
  | _ => None
  end.

Definition plate_axis (σ : Runtime) (self : ref) (name : string)
  : option Z :=
  (λ x, x.1.2) <$> plate_of σ self name.

Definition plate_size (σ : Runtime) (self : ref) (name : string)
  : option Z :=
  snd <$> plate_of σ self name.

(** The registry entries for the new items [news], when the first of
    their plates is the object [start]: each constructor call creates the
    next object. *)
Definition fresh_plates (news : IndexSet) (start : nat)
  : list (string * ref) :=
  zip news.*1 (seq start (length news)).

(** The releases of the plates of a registry, last created first: the
    [i]-th plate holds the axis [od - i]. *)
Definition released (od : Z) (plates : list (string * ref))
  : list AxisEvent :=
  reverse (imap (λ i item, Freed (plate_name item.1) (od - Z.of_nat i))
             plates).

(** The attribute [_orig_dim] of an allocator. *)
Definition orig_dim (σ : Runtime) (self : ref) : option Z :=
  o ← heap σ !! self;
  match fields o with
  | IndexPlatesFields od _ _ => Some od
  | _ => None
  end.

(** Every item of the index set names a plate of [self] and passes the
    range check against its size. *)
Definition all_in_range (σ : Runtime) (self : ref) (indexset : IndexSet)
  : bool :=
  forallb (λ item, match plate_size σ self item.1 with
                   | Some size => in_range item.2 size
                   | None => false
                   end) indexset.

(** The handler [r] lets the message [m] pass: it neither changes the
    message nor the state.  Plates do, and so does every handler whose
    class has no hook for the type of the message. *)
Definition passes (own : Class → string → option Hook)
    (σ : Runtime) (m : msg.t) (r : ref) : Prop :=
  _process_message own r m σ = Return m σ.

(** The frame of the plate object [p]. *)
Definition frame_of_plate (σ : Runtime) (p : ref)
  : option CondIndepStackFrame :=
  o ← heap σ !! p;
  match fields o with
  | PlateFields n d s =>
      Some {| frame_name := n; frame_dim := d; frame_size := s;
              frame_counter := 0 |}
  | _ => None
  end.

(** The registry of [self] as a mapping from names to frames. *)
Definition registry_frames (σ : Runtime) (self : ref)
  : option (list (string * CondIndepStackFrame)) :=
  plates ← registry σ self;
  mapM (λ item, f ← frame_of_plate σ item.2; Some (item.1, f)) plates.

(** The classes of the counterfactual handlers. *)
Definition counterfactual_class (c : Class) : Prop :=
  c = BaseCounterfactual ∨ c = Factual ∨ c = MultiWorldCounterfactual
  ∨ c = TwinWorldCounterfactual.

(** A bystander is a handler whose class derives neither from
    [IndexPlatesMessenger] nor from [BaseCounterfactual]: it has none of
    the hooks of this development.  The plates are bystanders. *)
Definition bystander_class (c : Class) : bool :=
  negb (bool_decide (IndexPlatesMessenger ∈ mro c))
  && negb (bool_decide (BaseCounterfactual ∈ mro c)).

Definition bystander (σ : Runtime) (r : ref) : Prop :=
  ∃ o, heap σ !! r = Some o ∧ bystander_class (class_of o) = true.

(** Every object of [σ] is an object of the same class in [σ']. *)
Definition same_classes (σ σ' : Runtime) : Prop :=
  ∀ r o, heap σ !! r = Some o →
         ∃ o', heap σ' !! r = Some o' ∧ class_of o' = class_of o.

(** A [sample] message on its way through nested
    [DependentMaskMessenger] handlers, innermost first; each handler comes
    with the [get_mask] of its class. *)
Fixpoint sample_through
    (get_sample_msg_device :
       (list Value → Kwargs → exn + Value) → Value → string)
    (handlers :
       list (ref * (ref → (list Value → Kwargs → exn + Value) → Value
                    → string → M Value)))
    (m : msg.t) : M msg.t :=
  match handlers with
  | [] => mret m
  | (self, get_mask) :: rest =>
      m ← DependentMaskMessenger._pyro_sample get_sample_msg_device
            get_mask self m;
      sample_through get_sample_msg_device rest m
  end.

(** [old & mask], or [mask] when there is no old one: the assignment of
    [_pyro_sample]. *)
Definition combine_mask (old mask : Value) : Value :=
  match old with
  | VNone => mask
  | _ => VAnd old mask
  end.

(** Whether a mask selects an element, given which elements the arrays it
    is built from select ([ρ]).  No mask selects everything. *)
Fixpoint selects (ρ : string → bool) (mask : Value) : bool :=
  match mask with
  | VArray label => ρ label
  | VAnd a b => selects ρ a && selects ρ b
  | _ => true
  end.

(** The name under which [MultiWorldCounterfactual] scatters an
    intervention at a site named [name], when the registry has the names
    [reg] and the cursor is [fad]. *)
Definition intervention_name (reg : list string) (fad : Z)
    (name : option string) : string :=
  let n := default "__intervention__" name in
  if bool_decide (n ∈ reg) then n +:+ "_" +:+ pretty fad else n.

(** A call [intervene(obs, act, name=name, event_dim=event_dim)]. *)
Record Site := {
  site_obs : Value;
  site_act : Value;
  site_name : option string;
  site_event_dim : option Z
}.

(** The calls [sites], one after the other; the results in order. *)
Fixpoint interventions (default : list Value → Kwargs → exn + Value)
    (sites : list Site) : M (list Value) :=
  match sites with
  | [] => mret []
  | s :: rest =>
      v ← intervene default (site_obs s) (site_act s) (site_name s)
            (site_event_dim s);
      vs ← interventions default rest;
      mret (v :: vs)
  end.

(** The names under which a sequence of interventions is scattered, when
    each of them gets a plate of its own: the registry grows by the name
    and the cursor moves down by one. *)
Fixpoint effective_names (reg : list string) (fad : Z)
    (names : list (option string)) : list string :=
  match names with
  | [] => []
  | n :: rest =>
      let e := intervention_name reg fad n in
      e :: effective_names (reg ++ [e]) (fad - 1) rest
  end.

(** The two-world array that a counterfactual handler builds at a site,
    under the name [name], from the observed value and the value [act]
    that the default implementation of [intervene] produced. *)
Definition two_worlds (name : string) (obs act : Value)
    (event_dim : option Z) : Value :=
  VScatter [ (IndexSet_of [(name, {[0]})], obs);
             (IndexSet_of [(name, {[1]})], act) ]
    (default 0 event_dim).

(** The number of worlds of the allocator [self]: the product of the
    sizes of its plates. *)
Definition worlds (σ : Runtime) (self : ref) : option Z :=
  plates ← registry σ self;
  sizes ← mapM (λ item : string * ref,
                  frame_size <$> frame_of_plate σ item.2) plates;
  Some (foldr Z.mul 1 sizes).

(** The message of [intervene(obs, act, name=name, event_dim=ed)] when
    it comes back up from the innermost counterfactual handler: stopped,
    and with the value [v] of the default implementation [fn]. *)
Definition intervene_msg_up (fn : list Value → Kwargs → exn + Value)
    (obs act : Value) (name : option string) (ed : option Z) (v : Value)
  : msg.t :=
  {| msg.type := "intervene"; msg.name := name; msg.fn := fn;
     msg.is_observed := false; msg.args := [obs; act];
     msg.kwargs := {| event_dim := ed |}; msg.value := v;
     msg.mask := VNone; msg.done := true; msg.stop := true |}.

(** ** Vocabulary of the properties of whole scopes and of repeated calls *)

(** The allocations of the plates of a registry, in the order of their
    creation: the [i]-th plate gets the axis [od - i]. *)
Definition allocated (od : Z) (plates : list (string * ref))
  : list AxisEvent :=
  imap (λ i item, Allocated (plate_name item.1) (od - Z.of_nat i)) plates.

(** The stack of Pyro's dimension allocator does not end in an unused
    position.  [_DimAllocator.free] removes the unused positions at the
    end, and [_DimAllocator.allocate] fills the last position it adds. *)
Definition trimmed (dims : list (option string)) : Prop :=
  last dims ≠ Some None.

(** The frame that [get_index_plates] reports for the plate of [name]. *)
Definition index_frame (name : string) (dim size : Z) : CondIndepStackFrame :=
  {| frame_name := plate_name name; frame_dim := dim; frame_size := size;
     frame_counter := 0 |}.

(** The entries that [get_index_plates] reports for the new items [news]
    of an index set, registered from the cursor [fad] on. *)
Definition new_frames (fad : Z) (news : IndexSet)
  : list (string * CondIndepStackFrame) :=
  imap (λ i item, (item.1, index_frame item.1 (fad - Z.of_nat i)
                             (new_size item.2))) news.

(** The smallest index is at least [0] and smaller than the number of
    indices: the part of the range check of [_pyro_add_indices] that does
    not depend on the size of the plate. *)
Definition starts_low (indices : gset Z) : bool :=
  match Py.min indices with
  | Some mn => bool_decide (0 ≤ mn) && bool_decide (mn ≤ Py.len indices - 1)
  | None => false
  end.

(** The message of the error of [_DimAllocator.allocate] for a plate name
    that is allocated already. *)
Definition duplicate_message (name : string) : string :=
  "duplicate plate " +:+ _DimAllocator.dq +:+ name +:+ _DimAllocator.dq.

(** The names under which [MultiWorldCounterfactual] scatters [k]
    interventions at sites that all carry the name [n], from the cursor
    [fad] on, when [n] has no plate at the first of them: the name itself,
    and then the name with the cursor of the moment appended. *)
Definition repeated_names (n : string) (fad : Z) (k : nat) : list string :=
  match k with
  | O => []
  | S k =>
      n :: ((λ i : nat, n +:+ "_" +:+ pretty (fad - Z.of_nat i)) <$> seq 1 k)
  end.

(** ** Example states *)

Definition empty_runtime : Runtime :=
  {| _PYRO_STACK := []; _DIM_ALLOCATOR := []; heap := []; history := [] |}.

(** After [h = MultiWorldCounterfactual(); h.__enter__()]. *)
Definition mwc_active : Runtime :=
  {| _PYRO_STACK := [0%nat];
     _DIM_ALLOCATOR := [];
     heap := [allocator_obj MultiWorldCounterfactual (-5) (-5) []];
     history := [] |}.

(** After, in addition, [add_indices(IndexSet(X={0, 1}))]. *)
Definition mwc_with_X : Runtime :=
  {| _PYRO_STACK := [0%nat; 1%nat];
     _DIM_ALLOCATOR := [None; None; None; None; Some (plate_name "X")];
     heap := [allocator_obj MultiWorldCounterfactual (-5) (-6)
                [("X", 1%nat)];
              plate_obj "X" (-5) 2];
     history := [Allocated (plate_name "X") (-5)] |}.

(** A message of type [add_indices] for an index set, as [effectful]
    builds it. *)
Definition add_indices_msg (indexset : IndexSet) : msg.t :=
  {| msg.type := "add_indices"; msg.name := None;
     msg.fn := λ args _, match args with
                         | [v] => inr v
                         | _ => inl (TypeError "add_indices() takes 1 argument")
                         end;
     msg.is_observed := false; msg.args := [VIndexSet indexset];
     msg.kwargs := {| event_dim := None |}; msg.value := VNone;
     msg.mask := VNone; msg.done := false; msg.stop := false |}.

(** After [h = TwinWorldCounterfactual(); h.__enter__()]. *)
Definition twc_active : Runtime :=
  {| _PYRO_STACK := [0%nat];
     _DIM_ALLOCATOR := [];
     heap := [allocator_obj TwinWorldCounterfactual (-5) (-5) []];
     history := [] |}.

(** An active [MultiWorldCounterfactual] in a model that has declared a
    batch plate [data] at dimension [-5] itself. *)
Definition mwc_and_batch_plate : Runtime :=
  {| _PYRO_STACK := [0%nat; 1%nat];
     _DIM_ALLOCATOR := [None; None; None; None; Some "data"];
     heap := [allocator_obj MultiWorldCounterfactual (-5) (-5) [];
              {| class_of := IndepMessenger;
                 fields := PlateFields "data" (-5) 10 |}];
     history := [Allocated "data" (-5)] |}.

(** A [Factual] handler installed inside a [MultiWorldCounterfactual]
    one. *)
Definition factual_in_mwc : Runtime :=
  {| _PYRO_STACK := [0%nat; 1%nat];
     _DIM_ALLOCATOR := [];
     heap := [allocator_obj MultiWorldCounterfactual (-5) (-5) [];
              {| class_of := Factual; fields := NoFields |}];
     history := [] |}.

(** A message of type [get_index_plates], as [effectful] builds it. *)
Definition get_index_plates_msg : msg.t :=
  {| msg.type := "get_index_plates"; msg.name := None;
     msg.fn := λ _ _, inl NotImplementedError;
     msg.is_observed := false; msg.args := [];
     msg.kwargs := {| event_dim := None |}; msg.value := VNone;
     msg.mask := VNone; msg.done := false; msg.stop := false |}.

(** A message of type [intervene] for [intervene(x, x')]. *)
Definition intervene_msg : msg.t :=
  {| msg.type := "intervene"; msg.name := None;
     msg.fn := λ args _, match args with
                         | [_; act] => inr act
                         | _ => inl (TypeError "intervene")
                         end;
     msg.is_observed := false; msg.args := [VArray "x"; VArray "x'"];
     msg.kwargs := {| event_dim := None |}; msg.value := VNone;
     msg.mask := VNone; msg.done := false; msg.stop := false |}.

(** A [sample] message for a site [x] with value [v], without a mask. *)
Definition sample_msg : msg.t :=
  {| msg.type := "sample"; msg.name := Some "x";
     msg.fn := λ _ _, inr (VArray "v");
     msg.is_observed := false; msg.args := [];
     msg.kwargs := {| event_dim := None |}; msg.value := VArray "v";
     msg.mask := VNone; msg.done := false; msg.stop := false |}.

(** Inside a batch plate [data] that the model has declared at dimension
    [-1]: after [h = MultiWorldCounterfactual()], before the scope of [h]
    is entered. *)
Definition data_plate_and_mwc_created : Runtime :=
  {| _PYRO_STACK := [0%nat];
     _DIM_ALLOCATOR := [Some "data"];
     heap := [{| class_of := IndepMessenger;
                 fields := PlateFields "data" (-1) 10 |};
              allocator_obj MultiWorldCounterfactual (-5) (-5) []];
     history := [Allocated "data" (-1)] |}.

(** The same, after [h.__enter__()]. *)
Definition mwc_in_data_plate : Runtime :=
  {| _PYRO_STACK := [0%nat; 1%nat];
     _DIM_ALLOCATOR := [Some "data"];
     heap := [{| class_of := IndepMessenger;
                 fields := PlateFields "data" (-1) 10 |};
              allocator_obj MultiWorldCounterfactual (-5) (-5) []];
     history := [Allocated "data" (-1)] |}.

(** The same, after [add_indices(IndexSet(X={0, 1}))]. *)
Definition mwc_in_data_plate_with_X : Runtime :=
  {| _PYRO_STACK := [0%nat; 1%nat; 2%nat];
     _DIM_ALLOCATOR := [Some "data"; None; None; None;
                        Some (plate_name "X")];
     heap := [{| class_of := IndepMessenger;
                 fields := PlateFields "data" (-1) 10 |};
              allocator_obj MultiWorldCounterfactual (-5) (-6)
                [("X", 2%nat)];
              plate_obj "X" (-5) 2];
     history := [Allocated "data" (-1); Allocated (plate_name "X") (-5)] |}.

(** A [MultiWorldCounterfactual] scope entered inside another one. *)
Definition mwc_in_mwc : Runtime :=
  {| _PYRO_STACK := [0%nat; 1%nat];
     _DIM_ALLOCATOR := [];
     heap := [allocator_obj MultiWorldCounterfactual (-5) (-5) [];
              allocator_obj MultiWorldCounterfactual (-5) (-5) []];
     history := [] |}.

(** The same, after the inner handler has registered [X]. *)
Definition mwc_in_mwc_with_X : Runtime :=
  {| _PYRO_STACK := [0%nat; 1%nat; 2%nat];
     _DIM_ALLOCATOR := [None; None; None; None; Some (plate_name "X")];
     heap := [allocator_obj MultiWorldCounterfactual (-5) (-5) [];
              allocator_obj MultiWorldCounterfactual (-5) (-6)
                [("X", 2%nat)];
              plate_obj "X" (-5) 2];
     history := [Allocated (plate_name "X") (-5)] |}.

(** A [Factual] handler installed inside a [MultiWorldCounterfactual]
    scope that has registered [X]. *)
Definition factual_in_mwc_with_X : Runtime :=
  {| _PYRO_STACK := [0%nat; 1%nat; 2%nat];
     _DIM_ALLOCATOR := [None; None; None; None; Some (plate_name "X")];
     heap := [allocator_obj MultiWorldCounterfactual (-5) (-6)
                [("X", 1%nat)];
              plate_obj "X" (-5) 2;
              {| class_of := Factual; fields := NoFields |}];
     history := [Allocated (plate_name "X") (-5)] |}.

(** An active [MultiWorldCounterfactual] after interventions at sites
    named [X] and [X_-7]. *)
Definition mwc_with_X_and_X_7 : Runtime :=
  {| _PYRO_STACK := [0%nat; 1%nat; 2%nat];
     _DIM_ALLOCATOR := [None; None; None; None; Some (plate_name "X");
                        Some (plate_name "X_-7")];
     heap := [allocator_obj MultiWorldCounterfactual (-5) (-7)
                [("X", 1%nat); ("X_-7", 2%nat)];
              plate_obj "X" (-5) 2;
              plate_obj "X_-7" (-6) 2];
     history := [Allocated (plate_name "X") (-5);
                 Allocated (plate_name "X_-7") (-6)] |}.

(** ** Tactics *)

(** A decidable fact about given data, by computation. *)
Ltac by_compute := compute_done.

(** The invariant of a given state, by computation. *)
Ltac concrete_inv :=
  split; simpl;
  [ reflexivity
  | lia
  | reflexivity
  | by_compute
  | apply Forall_forall; repeat constructor; simpl; lia
  | by_compute
  | let i := fresh "i" in
    let H := fresh "H" in
    intros i ? ? H;
    repeat (destruct i as [|i]; simpl in H; try discriminate H);
    injection H as <- <-; (split; [eexists|]; reflexivity) ].

(** * Properties *)

(** ** Running monadic code *)

Lemma bind_Return {A B} (m : M A) (f : A → M B) σ a σ' :
  m σ = Return a σ' → (m ≫= f) σ = f a σ'.
Proof. unfold mbind, M_bind. by intros ->. Qed.

Lemma bind_Raise {A B} (m : M A) (f : A → M B) σ e σ' :
  m σ = Raise e σ' → (m ≫= f) σ = Raise e σ'.
Proof. unfold mbind, M_bind. by intros ->. Qed.

Lemma deref_Some σ r o : heap σ !! r = Some o → deref r σ = Return o σ.
Proof. unfold deref. by intros ->. Qed.

Lemma index_plates_fields_Some σ self c od fad plates :
  heap σ !! self
    = Some {| class_of := c; fields := IndexPlatesFields od fad plates |} →
  index_plates_fields self σ = Return (od, fad, plates) σ.
Proof.
  intros H. unfold index_plates_fields.
  by rewrite (bind_Return _ _ _ _ _ (deref_Some _ _ _ H)).
Qed.

Lemma plate_fields_Some σ p c name dim size :
  heap σ !! p = Some {| class_of := c; fields := PlateFields name dim size |} →
  plate_fields p σ = Return (name, dim, size) σ.
Proof.
  intros H. unfold plate_fields.
  by rewrite (bind_Return _ _ _ _ _ (deref_Some _ _ _ H)).
Qed.

(** ** Python lists *)

Lemma index_app_r `{EqDecision A} (x : A) (l k : list A) :
  x ∉ l → Py.index x (l ++ k) = (λ i, (length l + i)%nat) <$> Py.index x k.
Proof.
  induction l as [|y l IH]; intros Hx; simpl.
  - by destruct (Py.index x k).
  - apply not_elem_of_cons in Hx as [Hne Hx].
    destruct (decide (y = x)); [congruence|].
    rewrite IH by done. by destruct (Py.index x k).
Qed.

Lemma index_here `{EqDecision A} (x : A) (l k : list A) :
  x ∉ l → Py.index x (l ++ x :: k) = Some (length l).
Proof.
  intros Hx. rewrite index_app_r by done. simpl.
  destruct (decide (x = x)); [|done]. simpl. f_equal. lia.
Qed.

Lemma index_None `{EqDecision A} (x : A) (l : list A) :
  x ∉ l → Py.index x l = None.
Proof.
  induction l as [|y l IH]; intros Hx; simpl; [done|].
  apply not_elem_of_cons in Hx as [Hne Hx].
  destruct (decide (y = x)); [congruence|]. by rewrite IH.
Qed.

Lemma delete_last {A} (l : list A) (x : A) :
  delete (length l) (l ++ [x]) = l.
Proof. induction l; simpl; [done|]. by f_equal. Qed.

Lemma insert_middle {A} (l k : list A) (x y : A) (n : nat) :
  Py.insert (length l + n + 1) y (l ++ x :: k)
  = l ++ x :: take n k ++ y :: drop n k.
Proof.
  unfold Py.insert.
  replace (length l + n + 1)%nat with (length l + S n)%nat by lia.
  rewrite take_app_add', drop_app_add' by done. simpl.
  by rewrite <- app_assoc.
Qed.

(** ** The dimension allocator of Pyro *)

Lemma axis_owner_None_lookup σ dim :
  axis_owner σ dim = None →
  ∀ other, _DIM_ALLOCATOR σ !! axis_index dim ≠ Some (Some other).
Proof.
  unfold axis_owner. intros H other Hl. rewrite Hl in H. done.
Qed.

Lemma padded_length dims dim :
  dim < 0 → (axis_index dim < length (padded dims dim))%nat.
Proof.
  intros Hd. unfold padded, axis_index.
  rewrite length_app, length_replicate. lia.
Qed.

Lemma padded_lookup dims dim i x :
  padded dims dim !! i = Some (Some x) ↔ dims !! i = Some (Some x).
Proof.
  unfold padded. split.
  - intros H. apply lookup_app_Some in H as [H|[_ H]]; [done|].
    apply lookup_replicate in H as [? _]. done.
  - intros H. by apply lookup_app_l_Some.
Qed.

Lemma padded_elem_of dims dim x :
  Some x ∈ padded dims dim ↔ Some x ∈ dims.
Proof.
  unfold padded. rewrite elem_of_app. split; [|by left].
  intros [H|H]; [done|]. by apply elem_of_replicate in H as [? _].
Qed.

Lemma allocate_free σ name dim :
  dim < 0 →
  axis_owner σ dim = None →
  Some name ∉ _DIM_ALLOCATOR σ →
  _DimAllocator.allocate name dim σ
  = Return dim
      {| _PYRO_STACK := _PYRO_STACK σ;
         _DIM_ALLOCATOR :=
           <[axis_index dim := Some name]> (padded (_DIM_ALLOCATOR σ) dim);
         heap := heap σ;
         history := history σ ++ [Allocated name dim] |}.
Proof.
  intros Hd Hfree Hname. unfold _DimAllocator.allocate.
  unfold mbind, M_bind, get_dims. simpl.
  destruct (decide (Some name ∈ _DIM_ALLOCATOR σ)); [done|].
  destruct (decide (0 ≤ dim)); [lia|]. simpl.
  fold (padded (_DIM_ALLOCATOR σ) dim). fold (axis_index dim).
  destruct (padded (_DIM_ALLOCATOR σ) dim !! axis_index dim)
    as [[other|]|] eqn:E; try done.
  apply padded_lookup in E.
  by apply axis_owner_None_lookup with (other := other) in Hfree.
Qed.

Lemma allocate_collide σ name other dim :
  dim < 0 →
  axis_owner σ dim = Some other →
  Some name ∉ _DIM_ALLOCATOR σ →
  _DimAllocator.allocate name dim σ
  = Raise (ValueError (_DimAllocator.collide_message name other dim)) σ.
Proof.
  intros Hd Hown Hname. unfold _DimAllocator.allocate.
  unfold mbind, M_bind, get_dims. simpl.
  destruct (decide (Some name ∈ _DIM_ALLOCATOR σ)); [done|].
  destruct (decide (0 ≤ dim)); [lia|]. simpl.
  fold (axis_index dim).
  unfold axis_owner in Hown.
  destruct (_DIM_ALLOCATOR σ !! axis_index dim) as [o|] eqn:E; [|done].
  simpl in Hown. subst o.
  assert (Hlen : (Z.to_nat (- dim) - length (_DIM_ALLOCATOR σ) = 0)%nat).
  { apply lookup_lt_Some in E. unfold axis_index in E. lia. }
  rewrite Hlen. simpl. rewrite app_nil_r, E. by destruct σ.
Qed.

(** ** [IndexPlatesMessenger] *)

Lemma max_Some_len indices mx :
  Py.max indices = Some mx → 1 ≤ Py.len indices.
Proof.
  unfold Py.max, Py.len. unfold size, set_size. simpl.
  destruct (elements indices); [done|]. simpl. lia.
Qed.

Lemma set_fields_Some σ r o f :
  heap σ !! r = Some o →
  set_fields r f σ
  = Return tt {| _PYRO_STACK := _PYRO_STACK σ;
                 _DIM_ALLOCATOR := _DIM_ALLOCATOR σ;
                 heap := <[r := {| class_of := class_of o; fields := f |}]>
                           (heap σ);
                 history := history σ |}.
Proof. unfold set_fields. by intros ->. Qed.

(** Entering a new plate, when its axis is free. *)
Lemma plate_enter_free σ p name dim size :
  heap σ !! p = Some (plate_obj name dim size) →
  p ∉ _PYRO_STACK σ →
  dim < 0 →
  axis_owner σ dim = None →
  Some (plate_name name) ∉ _DIM_ALLOCATOR σ →
  IndepMessenger.__enter__ p σ
  = Return p
      {| _PYRO_STACK := _PYRO_STACK σ ++ [p];
         _DIM_ALLOCATOR :=
           <[axis_index dim := Some (plate_name name)]>
             (padded (_DIM_ALLOCATOR σ) dim);
         heap := heap σ;
         history := history σ ++ [Allocated (plate_name name) dim] |}.
Proof.
  intros Hp Hstack Hd Hfree Hname. unfold IndepMessenger.__enter__.
  rewrite (bind_Return _ _ _ _ _ (plate_fields_Some _ _ _ _ _ _ Hp)).
  rewrite (bind_Return _ _ _ _ _ (allocate_free _ _ _ Hd Hfree Hname)).
  erewrite bind_Return; last by (apply set_fields_Some; simpl; exact Hp).
  simpl. unfold Messenger.__enter__, mbind, M_bind, get_stack. simpl.
  destruct (decide (p ∈ _PYRO_STACK σ)); [done|]. simpl.
  unfold mret, M_ret. f_equal. f_equal.
  by apply list_insert_id.
Qed.

Lemma add_index_new σ self c od fad plates below rest name indices mx :
  heap σ !! self = Some (allocator_obj c od fad plates) →
  _PYRO_STACK σ = below ++ self :: rest →
  self ∉ below →
  (∀ r, r ∈ _PYRO_STACK σ → (r < length (heap σ))%nat) →
  dict_get name plates = None →
  Py.max indices = Some mx →
  fad < 0 →
  axis_owner σ fad = None →
  Some (plate_name name) ∉ _DIM_ALLOCATOR σ →
  IndexPlatesMessenger.add_index self name indices σ
  = Return tt (registered σ self c od fad plates below rest name
                 (Z.max (mx + 1) (Py.len indices))).
Proof.
  intros Hself Hstack Hbelow Hvalid Hnew Hmax Hneg Hfree Hname.
  pose proof (max_Some_len _ _ Hmax) as Hlen.
  set (size := Z.max (mx + 1) (Py.len indices)).
  set (p := length (heap σ)).
  assert (Hp_stack : p ∉ _PYRO_STACK σ).
  { intros Hin. apply Hvalid in Hin. unfold p in Hin. lia. }
  assert (Hself_lt : (self < length (heap σ))%nat)
    by (by apply lookup_lt_Some in Hself).
  unfold IndexPlatesMessenger.add_index.
  rewrite (bind_Return _ _ _ _ _
             (index_plates_fields_Some _ _ _ _ _ _ Hself)).
  simpl. rewrite Hnew, Hmax. fold size.
  (* the constructor *)
  set (σ1 := {| _PYRO_STACK := _PYRO_STACK σ;
                _DIM_ALLOCATOR := _DIM_ALLOCATOR σ;
                heap := heap σ ++ [plate_obj name fad size];
                history := history σ |}).
  assert (Hinit : _LazyPlateMessenger.__init__ name fad size σ
                  = Return p σ1).
  { unfold _LazyPlateMessenger.__init__, IndepMessenger.__init__.
    destruct (decide (size = 0)); [lia|]. done. }
  rewrite (bind_Return _ _ _ _ _ Hinit).
  (* entering the plate *)
  assert (Hp1 : heap σ1 !! p = Some (plate_obj name fad size)).
  { simpl. unfold p. by rewrite lookup_app_r, Nat.sub_diag by lia. }
  assert (Hself1 : heap σ1 !! self = Some (allocator_obj c od fad plates)).
  { simpl. by rewrite lookup_app_l. }
  pose proof (plate_enter_free σ1 p name fad size Hp1 Hp_stack Hneg
                Hfree Hname) as Henter.
  set (σ2 := {| _PYRO_STACK := _PYRO_STACK σ ++ [p];
                _DIM_ALLOCATOR :=
                  <[axis_index fad := Some (plate_name name)]>
                    (padded (_DIM_ALLOCATOR σ) fad);
                heap := heap σ ++ [plate_obj name fad size];
                history := history σ ++ [Allocated (plate_name name) fad] |})
    in *.
  assert (Heip : IndexPlatesMessenger._enter_index_plate self p σ1
                 = Return p
                     {| _PYRO_STACK :=
                          below ++ self :: take (length plates) rest
                                ++ p :: drop (length plates) rest;
                        _DIM_ALLOCATOR := _DIM_ALLOCATOR σ2;
                        heap := heap σ2; history := history σ2 |}).
  { unfold IndexPlatesMessenger._enter_index_plate.
    erewrite bind_Return; last first.
    { unfold try_except. erewrite bind_Return by exact Henter. done. }
    unfold mbind at 1, M_bind at 1. unfold get_stack at 1.
    subst σ2. cbn [_PYRO_STACK].
    rewrite index_here by done. rewrite delete_last.
    unfold mbind at 1, M_bind at 1. unfold set_stack at 1.
    subst σ1. cbn [_PYRO_STACK _DIM_ALLOCATOR heap history] in *.
    rewrite Hstack, index_here by done.
    erewrite bind_Return; last first.
    { apply index_plates_fields_Some with (c := c). exact Hself1. }
    cbn beta iota. unfold mbind, M_bind, set_stack. simpl.
    rewrite insert_middle. done. }
  rewrite (bind_Return _ _ _ _ _ Heip).
  erewrite bind_Return; last first.
  { apply index_plates_fields_Some with (c := c). exact Hself1. }
  cbn beta iota.
  erewrite bind_Return; last first.
  { apply set_fields_Some. exact Hself1. }
  erewrite bind_Return; last first.
  { apply index_plates_fields_Some with (c := c). simpl.
    by rewrite list_lookup_insert_eq by (rewrite length_app; simpl; lia). }
  cbn beta iota.
  erewrite set_fields_Some; last first.
  { simpl. by rewrite list_lookup_insert_eq
      by (rewrite length_app; simpl; lia). }
  unfold registered. simpl. f_equal. f_equal.
  by rewrite list_insert_insert_eq.
Qed.

Lemma dict_get_None {V} (k : string) (d : list (string * V)) :
  dict_get k d = None ↔ k ∉ d.*1.
Proof.
  induction d as [|[k' v] d IH]; simpl.
  - split; [intros _; apply not_elem_of_nil | done].
  - destruct (decide (k' = k)) as [->|Hne].
    + split; [done|]. intros H. exfalso. apply H. left.
    + rewrite IH, not_elem_of_cons.
      split; [intros ?; split; [congruence|done] | by intros [_ ?]].
Qed.

Lemma dict_get_Some_elem_of {V} (k : string) (d : list (string * V)) v :
  dict_get k d = Some v → (k, v) ∈ d.
Proof.
  induction d as [|[k' v'] d IH]; simpl; [done|].
  destruct (decide (k' = k)) as [->|Hne].
  - intros [= ->]. left.
  - intros H. right. by apply IH.
Qed.

Lemma dict_get_lookup {V} (d : list (string * V)) i k v :
  NoDup d.*1 → d !! i = Some (k, v) → dict_get k d = Some v.
Proof.
  revert i. induction d as [|[k' v'] d IH]; intros i Hnd Hi; [done|].
  apply NoDup_cons in Hnd as [Hk' Hnd]. simpl.
  destruct i as [|i]; simpl in Hi.
  - injection Hi as -> ->. by destruct (decide (k = k)).
  - destruct (decide (k' = k)) as [->|Hne]; [|by eapply IH].
    exfalso. apply Hk'. apply list_elem_of_fmap.
    exists (k, v). split; [done|]. by eapply list_elem_of_lookup_2.
Qed.

Lemma plate_name_inj : Inj (=) (=) plate_name.
Proof. intros a b H. unfold plate_name in H. by simplify_eq. Qed.

Lemma axis_index_inj (od : Z) (i j : nat) :
  od < 0 →
  axis_index (od - Z.of_nat i) = axis_index (od - Z.of_nat j) → i = j.
Proof. unfold axis_index. lia. Qed.

Lemma inv_self σ self c od plates below above :
  allocator_inv σ self c od plates below above →
  heap σ !! self
  = Some (allocator_obj c od (od - Z.of_nat (length plates)) plates).
Proof. apply wf_self. Qed.

Lemma inv_neg σ self c od plates below above :
  allocator_inv σ self c od plates below above → od < 0.
Proof. apply wf_neg. Qed.

Lemma inv_stack σ self c od plates below above :
  allocator_inv σ self c od plates below above →
  _PYRO_STACK σ = below ++ self :: plates.*2 ++ above.
Proof. apply wf_stack. Qed.

Lemma inv_nodup σ self c od plates below above :
  allocator_inv σ self c od plates below above → NoDup (_PYRO_STACK σ).
Proof. apply wf_nodup. Qed.

Lemma inv_valid σ self c od plates below above :
  allocator_inv σ self c od plates below above →
  ∀ r, r ∈ _PYRO_STACK σ → (r < length (heap σ))%nat.
Proof. apply wf_valid. Qed.

Lemma inv_names σ self c od plates below above :
  allocator_inv σ self c od plates below above → NoDup plates.*1.
Proof. apply wf_names. Qed.

Lemma inv_plates σ self c od plates below above :
  allocator_inv σ self c od plates below above →
  ∀ i name p,
    plates !! i = Some (name, p) →
    (∃ size, heap σ !! p = Some (plate_obj name (od - Z.of_nat i) size))
    ∧ _DIM_ALLOCATOR σ !! axis_index (od - Z.of_nat i)
      = Some (Some (plate_name name)).
Proof. apply wf_plates. Qed.

Lemma registered_inv σ self c od plates below above name size :
  allocator_inv σ self c od plates below above →
  dict_get name plates = None →
  allocator_inv
    (registered σ self c od (od - Z.of_nat (length plates)) plates below
       (plates.*2 ++ above) name size)
    self c od (plates ++ [(name, length (heap σ))]) below above.
Proof.
  intros [Hself Hneg Hstack Hnodup Hvalid Hnames Hplates] Hnew.
  set (fad := od - Z.of_nat (length plates)).
  set (p := length (heap σ)).
  assert (Hfad : fad < 0) by (unfold fad; lia).
  assert (Hself_lt : (self < length (heap σ))%nat)
    by (by apply lookup_lt_Some in Hself).
  assert (Hp_stack : p ∉ _PYRO_STACK σ).
  { intros Hin. apply Hvalid in Hin. unfold p in Hin. lia. }
  assert (Hstack' :
    _PYRO_STACK (registered σ self c od fad plates below
                   (plates.*2 ++ above) name size)
    = below ++ self :: (plates ++ [(name, p)]).*2 ++ above).
  { simpl. rewrite fmap_app. simpl.
    rewrite <- (length_fmap snd plates).
    rewrite take_app_length, drop_app_length.
    by rewrite <- app_assoc. }
  assert (Hperm :
    _PYRO_STACK (registered σ self c od fad plates below
                   (plates.*2 ++ above) name size)
    ≡ₚ p :: _PYRO_STACK σ).
  { rewrite Hstack', Hstack, fmap_app. simpl.
    rewrite <- app_assoc. simpl.
    rewrite (app_comm_cons (plates.*2) (p :: above) self).
    rewrite (app_comm_cons (plates.*2) above self).
    rewrite !app_assoc. symmetry.
    apply (Permutation_middle ((below ++ self :: plates.*2)) above p). }
  split.
  - simpl. rewrite list_lookup_insert_eq
      by (rewrite length_app; simpl; lia).
    unfold allocator_obj. do 3 f_equal.
    rewrite length_app. simpl. unfold fad. lia.
  - done.
  - exact Hstack'.
  - rewrite Hperm. apply NoDup_cons. by split.
  - intros r. rewrite Hperm. simpl.
    rewrite length_insert, length_app. simpl.
    intros [->|Hr]%elem_of_cons; [unfold p; lia|].
    apply Hvalid in Hr. lia.
  - rewrite fmap_app. simpl. apply NoDup_app. split_and!; [done| |].
    + intros x Hx Hx'. apply list_elem_of_singleton in Hx' as ->.
      by apply dict_get_None in Hnew.
    + apply NoDup_singleton.
  - intros i n q Hi. simpl.
    apply lookup_app_Some in Hi as [Hi|[Hge Hi]].
    + destruct (Hplates i n q Hi) as [[sz Hq] Hdim].
      assert (Hilt : (i < length plates)%nat) by (by apply lookup_lt_Some in Hi).
      assert (Hq_stack : q ∈ _PYRO_STACK σ).
      { rewrite Hstack. rewrite elem_of_app, elem_of_cons, elem_of_app.
        right. right. left. apply list_elem_of_fmap. exists (n, q).
        split; [done|]. by eapply list_elem_of_lookup_2. }
      assert (Hq_self : q ≠ self).
      { intros ->. rewrite Hstack in Hnodup.
        apply NoDup_app in Hnodup as (_ & _ & Hrest).
        apply NoDup_cons in Hrest as [Hs _]. apply Hs.
        rewrite elem_of_app. left. apply list_elem_of_fmap.
        exists (n, self). split; [done|]. by eapply list_elem_of_lookup_2. }
      split.
      * exists sz. rewrite list_lookup_insert_ne by done.
        by rewrite lookup_app_l by (by apply Hvalid).
      * rewrite list_lookup_insert_ne.
        -- by apply padded_lookup.
        -- intros Heq. unfold fad in Heq.
           apply axis_index_inj in Heq; [lia|done].
    + destruct (i - length plates)%nat as [|k] eqn:Ek; [|done].
      simpl in Hi. injection Hi as <- <-.
      assert (i = length plates) as -> by lia. fold fad. split.
      * exists size. rewrite list_lookup_insert_ne by (unfold p; lia).
        unfold p. by rewrite lookup_app_r, Nat.sub_diag by lia.
      * rewrite list_lookup_insert_eq; [done|].
        by apply padded_length.
Qed.

Lemma min_max_nonempty (indices : gset Z) :
  indices ≠ ∅ → ∃ mn mx, Py.min indices = Some mn ∧ Py.max indices = Some mx.
Proof.
  intros Hne. unfold Py.min, Py.max.
  destruct (elements indices) as [|x xs] eqn:E; [|eauto].
  apply elements_empty_inv in E. by apply leibniz_equiv in E.
Qed.

(** The loop body for a name that has a plate: the assertion, and nothing
    else. *)
Lemma add_index_existing σ self c od fad plates name indices p pc pn dim size :
  heap σ !! self = Some (allocator_obj c od fad plates) →
  dict_get name plates = Some p →
  heap σ !! p = Some {| class_of := pc; fields := PlateFields pn dim size |} →
  indices ≠ ∅ →
  IndexPlatesMessenger.add_index self name indices σ
  = if in_range indices size then Return tt σ
    else Raise (AssertionError
                  ("cannot add " +:+ name +:+ "=" +:+ repr_set indices
                   +:+ " to " +:+ pretty size)) σ.
Proof.
  intros Hself Hget Hp Hne.
  destruct (min_max_nonempty _ Hne) as (mn & mx & Hmn & Hmx).
  unfold IndexPlatesMessenger.add_index.
  rewrite (bind_Return _ _ _ _ _
             (index_plates_fields_Some _ _ _ _ _ _ Hself)).
  simpl. rewrite Hget.
  rewrite (bind_Return _ _ _ _ _ (plate_fields_Some _ _ _ _ _ _ Hp)).
  simpl. unfold in_range. rewrite Hmn, Hmx.
  by destruct (_ && _).
Qed.

Lemma plate_of_inv σ self c od plates below above i name p :
  allocator_inv σ self c od plates below above →
  plates !! i = Some (name, p) →
  ∃ size, heap σ !! p = Some (plate_obj name (od - Z.of_nat i) size)
          ∧ plate_of σ self name
            = Some (plate_name name, od - Z.of_nat i, size).
Proof.
  intros Hinv Hi. destruct (inv_plates _ _ _ _ _ _ _ Hinv i name p Hi)
    as [[size Hp] _].
  exists size. split; [done|].
  unfold plate_of, registry. rewrite (inv_self _ _ _ _ _ _ _ Hinv). simpl.
  rewrite (dict_get_lookup plates i name p (inv_names _ _ _ _ _ _ _ Hinv) Hi).
  simpl. by rewrite Hp.
Qed.

Lemma dict_get_Some_lookup {V} (k : string) (d : list (string * V)) v :
  dict_get k d = Some v → ∃ i, d !! i = Some (k, v).
Proof.
  intros H. apply dict_get_Some_elem_of in H.
  by apply list_elem_of_lookup_1 in H.
Qed.

Lemma dict_get_app_ne {V} (k k' : string) (d : list (string * V)) v :
  k ≠ k' → dict_get k (d ++ [(k', v)]) = dict_get k d.
Proof.
  intros Hne. induction d as [|[k0 v0] d IH]; simpl.
  - by destruct (decide (k' = k)).
  - by destruct (decide (k0 = k)).
Qed.

Lemma dict_get_app_new {V} (k : string) (d : list (string * V)) v :
  dict_get k d = None → dict_get k (d ++ [(k, v)]) = Some v.
Proof.
  induction d as [|[k0 v0] d IH]; simpl.
  - by destruct (decide (k = k)).
  - destruct (decide (k0 = k)); [done|]. exact IH.
Qed.

Lemma axis_owner_registered_ne σ self c od fad plates below rest name size d :
  d < 0 → fad < 0 → d ≠ fad →
  axis_owner σ d = None →
  axis_owner (registered σ self c od fad plates below rest name size) d
  = None.
Proof.
  intros Hd Hfad Hne Hfree. unfold axis_owner in *. simpl.
  rewrite list_lookup_insert_ne by (unfold axis_index; lia).
  destruct (padded (_DIM_ALLOCATOR σ) fad !! axis_index d)
    as [[x|]|] eqn:E; try done.
  apply padded_lookup in E. by rewrite E in Hfree.
Qed.

Lemma name_free_registered σ self c od fad plates below rest name size n :
  n ≠ name →
  Some (plate_name n) ∉ _DIM_ALLOCATOR σ →
  Some (plate_name n)
    ∉ _DIM_ALLOCATOR (registered σ self c od fad plates below rest name size).
Proof.
  intros Hne Hfree Hin. simpl in Hin.
  apply list_elem_of_lookup_1 in Hin as [i Hi].
  destruct (decide (i = axis_index fad)) as [->|Hi'].
  - apply list_lookup_insert_Some in Hi as [(_ & Heq & _)|[? _]]; [|done].
    apply (inj Some), plate_name_inj in Heq. by subst.
  - rewrite list_lookup_insert_ne in Hi by done.
    apply padded_lookup in Hi. apply Hfree. by eapply list_elem_of_lookup_2.
Qed.

Lemma registered_heap_frame σ self c od fad plates below rest name size q :
  q ≠ self → (q < length (heap σ))%nat →
  heap (registered σ self c od fad plates below rest name size) !! q
  = heap σ !! q.
Proof.
  intros Hne Hlt. simpl. rewrite list_lookup_insert_ne by done.
  by rewrite lookup_app_l.
Qed.

Lemma registered_heap_length σ self c od fad plates below rest name size :
  length (heap (registered σ self c od fad plates below rest name size))
  = S (length (heap σ)).
Proof. simpl. rewrite length_insert, length_app. simpl. lia. Qed.

Lemma registered_heap_new σ self c od fad plates below rest name size :
  (self < length (heap σ))%nat →
  heap (registered σ self c od fad plates below rest name size)
    !! length (heap σ)
  = Some (plate_obj name fad size).
Proof.
  intros Hlt. simpl. rewrite list_lookup_insert_ne by lia.
  by rewrite lookup_app_r, Nat.sub_diag by lia.
Qed.

Lemma inv_self_not_below σ self c od plates below above :
  allocator_inv σ self c od plates below above → self ∉ below.
Proof.
  intros Hinv Hin. pose proof (inv_nodup _ _ _ _ _ _ _ Hinv) as Hnd.
  rewrite (inv_stack _ _ _ _ _ _ _ Hinv) in Hnd.
  apply NoDup_app in Hnd as (_ & Hdisj & _).
  apply (Hdisj self Hin). left.
Qed.

Lemma inv_plate_ref σ self c od plates below above i name p :
  allocator_inv σ self c od plates below above →
  plates !! i = Some (name, p) →
  p ≠ self ∧ (p < length (heap σ))%nat.
Proof.
  intros Hinv Hi.
  assert (Hp : p ∈ plates.*2).
  { apply list_elem_of_fmap. exists (name, p). split; [done|].
    by eapply list_elem_of_lookup_2. }
  split.
  - intros ->. pose proof (inv_nodup _ _ _ _ _ _ _ Hinv) as Hnd.
    rewrite (inv_stack _ _ _ _ _ _ _ Hinv) in Hnd.
    apply NoDup_app in Hnd as (_ & _ & Hnd).
    apply NoDup_cons in Hnd as [Hs _]. apply Hs.
    rewrite elem_of_app. by left.
  - apply (inv_valid _ _ _ _ _ _ _ Hinv).
    rewrite (inv_stack _ _ _ _ _ _ _ Hinv).
    rewrite elem_of_app, elem_of_cons, elem_of_app. tauto.
Qed.

Lemma new_items_app_ne plates (indexset : IndexSet) n (p : ref) :
  n ∉ indexset.*1 →
  new_items (plates ++ [(n, p)]) indexset = new_items plates indexset.
Proof.
  intros Hn. unfold new_items.
  induction indexset as [|[k s] l IH]; [done|].
  rewrite fmap_cons, not_elem_of_cons in Hn. destruct Hn as [Hne Hn].
  rewrite !filter_cons. simpl in *.
  rewrite dict_get_app_ne by done. rewrite IH by done. done.
Qed.

(** The loop of [_pyro_add_indices], from the state of an active
    allocator. *)
Lemma add_indices_loop self c od below above (indexset : IndexSet) :
  ∀ σ plates,
  allocator_inv σ self c od plates below above →
  NoDup indexset.*1 →
  (∀ name indices, (name, indices) ∈ indexset → indices ≠ ∅) →
  (∀ name indices size,
     (name, indices) ∈ indexset →
     plate_size σ self name = Some size → in_range indices size = true) →
  (∀ i, (i < length (new_items plates indexset))%nat →
        axis_owner σ (od - Z.of_nat (length plates) - Z.of_nat i) = None) →
  (∀ name, name ∈ (new_items plates indexset).*1 →
           Some (plate_name name) ∉ _DIM_ALLOCATOR σ) →
  ∃ σ',
    for_each indexset
      (λ '(name, indices), IndexPlatesMessenger.add_index self name indices)
      σ = Return tt σ'
    ∧ allocator_inv σ' self c od
        (plates ++ fresh_plates (new_items plates indexset)
                     (length (heap σ)))
        below above
    ∧ (∀ q o, q ≠ self → heap σ !! q = Some o → heap σ' !! q = Some o)
    ∧ (∀ i name indices,
         new_items plates indexset !! i = Some (name, indices) →
         heap σ' !! (length (heap σ) + i)%nat
         = Some (plate_obj name
                   (od - Z.of_nat (length plates) - Z.of_nat i)
                   (new_size indices))).
Proof.
  induction indexset as [|[n s] rest IH];
    intros σ plates Hinv Hnd Hne Hrange Hfree Hnames.
  - exists σ. simpl. unfold fresh_plates. simpl. rewrite app_nil_r.
    split_and!; [done..|]. intros i ?? Hi. done.
  - rewrite fmap_cons in Hnd. apply NoDup_cons in Hnd as [Hn Hnd].
    assert (Hs : s ≠ ∅) by (apply (Hne n); left).
    simpl.
    destruct (dict_get n plates) as [p|] eqn:Hget.
    + (* the name has a plate *)
      destruct (dict_get_Some_lookup _ _ _ Hget) as [j Hj].
      destruct (plate_of_inv _ _ _ _ _ _ _ _ _ _ Hinv Hj)
        as (size & Hp & Hplate).
      assert (Hok : in_range s size = true).
      { apply (Hrange n s size); [left|].
        unfold plate_size. by rewrite Hplate. }
      pose proof (add_index_existing σ self c od _ plates n s p _ _ _ size
                    (inv_self _ _ _ _ _ _ _ Hinv) Hget Hp Hs) as Hstep.
      rewrite Hok in Hstep.
      rewrite (bind_Return _ _ _ _ _ Hstep).
      assert (Hnews : new_items plates ((n, s) :: rest)
                      = new_items plates rest).
      { unfold new_items. rewrite filter_cons. simpl. by rewrite Hget. }
      rewrite Hnews in *.
      apply IH; try done.
      * intros name indices Hin. apply (Hne name). by right.
      * intros name indices sz Hin Hsz.
        apply (Hrange name indices sz); [by right|done].
    + (* the name is new *)
      destruct (min_max_nonempty _ Hs) as (mn & mx & Hmn & Hmx).
      assert (Hnews : new_items plates ((n, s) :: rest)
                      = (n, s) :: new_items plates rest).
      { unfold new_items. rewrite filter_cons. simpl. by rewrite Hget. }
      rewrite Hnews in *.
      set (fad := od - Z.of_nat (length plates)).
      pose proof (inv_neg _ _ _ _ _ _ _ Hinv) as Hod.
      assert (Hfad : fad < 0) by (unfold fad; lia).
      assert (Hfree0 : axis_owner σ fad = None).
      { specialize (Hfree 0%nat). simpl in Hfree.
        replace fad with (fad - 0) by lia. apply Hfree. lia. }
      assert (Hname0 : Some (plate_name n) ∉ _DIM_ALLOCATOR σ).
      { apply Hnames. simpl. left. }
      pose proof (add_index_new σ self c od fad plates below
                    (plates.*2 ++ above) n s mx
                    (inv_self _ _ _ _ _ _ _ Hinv)
                    (inv_stack _ _ _ _ _ _ _ Hinv)
                    (inv_self_not_below _ _ _ _ _ _ _ Hinv)
                    (inv_valid _ _ _ _ _ _ _ Hinv)
                    Hget Hmx Hfad Hfree0 Hname0) as Hstep.
      rewrite (bind_Return _ _ _ _ _ Hstep).
      set (size := Z.max (mx + 1) (Py.len s)) in *.
      set (σ1 := registered σ self c od fad plates below
                   (plates.*2 ++ above) n size) in *.
      pose proof (registered_inv σ self c od plates below above n size
                    Hinv Hget) as Hinv1.
      fold fad in Hinv1. fold σ1 in Hinv1.
      assert (Hself_lt : (self < length (heap σ))%nat).
      { pose proof (inv_self _ _ _ _ _ _ _ Hinv) as H.
        by apply lookup_lt_Some in H. }
      assert (Hlen1 : length (heap σ1) = S (length (heap σ)))
        by apply registered_heap_length.
      assert (Hnews1 : new_items (plates ++ [(n, length (heap σ))]) rest
                       = new_items plates rest)
        by (by apply new_items_app_ne).
      destruct (IH σ1 (plates ++ [(n, length (heap σ))])) as
        (σ' & Hrun & Hinv' & Hframe & Hsizes); try done.
      * intros name indices Hin. apply (Hne name). by right.
      * (* the plates of the names that had one are unchanged *)
        intros name indices sz Hin Hsz.
        assert (Hnn : name ≠ n).
        { intros ->. apply Hn. apply list_elem_of_fmap.
          by exists (n, indices). }
        apply (Hrange name indices sz); [by right|].
        unfold plate_size, plate_of, registry in *.
        rewrite (inv_self _ _ _ _ _ _ _ Hinv1) in Hsz.
        rewrite (inv_self _ _ _ _ _ _ _ Hinv). simpl in *.
        rewrite dict_get_app_ne in Hsz by done.
        destruct (dict_get name plates) as [q|] eqn:Hq; [|done].
        simpl in *.
        destruct (dict_get_Some_lookup _ _ _ Hq) as [j Hj].
        destruct (inv_plate_ref _ _ _ _ _ _ _ _ _ _ Hinv Hj) as [Hqs Hql].
        rewrite list_lookup_insert_ne in Hsz by done.
        by rewrite lookup_app_l in Hsz by done.
      * rewrite Hnews1. rewrite length_app. simpl.
        intros i Hi.
        replace (od - Z.of_nat (length plates + 1) - Z.of_nat i)
          with (fad - Z.of_nat (S i)) by (unfold fad; lia).
        apply axis_owner_registered_ne; [lia|done|lia|].
        unfold fad. apply Hfree. simpl. lia.
      * rewrite Hnews1. intros name Hname.
        apply name_free_registered.
        -- intros ->. apply Hn.
           apply list_elem_of_fmap in Hname as ([k v] & -> & Hkv).
           apply list_elem_of_filter in Hkv as [_ Hkv].
           apply list_elem_of_fmap. by exists (k, v).
        -- apply Hnames. simpl. by right.
      * exists σ'. rewrite Hnews1, Hlen1 in *.
        split_and!.
        -- done.
        -- unfold fresh_plates in *. simpl.
           rewrite <- app_assoc in Hinv'. exact Hinv'.
        -- intros q o Hq Ho. apply Hframe; [done|].
           unfold σ1. rewrite registered_heap_frame; [done..|].
           by apply lookup_lt_Some in Ho.
        -- intros [|i] name indices Hi; simpl in Hi.
           ++ injection Hi as <- <-. rewrite Nat.add_0_r.
              apply Hframe; [lia|].
              unfold σ1. rewrite registered_heap_new by done.
              unfold new_size. rewrite Hmx. unfold fad.
              by replace (od - Z.of_nat (length plates) - Z.of_nat 0)
                with (od - Z.of_nat (length plates)) by lia.
           ++ replace (length (heap σ) + S i)%nat
                with (S (length (heap σ)) + i)%nat by lia.
              rewrite (Hsizes i name indices Hi).
              rewrite length_app. simpl. do 2 f_equal. lia.
Qed.

Lemma fresh_plates_lookup (news : IndexSet) start i name indices :
  news !! i = Some (name, indices) →
  fresh_plates news start !! i = Some (name, (start + i)%nat).
Proof.
  intros Hi. unfold fresh_plates.
  apply lookup_zip_with_Some. exists name, (start + i)%nat.
  split_and!; [done| |].
  - by rewrite list_lookup_fmap, Hi.
  - apply lookup_seq. split; [done|]. by apply lookup_lt_Some in Hi.
Qed.

Lemma fresh_plates_length (news : IndexSet) start :
  length (fresh_plates news start) = length news.
Proof.
  unfold fresh_plates.
  rewrite length_zip_with, length_fmap, length_seq. lia.
Qed.

Lemma cursor_inv σ self c od plates below above :
  allocator_inv σ self c od plates below above →
  cursor σ self = Some (od - Z.of_nat (length plates)).
Proof. intros Hinv. unfold cursor. by rewrite (inv_self _ _ _ _ _ _ _ Hinv). Qed.

Lemma registry_inv σ self c od plates below above :
  allocator_inv σ self c od plates below above →
  registry σ self = Some plates.
Proof.
  intros Hinv. unfold registry. by rewrite (inv_self _ _ _ _ _ _ _ Hinv).
Qed.

(** [Py.max] and [Py.min] are the greatest and the least element. *)
Lemma foldr_max_spec (x : Z) (xs : list Z) :
  foldr Z.max x xs ∈ x :: xs ∧ ∀ y, y ∈ x :: xs → y ≤ foldr Z.max x xs.
Proof.
  induction xs as [|z xs [IHin IHle]]; simpl.
  - split; [left|]. intros y Hy%list_elem_of_singleton. lia.
  - split.
    + destruct (Z.max_spec z (foldr Z.max x xs)) as [[_ ->]|[_ ->]].
      * apply elem_of_cons in IHin as [->|?]; [left|by do 2 right].
      * right. left.
    + intros y Hy. rewrite !elem_of_cons in Hy.
      destruct Hy as [->|[->|Hy]].
      * specialize (IHle x ltac:(left)). lia.
      * lia.
      * specialize (IHle y ltac:(by right)). lia.
Qed.

Lemma foldr_min_spec (x : Z) (xs : list Z) :
  foldr Z.min x xs ∈ x :: xs ∧ ∀ y, y ∈ x :: xs → foldr Z.min x xs ≤ y.
Proof.
  induction xs as [|z xs [IHin IHle]]; simpl.
  - split; [left|]. intros y Hy%list_elem_of_singleton. lia.
  - split.
    + destruct (Z.min_spec z (foldr Z.min x xs)) as [[_ ->]|[_ ->]].
      * right. left.
      * apply elem_of_cons in IHin as [->|?]; [left|by do 2 right].
    + intros y Hy. rewrite !elem_of_cons in Hy.
      destruct Hy as [->|[->|Hy]].
      * specialize (IHle x ltac:(left)). lia.
      * lia.
      * specialize (IHle y ltac:(by right)). lia.
Qed.

Lemma max_spec (s : gset Z) mx :
  Py.max s = Some mx → mx ∈ s ∧ ∀ y, y ∈ s → y ≤ mx.
Proof.
  unfold Py.max. destruct (elements s) as [|x xs] eqn:E; [done|].
  intros [= <-]. destruct (foldr_max_spec x xs) as [Hin Hle].
  rewrite <- E in Hin, Hle. setoid_rewrite elem_of_elements in Hle.
  by apply elem_of_elements in Hin.
Qed.

Lemma min_spec (s : gset Z) mn :
  Py.min s = Some mn → mn ∈ s ∧ ∀ y, y ∈ s → mn ≤ y.
Proof.
  unfold Py.min. destruct (elements s) as [|x xs] eqn:E; [done|].
  intros [= <-]. destruct (foldr_min_spec x xs) as [Hin Hle].
  rewrite <- E in Hin, Hle. setoid_rewrite elem_of_elements in Hle.
  by apply elem_of_elements in Hin.
Qed.

(** C1.  A call of [add_indices] that reaches an active allocator
    registers, for each name of the index set that has no plate yet and in
    the order of the index set, a new plate of size
    [max(max(indices) + 1, len(indices))] at the axis the cursor holds at
    that moment, and moves the cursor down by one: the [i]-th new name
    gets the axis [fad - i], where [fad] is the cursor at the call, and
    the cursor ends at [fad] minus the number of new names.  The call
    returns when the names that have a plate pass their range check and
    Pyro's dimension allocator has the axes free. *)
Theorem add_indices_registers_new_names
    σ self c od plates below above m (indexset : IndexSet) fad :
  allocator_inv σ self c od plates below above →
  cursor σ self = Some fad →
  msg.args m = [VIndexSet indexset] →
  NoDup indexset.*1 →
  (∀ name indices, (name, indices) ∈ indexset → indices ≠ ∅) →
  (∀ name indices size,
     (name, indices) ∈ indexset →
     plate_size σ self name = Some size → in_range indices size = true) →
  (∀ i, (i < length (new_items plates indexset))%nat →
        axis_owner σ (fad - Z.of_nat i) = None) →
  (∀ name, name ∈ (new_items plates indexset).*1 →
           Some (plate_name name) ∉ _DIM_ALLOCATOR σ) →
  ∃ σ',
    IndexPlatesMessenger._pyro_add_indices self m σ = Return m σ'
    ∧ allocator_inv σ' self c od
        (plates ++ fresh_plates (new_items plates indexset)
                     (length (heap σ)))
        below above
    ∧ cursor σ' self
      = Some (fad - Z.of_nat (length (new_items plates indexset)))
    ∧ ∀ i name indices,
        new_items plates indexset !! i = Some (name, indices) →
        ∃ mx, Py.max indices = Some mx
              ∧ plate_axis σ' self name = Some (fad - Z.of_nat i)
              ∧ plate_size σ' self name
                = Some (Z.max (mx + 1) (Py.len indices)).
Proof.
  intros Hinv Hcur Hargs Hnd Hne Hrange Hfree Hnames.
  rewrite (cursor_inv _ _ _ _ _ _ _ Hinv) in Hcur. injection Hcur as <-.
  destruct (add_indices_loop self c od below above indexset σ plates
              Hinv Hnd Hne Hrange Hfree Hnames)
    as (σ' & Hrun & Hinv' & Hframe & Hsizes).
  exists σ'. split_and!.
  - unfold IndexPlatesMessenger._pyro_add_indices. rewrite Hargs.
    by rewrite (bind_Return _ _ _ _ _ Hrun).
  - done.
  - rewrite (cursor_inv _ _ _ _ _ _ _ Hinv').
    rewrite length_app, fresh_plates_length. f_equal. lia.
  - intros i name indices Hi.
    assert (Hs : indices ≠ ∅).
    { apply (Hne name). apply list_elem_of_lookup_2 in Hi.
      by apply list_elem_of_filter in Hi as [_ ?]. }
    destruct (min_max_nonempty _ Hs) as (mn & mx & _ & Hmx).
    exists mx. split; [done|].
    assert (Hplate : plate_of σ' self name
                     = Some (plate_name name,
                             od - Z.of_nat (length plates) - Z.of_nat i,
                             Z.max (mx + 1) (Py.len indices))).
    { unfold plate_of. rewrite (registry_inv _ _ _ _ _ _ _ Hinv'). simpl.
      erewrite dict_get_lookup with (i := (length plates + i)%nat);
        [|by apply (inv_names _ _ _ _ _ _ _ Hinv')|]; last first.
      { rewrite lookup_app_r by lia.
        replace (length plates + i - length plates)%nat with i by lia.
        by apply fresh_plates_lookup with indices. }
      simpl. rewrite (Hsizes i name indices Hi). simpl.
      unfold new_size. by rewrite Hmx. }
    unfold plate_axis, plate_size. by rewrite Hplate.
Qed.

(** The example states are the states the code reaches. *)
Lemma mwc_active_reached :
  (h ← IndexPlatesMessenger.__init__ MultiWorldCounterfactual None;
   IndexPlatesMessenger.__enter__ h) empty_runtime
  = Return 0%nat mwc_active.
Proof. reflexivity. Qed.

Lemma mwc_with_X_reached :
  add_indices [("X", {[0; 1]})] mwc_active
  = Return (VIndexSet [("X", {[0; 1]})]) mwc_with_X.
Proof. vm_compute. reflexivity. Qed.

Lemma mwc_active_inv :
  allocator_inv mwc_active 0%nat MultiWorldCounterfactual (-5) [] [] [].
Proof.
  split; simpl; try done.
  - apply NoDup_singleton.
  - intros r ->%list_elem_of_singleton. lia.
  - apply NoDup_nil_2.
Qed.

Lemma in_range_spec indices size :
  in_range indices size = true ↔
  ∃ mn mx, Py.min indices = Some mn ∧ Py.max indices = Some mx
           ∧ 0 ≤ mn ∧ mn ≤ Py.len indices - 1
           ∧ Py.len indices - 1 ≤ mx ∧ mx < size.
Proof.
  unfold in_range.
  destruct (Py.min indices) as [mn|], (Py.max indices) as [mx|];
    try (split; [done | by intros (? & ? & ? & ? & _)]).
  rewrite !andb_true_iff, !bool_decide_eq_true. split.
  - intros [[[? ?] ?] ?]. by exists mn, mx.
  - intros (? & ? & [= <-] & [= <-] & ? & ? & ? & ?). done.
Qed.

Lemma plate_size_Some σ self name size :
  plate_size σ self name = Some size →
  ∃ c od fad plates p pc pn dim,
    heap σ !! self = Some (allocator_obj c od fad plates)
    ∧ dict_get name plates = Some p
    ∧ heap σ !! p
      = Some {| class_of := pc; fields := PlateFields pn dim size |}.
Proof.
  unfold plate_size, plate_of, registry. intros H.
  destruct (heap σ !! self) as [[c [od fad plates| |]]|] eqn:Hs;
    simpl in H; try done.
  destruct (dict_get name plates) as [p|] eqn:Hp; simpl in H; [|done].
  destruct (heap σ !! p) as [[pc [| pn dim sz |]]|] eqn:Hq;
    simpl in H; try done.
  injection H as ->. by exists c, od, fad, plates, p, pc, pn, dim.
Qed.

Lemma add_indices_loop_existing σ self (indexset : IndexSet) :
  (∀ name indices,
     (name, indices) ∈ indexset →
     indices ≠ ∅ ∧ is_Some (plate_size σ self name)) →
  ∃ text,
    for_each indexset
      (λ '(name, indices), IndexPlatesMessenger.add_index self name indices)
      σ
    = if all_in_range σ self indexset then Return tt σ
      else Raise (AssertionError text) σ.
Proof.
  intros Hall. unfold all_in_range.
  induction indexset as [|[n s] rest IH]; cbn [for_each forallb].
  - by exists "".
  - destruct (Hall n s) as [Hs [size Hsize]]; [left|].
    destruct (plate_size_Some _ _ _ _ Hsize)
      as (c & od & fad & plates & p & pc & pn & dim & Hself & Hget & Hp).
    pose proof (add_index_existing σ self c od fad plates n s p pc pn dim
                  size Hself Hget Hp Hs) as Hstep.
    cbn [fst snd]. rewrite Hsize.
    destruct (in_range s size); cbn [andb].
    + rewrite (bind_Return _ _ _ _ _ Hstep).
      apply IH. intros name indices Hin. apply Hall. by right.
    + eexists. by rewrite (bind_Raise _ _ _ _ _ Hstep).
Qed.

(** C4, as the code has it.  A call of [add_indices] whose names all have
    a plate already checks, name by name, that
    [0 <= min(indices) <= len(indices) - 1 <= max(indices) < size].  When
    a name fails the check the call raises an [AssertionError] and leaves
    the state as it was: no plate changes its size.  When all names pass,
    the call returns and leaves the state as it was. *)
Theorem add_indices_existing_names σ self m (indexset : IndexSet) :
  msg.args m = [VIndexSet indexset] →
  (∀ name indices,
     (name, indices) ∈ indexset →
     indices ≠ ∅ ∧ is_Some (plate_size σ self name)) →
  (all_in_range σ self indexset = true →
   IndexPlatesMessenger._pyro_add_indices self m σ = Return m σ)
  ∧ (all_in_range σ self indexset = false →
     ∃ text,
       IndexPlatesMessenger._pyro_add_indices self m σ
       = Raise (AssertionError text) σ).
Proof.
  intros Hargs Hall.
  unfold IndexPlatesMessenger._pyro_add_indices. rewrite Hargs.
  destruct (add_indices_loop_existing σ self indexset Hall) as [text Hrun].
  split; intros Hok; rewrite Hok in Hrun.
  - by rewrite (bind_Return _ _ _ _ _ Hrun).
  - exists text. by rewrite (bind_Raise _ _ _ _ _ Hrun).
Qed.

(** C4, as it is stated, fails: with a plate of size 2 for [X], adding the
    index 5 to [X] violates the range condition, and the error is an
    [AssertionError], which is not a [ValueError]. *)
Lemma add_indices_range_error_is_not_ValueError :
  plate_size mwc_with_X 0%nat "X" = Some 2
  ∧ in_range {[5]} 2 = false
  ∧ IndexPlatesMessenger._pyro_add_indices 0%nat
      (add_indices_msg [("X", {[5]})]) mwc_with_X
    = Raise (AssertionError "cannot add X={5} to 2") mwc_with_X
  ∧ is_ValueError (AssertionError "cannot add X={5} to 2") = false.
Proof. vm_compute. done. Qed.

Lemma add_indices_existing_names_witness :
  IndexPlatesMessenger._pyro_add_indices 0%nat
    (add_indices_msg [("X", {[0]})]) mwc_with_X
  = Return (add_indices_msg [("X", {[0]})]) mwc_with_X.
Proof.
  apply (add_indices_existing_names mwc_with_X 0%nat
           (add_indices_msg [("X", {[0]})]) [("X", {[0]})]).
  - reflexivity.
  - intros name indices Hin. apply list_elem_of_singleton in Hin.
    injection Hin as -> ->. split.
    + intros H. apply (f_equal elements) in H. vm_compute in H. done.
    + exists 2. vm_compute. reflexivity.
  - vm_compute. reflexivity.
Defined.

(** ** Allocation collisions *)

Lemma prefix_app (n b : string) : String.prefix n (n +:+ b) = true.
Proof.
  induction n as [|c n IH]; [by destruct b|].
  change (String c n +:+ b) with (String c (n +:+ b)). simpl.
  destruct (Ascii.ascii_dec c c); [done|congruence].
Qed.

Lemma str_in_prefix (n b : string) : Py.str_in n (n +:+ b) = true.
Proof.
  pose proof (prefix_app n b) as H.
  destruct (n +:+ b); cbn [Py.str_in]; by rewrite H.
Qed.

Lemma str_in_app_r (n a b : string) :
  Py.str_in n b = true → Py.str_in n (a +:+ b) = true.
Proof.
  intros H. induction a as [|c a IH]; [done|].
  change (String c a +:+ b) with (String c (a +:+ b)). cbn [Py.str_in].
  destruct (String.prefix n (String c (a +:+ b))); [done|]. exact IH.
Qed.

Lemma append_assoc (a b c : string) : (a +:+ b) +:+ c = a +:+ (b +:+ c).
Proof.
  induction a as [|x a IH]; [done|].
  change (String x ((a +:+ b) +:+ c) = String x (a +:+ (b +:+ c))).
  by f_equal.
Qed.

Lemma collide_message_recognised name other dim :
  Py.str_in "collide at dim" (_DimAllocator.collide_message name other dim)
  = true.
Proof.
  unfold _DimAllocator.collide_message.
  do 8 apply str_in_app_r. reflexivity.
Qed.

(** The advice of the allocation error: a starting axis below the
    configured one. *)
Lemma allocation_message_advice self_repr fad od :
  Py.str_in
    ("Try setting a value less than " +:+ pretty od
     +:+ " for `first_available_dim`")
    (IndexPlatesMessenger.allocation_message self_repr fad od)
  = true.
Proof.
  unfold IndexPlatesMessenger.allocation_message.
  do 6 apply str_in_app_r.
  match goal with
  | |- Py.str_in ?n ?h = true =>
      replace h with
        (n +:+ " that is less than the leftmost (most negative) plate dimension in your model.")
  end.
  - apply str_in_prefix.
  - rewrite !append_assoc. reflexivity.
Qed.

Lemma plate_enter_collide σ p name dim size other :
  heap σ !! p = Some (plate_obj name dim size) →
  dim < 0 →
  axis_owner σ dim = Some other →
  Some (plate_name name) ∉ _DIM_ALLOCATOR σ →
  IndepMessenger.__enter__ p σ
  = Raise (ValueError
             (_DimAllocator.collide_message (plate_name name) other dim)) σ.
Proof.
  intros Hp Hd Hown Hname. unfold IndepMessenger.__enter__.
  rewrite (bind_Return _ _ _ _ _ (plate_fields_Some _ _ _ _ _ _ Hp)).
  by rewrite (bind_Raise _ _ _ _ _ (allocate_collide _ _ _ _ Hd Hown Hname)).
Qed.

Lemma repr_Some σ self o :
  heap σ !! self = Some o →
  repr self σ
  = Return ("<" +:+ class_name (class_of o) +:+ " object at "
            +:+ pretty (Z.of_nat self) +:+ ">") σ.
Proof.
  intros H. unfold repr.
  by rewrite (bind_Return _ _ _ _ _ (deref_Some _ _ _ H)).
Qed.

(** The outcome of a collision: the allocation error, in a state that
    differs from the state before the call by the plate object that was
    created and never entered. *)
Lemma collision_outcome
    σ self c od fad plates m name indices (rest : IndexSet) other mx :
  heap σ !! self = Some (allocator_obj c od fad plates) →
  msg.args m = [VIndexSet ((name, indices) :: rest)] →
  dict_get name plates = None →
  Py.max indices = Some mx →
  fad < 0 →
  axis_owner σ fad = Some other →
  Some (plate_name name) ∉ _DIM_ALLOCATOR σ →
  IndexPlatesMessenger._pyro_add_indices self m σ
  = Raise (ValueError
             (IndexPlatesMessenger.allocation_message
                ("<" +:+ class_name c +:+ " object at "
                 +:+ pretty (Z.of_nat self) +:+ ">") fad od))
      {| _PYRO_STACK := _PYRO_STACK σ;
         _DIM_ALLOCATOR := _DIM_ALLOCATOR σ;
         heap := heap σ
                 ++ [plate_obj name fad (Z.max (mx + 1) (Py.len indices))];
         history := history σ |}.
Proof.
  intros Hself Hargs Hnew Hmx Hneg Hown Hname.
  pose proof (max_Some_len _ _ Hmx) as Hlen.
  set (size := Z.max (mx + 1) (Py.len indices)).
  set (p := length (heap σ)).
  set (σ1 := {| _PYRO_STACK := _PYRO_STACK σ;
                _DIM_ALLOCATOR := _DIM_ALLOCATOR σ;
                heap := heap σ ++ [plate_obj name fad size];
                history := history σ |}).
  assert (Hself_lt : (self < length (heap σ))%nat)
    by (by apply lookup_lt_Some in Hself).
  assert (Hself1 : heap σ1 !! self = Some (allocator_obj c od fad plates)).
  { simpl. by rewrite lookup_app_l. }
  assert (Hp1 : heap σ1 !! p = Some (plate_obj name fad size)).
  { simpl. unfold p. by rewrite lookup_app_r, Nat.sub_diag by lia. }
  assert (Hinit : _LazyPlateMessenger.__init__ name fad size σ
                  = Return p σ1).
  { unfold _LazyPlateMessenger.__init__, IndepMessenger.__init__.
    destruct (decide (size = 0)); [lia|]. done. }
  pose proof (plate_enter_collide σ1 p name fad size other Hp1 Hneg
                Hown Hname) as Henter.
  unfold IndexPlatesMessenger._pyro_add_indices. rewrite Hargs.
  apply bind_Raise. cbn [for_each]. apply bind_Raise.
  unfold IndexPlatesMessenger.add_index.
  rewrite (bind_Return _ _ _ _ _
             (index_plates_fields_Some _ _ _ _ _ _ Hself)).
  simpl. rewrite Hnew, Hmx. fold size.
  rewrite (bind_Return _ _ _ _ _ Hinit).
  apply bind_Raise.
  unfold IndexPlatesMessenger._enter_index_plate.
  apply bind_Raise. unfold try_except.
  rewrite (bind_Raise _ _ _ _ _ Henter).
  cbn [is_ValueError str]. rewrite collide_message_recognised.
  rewrite (bind_Return _ _ _ _ _ (repr_Some _ _ _ Hself1)).
  rewrite (bind_Return _ _ _ _ _
             (index_plates_fields_Some _ _ _ _ _ _ Hself1)).
  reflexivity.
Qed.

(** A collision leaves the allocator in a state from which its scope can
    be left. *)
Lemma collision_preserves_inv σ self c od plates below above name size :
  allocator_inv σ self c od plates below above →
  allocator_inv
    {| _PYRO_STACK := _PYRO_STACK σ;
       _DIM_ALLOCATOR := _DIM_ALLOCATOR σ;
       heap := heap σ ++ [plate_obj name (od - Z.of_nat (length plates)) size];
       history := history σ |}
    self c od plates below above.
Proof.
  intros [Hself Hneg Hstack Hnodup Hvalid Hnames Hplates].
  split; simpl; try done.
  - by apply lookup_app_l_Some.
  - intros r Hr. rewrite length_app. apply Hvalid in Hr. lia.
  - intros i n p Hi. destruct (Hplates i n p Hi) as [[sz Hp] Hd].
    split; [|done]. exists sz. by apply lookup_app_l_Some.
Qed.

(** C6.  When [add_indices] asks for a plate for a new name and the axis
    under the cursor is held by another plate ([other]) in Pyro's
    dimension allocator, the call raises a [ValueError] whose text advises
    a value of [first_available_dim] below the configured one.  Nothing is
    allocated instead: the dimension allocator, the handler stack, the
    axis history, the registry and the cursor are as before the call. *)
Theorem collision_raises_allocation_error
    σ self c od fad plates m name indices (rest : IndexSet) other :
  heap σ !! self = Some (allocator_obj c od fad plates) →
  msg.args m = [VIndexSet ((name, indices) :: rest)] →
  dict_get name plates = None →
  indices ≠ ∅ →
  fad < 0 →
  axis_owner σ fad = Some other →
  Some (plate_name name) ∉ _DIM_ALLOCATOR σ →
  ∃ text σ',
    IndexPlatesMessenger._pyro_add_indices self m σ
    = Raise (ValueError text) σ'
    ∧ Py.str_in ("Try setting a value less than " +:+ pretty od
                 +:+ " for `first_available_dim`") text = true
    ∧ _DIM_ALLOCATOR σ' = _DIM_ALLOCATOR σ
    ∧ _PYRO_STACK σ' = _PYRO_STACK σ
    ∧ history σ' = history σ
    ∧ registry σ' self = Some plates
    ∧ cursor σ' self = Some fad.
Proof.
  intros Hself Hargs Hnew Hs Hneg Hown Hname.
  destruct (min_max_nonempty _ Hs) as (mn & mx & _ & Hmx).
  assert (Hself_lt : (self < length (heap σ))%nat)
    by (by apply lookup_lt_Some in Hself).
  do 2 eexists. split.
  - by eapply collision_outcome.
  - split; [apply allocation_message_advice|].
    unfold registry, cursor. simpl.
    rewrite !lookup_app_l by done. rewrite Hself. by split_and!.
Qed.

(** ** Leaving scopes *)

Lemma pop_trailing_none_lookup l i x :
  _DimAllocator.pop_trailing_none l !! i = Some (Some x)
  ↔ l !! i = Some (Some x).
Proof.
  revert i. induction l as [|y l IH]; intros i; [done|]. simpl.
  destruct y as [y|].
  - destruct i as [|i]; [done|]. simpl. apply IH.
  - destruct (_DimAllocator.pop_trailing_none l) as [|z r] eqn:E.
    + destruct i as [|i]; simpl; [done|].
      rewrite <- IH. done.
    + destruct i as [|i]; simpl; [done|]. apply IH.
Qed.

Lemma pop_trailing_none_owner l i :
  mjoin (_DimAllocator.pop_trailing_none l !! i) = mjoin (l !! i).
Proof.
  destruct (l !! i) as [[x|]|] eqn:E.
  - apply (proj2 (pop_trailing_none_lookup _ _ _)) in E. by rewrite E.
  - destruct (_DimAllocator.pop_trailing_none l !! i) as [[x|]|] eqn:E';
      try done.
    apply (proj1 (pop_trailing_none_lookup _ _ _)) in E'. congruence.
  - destruct (_DimAllocator.pop_trailing_none l !! i) as [[x|]|] eqn:E';
      try done.
    apply (proj1 (pop_trailing_none_lookup _ _ _)) in E'. congruence.
Qed.

Lemma position_axis {A} (l : list A) dim x :
  dim < 0 → l !! axis_index dim = Some x →
  Py.position l (-1 - dim) = Some (axis_index dim).
Proof.
  intros Hd Hl. apply lookup_lt_Some in Hl. unfold Py.position, axis_index in *.
  destruct (decide (0 ≤ -1 - dim < Z.of_nat (length l))); [done|lia].
Qed.

Lemma free_held σ name dim :
  dim < 0 →
  _DIM_ALLOCATOR σ !! axis_index dim = Some (Some name) →
  _DimAllocator.free name dim σ
  = Return tt
      {| _PYRO_STACK := _PYRO_STACK σ;
         _DIM_ALLOCATOR :=
           _DimAllocator.pop_trailing_none
             (<[axis_index dim := None]> (_DIM_ALLOCATOR σ));
         heap := heap σ;
         history := history σ ++ [Freed name dim] |}.
Proof.
  intros Hd Hl. unfold _DimAllocator.free.
  unfold mbind at 1, M_bind at 1, get_dims at 1.
  unfold Py.getitem, Py.setitem.
  rewrite (position_axis _ _ _ Hd Hl). simpl. rewrite Hl.
  unfold assert. rewrite bool_decide_eq_true_2 by done. done.
Qed.

Lemma messenger_exit σ x exc pre post :
  _PYRO_STACK σ = pre ++ x :: post →
  x ∉ pre →
  (exc = None → post = []) →
  Messenger.__exit__ x exc σ
  = Return tt {| _PYRO_STACK := pre; _DIM_ALLOCATOR := _DIM_ALLOCATOR σ;
                 heap := heap σ; history := history σ |}.
Proof.
  intros Hstack Hx Hpost. unfold Messenger.__exit__.
  unfold mbind, M_bind, get_stack. rewrite Hstack.
  destruct exc as [e|].
  - rewrite index_here by done. unfold set_stack. simpl.
    by rewrite take_app_length.
  - rewrite (Hpost eq_refl). rewrite last_snoc.
    destruct (decide (x = x)); [|done].
    unfold set_stack. simpl. by rewrite removelast_last.
Qed.

Lemma plate_exit σ p name dim size exc pre post :
  heap σ !! p = Some (plate_obj name dim size) →
  dim < 0 →
  _DIM_ALLOCATOR σ !! axis_index dim = Some (Some (plate_name name)) →
  _PYRO_STACK σ = pre ++ p :: post →
  p ∉ pre →
  (exc = None → post = []) →
  IndepMessenger.__exit__ p exc σ
  = Return tt
      {| _PYRO_STACK := pre;
         _DIM_ALLOCATOR :=
           _DimAllocator.pop_trailing_none
             (<[axis_index dim := None]> (_DIM_ALLOCATOR σ));
         heap := heap σ;
         history := history σ ++ [Freed (plate_name name) dim] |}.
Proof.
  intros Hp Hd Hl Hstack Hpre Hpost. unfold IndepMessenger.__exit__.
  rewrite (bind_Return _ _ _ _ _ (plate_fields_Some _ _ _ _ _ _ Hp)).
  rewrite (bind_Return _ _ _ _ _ (free_held _ _ _ Hd Hl)).
  by rewrite (messenger_exit _ p exc pre post).
Qed.

Lemma dict_remove_last {V} (d : list (string * V)) k v :
  k ∉ d.*1 → dict_remove k (d ++ [(k, v)]) = d.
Proof.
  intros Hk. unfold dict_remove. rewrite filter_app.
  rewrite filter_cons, filter_nil. simpl.
  destruct (decide (k ≠ k)); [done|]. rewrite app_nil_r.
  induction d as [|[k' v'] d IH]; [done|].
  rewrite fmap_cons, not_elem_of_cons in Hk. destruct Hk as [Hne Hk].
  rewrite filter_cons. simpl.
  destruct (decide (k' ≠ k)) as [|Hnn]; [by rewrite IH|].
  exfalso. apply Hnn. intros Heq. apply Hne. simpl. by rewrite Heq.
Qed.

Lemma released_snoc od plates n (p : ref) :
  released od (plates ++ [(n, p)])
  = Freed (plate_name n) (od - Z.of_nat (length plates))
      :: released od plates.
Proof.
  unfold released. rewrite imap_app. simpl.
  rewrite reverse_app. simpl. by rewrite Nat.add_0_r.
Qed.

Lemma wf_plate_ref σ self c od fad plates below above i name p :
  allocator_wf σ self c od fad plates below above →
  plates !! i = Some (name, p) →
  p ≠ self ∧ (p ∉ below) ∧ (p < length (heap σ))%nat.
Proof.
  intros Hwf Hi.
  assert (Hp : p ∈ plates.*2).
  { apply list_elem_of_fmap. exists (name, p). split; [done|].
    by eapply list_elem_of_lookup_2. }
  pose proof (wf_nodup _ _ _ _ _ _ _ _ Hwf) as Hnd.
  rewrite (wf_stack _ _ _ _ _ _ _ _ Hwf) in Hnd.
  apply NoDup_app in Hnd as (_ & Hdisj & Hnd).
  apply NoDup_cons in Hnd as [Hs _].
  split_and!.
  - intros ->. apply Hs. rewrite elem_of_app. by left.
  - intros Hb. apply (Hdisj p Hb). right. rewrite elem_of_app. by left.
  - apply (wf_valid _ _ _ _ _ _ _ _ Hwf).
    rewrite (wf_stack _ _ _ _ _ _ _ _ Hwf).
    rewrite elem_of_app, elem_of_cons, elem_of_app. tauto.
Qed.

(** One step of the loop of [__exit__]: the plate created last leaves. *)
Lemma exit_step σ self c od fad plates n p below above exc :
  allocator_wf σ self c od fad (plates ++ [(n, p)]) below above →
  (exc = None → above = []) →
  let σ1 :=
    {| _PYRO_STACK := below ++ self :: plates.*2;
       _DIM_ALLOCATOR :=
         _DimAllocator.pop_trailing_none
           (<[axis_index (od - Z.of_nat (length plates)) := None]>
              (_DIM_ALLOCATOR σ));
       heap := <[self := allocator_obj c od fad plates]> (heap σ);
       history :=
         history σ
         ++ [Freed (plate_name n) (od - Z.of_nat (length plates))] |} in
  (plate ← IndexPlatesMessenger.plates_pop self n;
   IndepMessenger.__exit__ plate exc) σ = Return tt σ1
  ∧ allocator_wf σ1 self c od fad plates below [].
Proof.
  intros Hwf Habove σ1.
  destruct Hwf as [Hself Hneg Hstack Hnodup Hvalid Hnames Hplates].
  assert (Hlast : (plates ++ [(n, p)]) !! length plates = Some (n, p)).
  { by rewrite lookup_app_r, Nat.sub_diag by lia. }
  destruct (Hplates _ _ _ Hlast) as [[size Hp] Hdim].
  rewrite fmap_app in Hnames. apply NoDup_app in Hnames as (Hnames & Hn & _).
  assert (Hn' : n ∉ plates.*1).
  { intros Hin. apply (Hn n Hin). simpl. left. }
  assert (Hself_lt : (self < length (heap σ))%nat)
    by (by apply lookup_lt_Some in Hself).
  rewrite fmap_app in Hstack. simpl in Hstack.
  assert (Hstack' : _PYRO_STACK σ = (below ++ self :: plates.*2) ++ p :: above).
  { rewrite Hstack, <- !app_assoc. done. }
  pose proof Hnodup as Hnodup'. rewrite Hstack' in Hnodup'.
  apply NoDup_app in Hnodup' as (Hnd1 & Hdisj & Hnd2).
  assert (Hp_pre : p ∉ below ++ self :: plates.*2).
  { intros Hin. apply (Hdisj p Hin). left. }
  assert (Hp_self : p ≠ self).
  { intros ->. apply Hp_pre. rewrite elem_of_app. right. left. }
  split.
  - unfold IndexPlatesMessenger.plates_pop.
    unfold mbind at 1, M_bind at 1.
    rewrite (bind_Return _ _ _ _ _
               (index_plates_fields_Some _ _ _ _ _ _ Hself)).
    cbn beta iota. rewrite dict_get_app_new by (by apply dict_get_None).
    rewrite dict_remove_last by done.
    erewrite bind_Return; last by (apply set_fields_Some; exact Hself).
    unfold mret at 1, M_ret at 1.
    subst σ1.
    erewrite plate_exit with (name := n) (size := size) (post := above)
      (pre := below ++ self :: plates.*2)
      (dim := od - Z.of_nat (length plates)); simpl; try done.
    + by rewrite list_lookup_insert_ne.
    + lia.
  - split; simpl.
    + by rewrite list_lookup_insert_eq.
    + done.
    + by rewrite app_nil_r.
    + done.
    + intros r Hr. rewrite length_insert. apply Hvalid.
      rewrite Hstack'. rewrite elem_of_app. by left.
    + done.
    + intros i name q Hi.
      assert (Hilt : (i < length plates)%nat) by (by apply lookup_lt_Some in Hi).
      assert (Hi' : (plates ++ [(n, p)]) !! i = Some (name, q))
        by (by apply lookup_app_l_Some).
      destruct (Hplates _ _ _ Hi') as [[sz Hq] Hd].
      assert (Hq_self : q ≠ self).
      { intros ->. apply NoDup_app in Hnd1 as (_ & _ & Hnd1).
        apply NoDup_cons in Hnd1 as [Hs _]. apply Hs.
        apply list_elem_of_fmap. exists (name, self). split; [done|].
        by eapply list_elem_of_lookup_2. }
      split.
      * exists sz. by rewrite list_lookup_insert_ne.
      * apply pop_trailing_none_lookup.
        rewrite list_lookup_insert_ne; [done|].
        intros Heq. apply axis_index_inj in Heq; [lia|done].
Qed.

Lemma axis_owner_after_free σ1 σ idx d :
  _DIM_ALLOCATOR σ1
  = _DimAllocator.pop_trailing_none (<[idx := None]> (_DIM_ALLOCATOR σ)) →
  axis_index d = idx ∨ axis_owner σ d = None →
  axis_owner σ1 d = None.
Proof.
  intros Hd H. unfold axis_owner. rewrite Hd, pop_trailing_none_owner.
  destruct (decide (axis_index d = idx)) as [<-|Hne].
  - destruct (decide (axis_index d < length (_DIM_ALLOCATOR σ))%nat).
    + by rewrite list_lookup_insert_eq.
    + rewrite list_insert_ge by lia.
      by rewrite lookup_ge_None_2 by lia.
  - rewrite list_lookup_insert_ne by done.
    destruct H as [?|H]; [done|]. exact H.
Qed.

(** The loop of [__exit__]. *)
Lemma exit_loop self c od fad below exc :
  ∀ plates σ above,
  allocator_wf σ self c od fad plates below above →
  (exc = None → above = []) →
  ∃ σ' above',
    for_each (reverse plates.*1)
      (λ name, plate ← IndexPlatesMessenger.plates_pop self name;
               IndepMessenger.__exit__ plate exc) σ
    = Return tt σ'
    ∧ allocator_wf σ' self c od fad [] below above'
    ∧ (exc = None → above' = [])
    ∧ history σ' = history σ ++ released od plates
    ∧ (∀ d, axis_owner σ d = None → axis_owner σ' d = None)
    ∧ (∀ i, (i < length plates)%nat →
            axis_owner σ' (od - Z.of_nat i) = None).
Proof.
  induction plates as [|[n p] plates IH] using rev_ind;
    intros σ above Hwf Habove.
  - exists σ, above. simpl. unfold released. simpl. rewrite app_nil_r.
    split_and!; try done. intros i Hi. lia.
  - rewrite fmap_app, reverse_app. simpl.
    destruct (exit_step σ self c od fad plates n p below above exc
                Hwf Habove) as [Hstep Hwf1].
    rewrite (bind_Return _ _ _ _ _ Hstep).
    match type of Hwf1 with
    | allocator_wf ?s _ _ _ _ _ _ _ => set (σ1 := s) in *
    end.
    destruct (IH σ1 [] Hwf1 (λ _, eq_refl))
      as (σ' & above' & Hrun & Hwf' & Habove' & Hhist & Hkeep & Hfreed).
    exists σ', above'. split_and!; try done.
    + rewrite Hhist. simpl. rewrite released_snoc.
      by rewrite <- app_assoc.
    + intros d Hd. apply Hkeep.
      apply (axis_owner_after_free σ1 σ _ d eq_refl). by right.
    + intros i Hi. rewrite length_app in Hi. simpl in Hi.
      destruct (decide (i = length plates)) as [->|Hne].
      * apply Hkeep.
        apply (axis_owner_after_free σ1 σ _ _ eq_refl). by left.
      * apply Hfreed. lia.
Qed.

(** [__exit__] from the state of an active allocator. *)
Lemma exit_from_inv
    σ self c od plates below above exc :
  allocator_inv σ self c od plates below above →
  (exc = None → above = []) →
  ∃ σ',
    IndexPlatesMessenger.__exit__ self exc σ = Return tt σ'
    ∧ history σ' = history σ ++ released od plates
    ∧ registry σ' self = Some []
    ∧ cursor σ' self = Some od
    ∧ orig_dim σ' self = Some od
    ∧ _PYRO_STACK σ' = below
    ∧ ∀ i, (i < length plates)%nat →
           axis_owner σ' (od - Z.of_nat i) = None.
Proof.
  intros Hinv Habove.
  destruct (exit_loop self c od _ below exc plates σ above Hinv Habove)
    as (σ1 & above' & Hrun & Hwf & Habove' & Hhist & _ & Hfreed).
  destruct Hwf as [Hself Hneg Hstack Hnodup Hvalid _ _].
  simpl in Hstack.
  assert (Hbelow : self ∉ below).
  { rewrite Hstack in Hnodup. apply NoDup_app in Hnodup as (_ & Hd & _).
    intros Hin. apply (Hd self Hin). left. }
  eexists. split.
  - unfold IndexPlatesMessenger.__exit__.
    rewrite (bind_Return _ _ _ _ _
               (index_plates_fields_Some _ _ _ _ _ _
                  (inv_self _ _ _ _ _ _ _ Hinv))).
    cbn beta iota. rewrite (bind_Return _ _ _ _ _ Hrun).
    rewrite (bind_Return _ _ _ _ _
               (index_plates_fields_Some _ _ _ _ _ _ Hself)).
    cbn beta iota.
    erewrite bind_Return; last by (apply set_fields_Some; exact Hself).
    apply messenger_exit with (post := above'); simpl; done.
  - simpl. unfold registry, cursor, orig_dim. simpl.
    assert (Hlt : (self < length (heap σ1))%nat)
      by (by apply lookup_lt_Some in Hself).
    rewrite list_lookup_insert_eq by done. simpl.
    by split_and!.
Qed.

(** C5.  Leaving the scope of an allocator, with or without an exception
    on its way out ([exc]), releases the plates in the reverse of the
    order of their creation (the axis history grows by [released od
    plates]), leaves the registry empty and the cursor at the original
    dimension, frees the axes the plates held and takes the allocator and
    its plates off the handler stack.  On a normal exit the handlers
    installed after the allocator have left already. *)
Theorem exit_releases_plates_in_reverse_order
    σ self c od plates below above exc :
  allocator_inv σ self c od plates below above →
  (exc = None → above = []) →
  ∃ σ',
    IndexPlatesMessenger.__exit__ self exc σ = Return tt σ'
    ∧ history σ' = history σ ++ released od plates
    ∧ registry σ' self = Some []
    ∧ cursor σ' self = Some od
    ∧ orig_dim σ' self = Some od
    ∧ _PYRO_STACK σ' = below
    ∧ ∀ i, (i < length plates)%nat →
           axis_owner σ' (od - Z.of_nat i) = None.
Proof. apply exit_from_inv. Qed.

(** ** Entering the scope of an allocator *)

(** What [__enter__] does, case by case. *)
Lemma enter_cases σ self c od fad plates :
  heap σ !! self = Some (allocator_obj c od fad plates) →
  IndexPlatesMessenger.__enter__ self σ
  = if bool_decide (plates = []) && bool_decide (fad = od)
    then if bool_decide (self ∈ _PYRO_STACK σ)
         then Raise (ValueError "cannot install a Messenger instance twice") σ
         else Return self
                {| _PYRO_STACK := _PYRO_STACK σ ++ [self];
                   _DIM_ALLOCATOR := _DIM_ALLOCATOR σ;
                   heap := heap σ; history := history σ |}
    else Raise (AssertionError "") σ.
Proof.
  intros Hself. unfold IndexPlatesMessenger.__enter__.
  rewrite (bind_Return _ _ _ _ _
             (index_plates_fields_Some _ _ _ _ _ _ Hself)).
  cbn beta iota. unfold assert.
  destruct (bool_decide (plates = [])); [|done].
  destruct (bool_decide (fad = od)); [|done]. simpl.
  unfold Messenger.__enter__, mbind, M_bind, mret, M_ret, get_stack. simpl.
  destruct (decide (self ∈ _PYRO_STACK σ)) as [Hin|Hin].
  - by rewrite bool_decide_eq_true_2.
  - by rewrite bool_decide_eq_false_2.
Qed.

(** Entering a fresh allocator that is not active makes it active. *)
Lemma enter_fresh_inv σ self c od :
  heap σ !! self = Some (allocator_obj c od od []) →
  od < 0 →
  self ∉ _PYRO_STACK σ →
  NoDup (_PYRO_STACK σ) →
  (∀ r, r ∈ _PYRO_STACK σ → (r < length (heap σ))%nat) →
  ∃ σ', IndexPlatesMessenger.__enter__ self σ = Return self σ'
        ∧ allocator_inv σ' self c od [] (_PYRO_STACK σ) [].
Proof.
  intros Hself Hneg Hnew Hnd Hvalid.
  rewrite (enter_cases _ _ _ _ _ _ Hself).
  rewrite !bool_decide_eq_true_2 by done.
  rewrite bool_decide_eq_false_2 by done. simpl.
  eexists. split; [done|]. split; simpl.
  - by replace (od - Z.of_nat 0) with od by lia.
  - done.
  - done.
  - apply NoDup_app. split_and!; [done| |apply NoDup_singleton].
    intros x Hx ->%list_elem_of_singleton. done.
  - intros r [Hr| ->%list_elem_of_singleton]%elem_of_app; [by apply Hvalid|].
    by apply lookup_lt_Some in Hself.
  - apply NoDup_nil_2.
  - intros i ?? [=].
Qed.

(** C7, as the code has it.  [__enter__] returns only for an allocator
    that has no plates, whose cursor is at the original dimension, and
    that is not on the handler stack already.  For an allocator that is
    on the stack it always fails and changes nothing: with an
    [AssertionError] when it holds a plate or its cursor has moved, and
    otherwise with the [ValueError] of [Messenger.__enter__]. *)
Theorem enter_only_when_fresh σ self c od fad plates :
  heap σ !! self = Some (allocator_obj c od fad plates) →
  (∀ r σ', IndexPlatesMessenger.__enter__ self σ = Return r σ' →
           plates = [] ∧ fad = od ∧ self ∉ _PYRO_STACK σ)
  ∧ (self ∈ _PYRO_STACK σ →
     (plates ≠ [] ∨ fad ≠ od →
      IndexPlatesMessenger.__enter__ self σ = Raise (AssertionError "") σ)
     ∧ (plates = [] ∧ fad = od →
        IndexPlatesMessenger.__enter__ self σ
        = Raise (ValueError "cannot install a Messenger instance twice") σ)).
Proof.
  intros Hself. rewrite (enter_cases _ _ _ _ _ _ Hself).
  split; [|intros Hactive; split].
  - intros r σ' H.
    destruct (bool_decide_reflect (plates = [])); [|done].
    destruct (bool_decide_reflect (fad = od)); [|done]. simpl in H.
    destruct (bool_decide_reflect (self ∈ _PYRO_STACK σ)); done.
  - intros [Hp|Hc].
    + by rewrite (bool_decide_eq_false_2 (plates = [])).
    + rewrite (bool_decide_eq_false_2 (fad = od)) by done.
      by rewrite andb_false_r.
  - intros [-> ->]. rewrite !bool_decide_eq_true_2 by done. done.
Qed.

(** C7, as it is stated, fails: an active allocator that has not
    registered a plate yet passes both assertions of [__enter__]; entering
    it again fails in [Messenger.__enter__], with a [ValueError]. *)
Lemma reentry_without_plates_is_not_an_assertion :
  (0%nat ∈ _PYRO_STACK mwc_active)
  ∧ IndexPlatesMessenger.__enter__ 0%nat mwc_active
    = Raise (ValueError "cannot install a Messenger instance twice")
        mwc_active
  ∧ is_AssertionError
      (ValueError "cannot install a Messenger instance twice") = false.
Proof. split; [left|]. split; reflexivity. Qed.

Lemma enter_only_when_fresh_witness :
  IndexPlatesMessenger.__enter__ 0%nat mwc_with_X
  = Raise (AssertionError "") mwc_with_X.
Proof.
  apply (enter_only_when_fresh mwc_with_X 0%nat MultiWorldCounterfactual
           (-5) (-6) [("X", 1%nat)]).
  - reflexivity.
  - simpl. left.
  - left. done.
Defined.

(** ** Messages on the handler stack *)

Lemma walk_down_passes own σ m pre frames post k :
  _PYRO_STACK σ = pre ++ frames ++ post →
  Forall (passes own σ m) frames →
  msg.stop m = false →
  walk_down own (length pre + length frames) k m σ
  = walk_down own (length pre) (k + length frames) m σ.
Proof.
  revert post k. induction frames as [|x frames IH] using rev_ind;
    intros post k Hstack Hpass Hstop.
  - simpl. by rewrite !Nat.add_0_r.
  - apply Forall_app in Hpass as [Hpass Hx].
    apply (proj1 (Forall_singleton _ _)) in Hx.
    rewrite length_app. simpl.
    replace (length pre + (length frames + 1))%nat
      with (S (length pre + length frames)) by lia.
    cbn [walk_down]. unfold mbind at 1, M_bind at 1, get_stack at 1.
    assert (Hlook : _PYRO_STACK σ !! (length pre + length frames)%nat
                    = Some x).
    { rewrite Hstack.
      replace (pre ++ (frames ++ [x]) ++ post)
        with ((pre ++ frames) ++ x :: post) by (by rewrite <- !app_assoc).
      apply list_lookup_middle. by rewrite length_app. }
    rewrite Hlook. rewrite (bind_Return _ _ _ _ _ Hx). rewrite Hstop.
    rewrite (IH (x :: post) (S k)); [|by rewrite Hstack, <- app_assoc|done..].
    f_equal. lia.
Qed.

(** While the frames above a handler let the message pass, the message
    reaches the handler, and the handlers below it see the message only
    when the handler does not stop it. *)
Lemma walk_down_reaches own σ m below self above m' σ' :
  _PYRO_STACK σ = below ++ self :: above →
  Forall (passes own σ m) above →
  msg.stop m = false →
  _process_message own self m σ = Return m' σ' →
  msg.stop m' = true →
  walk_down own (length (_PYRO_STACK σ)) 0 m σ
  = Return (S (length above), m') σ'.
Proof.
  intros Hstack Hpass Hstop Hself Hstop'.
  rewrite Hstack at 1. rewrite length_app. simpl.
  replace (length below + S (length above))%nat
    with (length (below ++ [self]) + length above)%nat
    by (rewrite length_app; simpl; lia).
  rewrite (walk_down_passes own σ m (below ++ [self]) above [] 0);
    [|by rewrite Hstack, app_nil_r, <- app_assoc|done..].
  rewrite length_app. simpl.
  replace (length below + 1)%nat with (S (length below)) by lia.
  cbn [walk_down]. unfold mbind at 1, M_bind at 1, get_stack at 1.
  rewrite Hstack. rewrite list_lookup_middle by done.
  rewrite (bind_Return _ _ _ _ _ Hself). by rewrite Hstop'.
Qed.

Lemma process_message_plate own σ m r name dim size :
  heap σ !! r = Some (plate_obj name dim size) → passes own σ m r.
Proof.
  intros Hr. unfold passes, _process_message.
  by rewrite (bind_Return _ _ _ _ _ (deref_Some _ _ _ Hr)).
Qed.

Lemma inv_plates_pass own σ m self c od plates below above :
  allocator_inv σ self c od plates below above →
  Forall (passes own σ m) plates.*2.
Proof.
  intros Hinv. apply Forall_forall. intros r Hr.
  apply list_elem_of_fmap in Hr as ([n p] & -> & Hin).
  apply list_elem_of_lookup_1 in Hin as [i Hi].
  destruct (inv_plates _ _ _ _ _ _ _ Hinv i n p Hi) as [[size Hp] _].
  by eapply process_message_plate.
Qed.

(** No class has a hook that runs on the way up for a message that is not
    an [intervene] message. *)
Lemma no_post_hook c type :
  type ≠ "intervene" →
  class_getattr hooks c ("_pyro_post_" +:+ type) = None.
Proof.
  intros Hne.
  assert (H1 : ∀ c', own_hooks c' ("_pyro_post_" +:+ type) = None).
  { intros c'.
    destruct c'; simpl; try done;
      repeat (destruct (decide _) as [Heq|]; [by simplify_eq|]); done. }
  assert (H2 : ∀ c', hooks c' ("_pyro_post_" +:+ type) = None).
  { intros c'. unfold hooks. rewrite H1.
    destruct (decide _) as [Heq|]; [|done].
    exfalso. apply Hne.
    by apply (inj (String.append "_pyro_post_")) in Heq. }
  unfold class_getattr.
  induction (mro c) as [|c' l IH]; [done|]. simpl. by rewrite H2.
Qed.

Lemma walk_up_no_hook frames type m σ :
  msg.type m = type →
  type ≠ "intervene" →
  (∀ r, r ∈ frames → (r < length (heap σ))%nat) →
  walk_up hooks frames m σ = Return m σ.
Proof.
  intros Htype Hne. induction frames as [|r frames IH]; intros Hvalid.
  - done.
  - cbn [walk_up].
    destruct (lookup_lt_is_Some_2 (heap σ) r) as [o Ho];
      [apply Hvalid; left|].
    assert (Hpost : _postprocess_message hooks r m σ = Return m σ).
    { unfold _postprocess_message.
      rewrite (bind_Return _ _ _ _ _ (deref_Some _ _ _ Ho)).
      by rewrite Htype, no_post_hook. }
    rewrite (bind_Return _ _ _ _ _ Hpost).
    apply IH. intros r' Hr'. apply Hvalid. by right.
Qed.

(** ** The query for the current plates *)

Lemma frames_of_mapM σ plates frames :
  mapM (λ item : string * ref,
          f ← frame_of_plate σ item.2; Some (item.1, f)) plates
  = Some frames →
  IndexPlatesMessenger.frames_of plates σ = Return frames σ.
Proof.
  revert frames. induction plates as [|[n p] plates IH]; intros frames H.
  - by injection H as <-.
  - cbn [mapM] in H. simpl in H.
    unfold frame_of_plate in H.
    destruct (heap σ !! p) as [[pc [| pn d s |]]|] eqn:Hp;
      simpl in H; try done.
    destruct (mapM _ plates) as [fs|] eqn:Hfs; simpl in H; [|done].
    injection H as <-.
    cbn [IndexPlatesMessenger.frames_of].
    unfold _LazyPlateMessenger.frame.
    erewrite bind_Return; last first.
    { erewrite bind_Return;
        last by (eapply plate_fields_Some; exact Hp).
      reflexivity. }
    by rewrite (bind_Return _ _ _ _ _ (IH fs eq_refl)).
Qed.

Lemma inv_registry_frames σ self c od plates below above :
  allocator_inv σ self c od plates below above →
  ∃ frames,
    registry_frames σ self = Some frames
    ∧ length frames = length plates
    ∧ ∀ i n p,
        plates !! i = Some (n, p) →
        ∃ size,
          plate_size σ self n = Some size
          ∧ frames !! i
            = Some (n, {| frame_name := plate_name n;
                          frame_dim := od - Z.of_nat i;
                          frame_size := size; frame_counter := 0 |}).
Proof.
  intros Hinv. unfold registry_frames.
  rewrite (registry_inv _ _ _ _ _ _ _ Hinv). simpl.
  set (f := λ item : string * ref,
              f ← frame_of_plate σ item.2; Some (item.1, f)).
  assert (Hall : Forall (λ item, is_Some (f item)) plates).
  { apply Forall_forall. intros [n p] Hin.
    apply list_elem_of_lookup_1 in Hin as [i Hi].
    destruct (inv_plates _ _ _ _ _ _ _ Hinv i n p Hi) as [[size Hp] _].
    unfold f, frame_of_plate. simpl. rewrite Hp. simpl. eauto. }
  apply mapM_is_Some in Hall as [frames Hframes].
  exists frames. split; [done|].
  pose proof Hframes as H2. apply mapM_Some in H2.
  split; [symmetry; by eapply Forall2_length|].
  intros i n p Hi.
  destruct (plate_of_inv _ _ _ _ _ _ _ _ _ _ Hinv Hi) as (size & Hp & Hpo).
  exists size. split.
  - unfold plate_size. by rewrite Hpo.
  - destruct (Forall2_lookup_l _ _ _ _ _ H2 Hi) as (y & Hy & Hf).
    rewrite Hy. unfold f, frame_of_plate in Hf. simpl in Hf.
    rewrite Hp in Hf. simpl in Hf. by injection Hf as <-.
Qed.

Lemma mro_MultiWorldCounterfactual :
  mro MultiWorldCounterfactual
  = [MultiWorldCounterfactual; IndexPlatesMessenger; BaseCounterfactual;
     AmbiguousConditioningReparamMessenger; ReparamMessenger; Messenger;
     object].
Proof. reflexivity. Qed.

Lemma mro_TwinWorldCounterfactual :
  mro TwinWorldCounterfactual
  = [TwinWorldCounterfactual; IndexPlatesMessenger; BaseCounterfactual;
     AmbiguousConditioningReparamMessenger; ReparamMessenger; Messenger;
     object].
Proof. reflexivity. Qed.

(** C8.  A [get_index_plates] message that reaches an active
    [MultiWorldCounterfactual] or [TwinWorldCounterfactual] handler is
    answered by the hook of [IndexPlatesMessenger], which comes before
    [BaseCounterfactual] in the method resolution order: the value is the
    registry of the handler as a mapping from names to frames, and the
    message is marked done and stopped.  The walk down the stack ends at
    the handler (it has visited the handler, its plates and the handlers
    above, and none below), and [apply_stack] returns that answer. *)
Theorem get_index_plates_answered_by_allocator
    σ self c od plates below above m :
  allocator_inv σ self c od plates below above →
  c = MultiWorldCounterfactual ∨ c = TwinWorldCounterfactual →
  msg.type m = "get_index_plates" →
  msg.stop m = false →
  Forall (passes hooks σ m) above →
  class_getattr hooks c "_pyro_get_index_plates"
  = Some IndexPlatesMessenger._pyro_get_index_plates
  ∧ ∃ frames,
      registry_frames σ self = Some frames
      ∧ length frames = length plates
      ∧ (∀ i n p,
           plates !! i = Some (n, p) →
           ∃ size,
             plate_size σ self n = Some size
             ∧ frames !! i
               = Some (n, {| frame_name := plate_name n;
                             frame_dim := od - Z.of_nat i;
                             frame_size := size; frame_counter := 0 |}))
      ∧ let answer :=
          msg.set_stop true
            (msg.set_done true (msg.set_value (VFrames frames) m)) in
        _process_message hooks self m σ = Return answer σ
        ∧ walk_down hooks (length (_PYRO_STACK σ)) 0 m σ
          = Return (S (length plates + length above), answer) σ
        ∧ apply_stack hooks m σ = Return answer σ.
Proof.
  intros Hinv Hc Htype Hstop Habove.
  split; [by destruct Hc as [->| ->]|].
  destruct (inv_registry_frames _ _ _ _ _ _ _ Hinv)
    as (frames & Hframes & Hlen & Hdesc).
  exists frames. split_and!; [done..|].
  intros answer.
  assert (Hproc : _process_message hooks self m σ = Return answer σ).
  { unfold _process_message.
    rewrite (bind_Return _ _ _ _ _
               (deref_Some _ _ _ (inv_self _ _ _ _ _ _ _ Hinv))).
    rewrite Htype.
    assert (Hhook : class_getattr hooks c ("_pyro_" +:+ "get_index_plates")
                    = Some IndexPlatesMessenger._pyro_get_index_plates)
      by (by destruct Hc as [->| ->]).
    assert (Hnot : bool_decide (IndepMessenger ∈ mro c) = false)
      by (by destruct Hc as [->| ->]).
    cbn [class_of allocator_obj]. rewrite Hnot, Hhook.
    unfold IndexPlatesMessenger._pyro_get_index_plates.
    rewrite (bind_Return _ _ _ _ _
               (index_plates_fields_Some _ _ _ _ _ _
                  (inv_self _ _ _ _ _ _ _ Hinv))).
    cbn beta iota.
    unfold registry_frames in Hframes.
    rewrite (registry_inv _ _ _ _ _ _ _ Hinv) in Hframes. simpl in Hframes.
    by rewrite (bind_Return _ _ _ _ _ (frames_of_mapM _ _ _ Hframes)). }
  assert (Hwalk : walk_down hooks (length (_PYRO_STACK σ)) 0 m σ
                  = Return (S (length plates + length above), answer) σ).
  { rewrite (walk_down_reaches hooks σ m below self (plates.*2 ++ above)
               answer σ).
    - by rewrite length_app, length_fmap.
    - apply (inv_stack _ _ _ _ _ _ _ Hinv).
    - apply Forall_app. split; [|done].
      by eapply inv_plates_pass.
    - done.
    - done.
    - done. }
  split_and!; [done..|].
  unfold apply_stack.
  unfold mbind at 1, M_bind at 1, get_stack at 1.
  rewrite (bind_Return _ _ _ _ _ Hwalk).
  cbn beta iota.
  unfold default_process_message. cbn [msg.done answer msg.set_stop orb].
  unfold mbind at 1, M_bind at 1, mret at 1, M_ret at 1.
  unfold mbind at 1, M_bind at 1, get_stack at 1.
  apply walk_up_no_hook with (type := "get_index_plates"); [done..|].
  intros r Hr. apply (inv_valid _ _ _ _ _ _ _ Hinv).
  unfold last_frames in Hr. by apply subseteq_drop in Hr.
Qed.

(** ** Bystanders *)

Lemma bystander_class_no_hook c attr :
  bystander_class c = true →
  class_getattr hooks c attr = None ∧ class_getattr own_hooks c attr = None.
Proof.
  intros Hc. unfold class_getattr, hooks.
  destruct c; try done; cbn; by destruct (decide _).
Qed.

Lemma bystander_passes σ m r :
  bystander σ r → passes hooks σ m r ∧ passes own_hooks σ m r.
Proof.
  intros (o & Ho & Hc). unfold passes, _process_message.
  rewrite !(bind_Return _ _ _ _ _ (deref_Some _ _ _ Ho)).
  destruct (bystander_class_no_hook _ ("_pyro_" +:+ msg.type m) Hc)
    as [-> ->].
  by destruct (bool_decide _).
Qed.

Lemma bystander_postprocess σ m r :
  bystander σ r →
  _postprocess_message hooks r m σ = Return m σ
  ∧ _postprocess_message own_hooks r m σ = Return m σ.
Proof.
  intros (o & Ho & Hc). unfold _postprocess_message.
  rewrite !(bind_Return _ _ _ _ _ (deref_Some _ _ _ Ho)).
  by destruct (bystander_class_no_hook _ ("_pyro_post_" +:+ msg.type m) Hc)
    as [-> ->].
Qed.

Lemma bystander_same_classes σ σ' r :
  same_classes σ σ' → bystander σ r → bystander σ' r.
Proof.
  intros Hsame (o & Ho & Hc). destruct (Hsame r o Ho) as (o' & Ho' & Hcl).
  exists o'. split; [done|]. by rewrite Hcl.
Qed.

Lemma plate_bystander σ p name dim size :
  heap σ !! p = Some (plate_obj name dim size) → bystander σ p.
Proof. intros Hp. by exists (plate_obj name dim size). Qed.

Lemma same_classes_refl σ : same_classes σ σ.
Proof. intros r o Ho. by exists o. Qed.

Lemma same_classes_trans σ1 σ2 σ3 :
  same_classes σ1 σ2 → same_classes σ2 σ3 → same_classes σ1 σ3.
Proof.
  intros H12 H23 r o Ho. destruct (H12 r o Ho) as (o2 & Ho2 & Hc2).
  destruct (H23 r o2 Ho2) as (o3 & Ho3 & Hc3).
  exists o3. split; [done|]. congruence.
Qed.

(** An allocator changes the attributes of no object but itself, and
    keeps its class. *)
Lemma frame_same_classes σ σ' self c od fad plates fad' plates' :
  heap σ !! self = Some (allocator_obj c od fad plates) →
  heap σ' !! self = Some (allocator_obj c od fad' plates') →
  (∀ q o, q ≠ self → heap σ !! q = Some o → heap σ' !! q = Some o) →
  same_classes σ σ'.
Proof.
  intros Hs Hs' Hframe r o Ho.
  destruct (decide (r = self)) as [->|Hne].
  - rewrite Hs in Ho. injection Ho as <-. by eexists.
  - exists o. split; [by apply Hframe|done].
Qed.

Lemma walk_up_bystanders frames m σ :
  Forall (bystander σ) frames →
  walk_up hooks frames m σ = Return m σ
  ∧ walk_up own_hooks frames m σ = Return m σ.
Proof.
  induction frames as [|r frames IH]; intros Hall; [done|].
  apply Forall_cons in Hall as [Hr Hall].
  destruct (bystander_postprocess σ m r Hr) as [H1 H2].
  destruct (IH Hall) as [IH1 IH2].
  cbn [walk_up].
  by rewrite (bind_Return _ _ _ _ _ H1), (bind_Return _ _ _ _ _ H2).
Qed.

(** No class has a hook that runs on the way up among the hooks that raise
    no further effect. *)
Lemma own_hooks_no_post c type :
  class_getattr own_hooks c ("_pyro_post_" +:+ type) = None.
Proof.
  assert (H1 : ∀ c', own_hooks c' ("_pyro_post_" +:+ type) = None).
  { intros c'.
    destruct c'; simpl; try done;
      repeat (destruct (decide _) as [Heq|]; [by simplify_eq|]); done. }
  unfold class_getattr.
  induction (mro c) as [|c' l IH]; [done|]. simpl. by rewrite H1.
Qed.

Lemma walk_up_own_hooks frames m σ :
  (∀ r, r ∈ frames → (r < length (heap σ))%nat) →
  walk_up own_hooks frames m σ = Return m σ.
Proof.
  induction frames as [|r frames IH]; intros Hvalid; [done|].
  cbn [walk_up].
  destruct (lookup_lt_is_Some_2 (heap σ) r) as [o Ho];
    [apply Hvalid; left|].
  assert (Hpost : _postprocess_message own_hooks r m σ = Return m σ).
  { unfold _postprocess_message.
    rewrite (bind_Return _ _ _ _ _ (deref_Some _ _ _ Ho)).
    by rewrite own_hooks_no_post. }
  rewrite (bind_Return _ _ _ _ _ Hpost).
  apply IH. intros r' Hr'. apply Hvalid. by right.
Qed.

(** ** [add_indices] on a stack with one allocator *)

Lemma allocator_class_hooks c :
  c = IndexPlatesMessenger ∨ c = MultiWorldCounterfactual
  ∨ c = TwinWorldCounterfactual →
  bool_decide (IndepMessenger ∈ mro c) = false
  ∧ class_getattr own_hooks c "_pyro_add_indices"
    = Some IndexPlatesMessenger._pyro_add_indices.
Proof. by intros [->|[->| ->]]. Qed.

(** The effect [add_indices] reaches the allocator [self], which runs the
    loop of [_pyro_add_indices]; every other handler on the stack is a
    bystander. *)
Lemma add_indices_dispatch
    σ σ' self c od plates plates' below above (indexset : IndexSet) :
  allocator_inv σ self c od plates below above →
  c = IndexPlatesMessenger ∨ c = MultiWorldCounterfactual
  ∨ c = TwinWorldCounterfactual →
  Forall (bystander σ) (below ++ above) →
  for_each indexset
    (λ '(name, indices), IndexPlatesMessenger.add_index self name indices) σ
  = Return tt σ' →
  allocator_inv σ' self c od plates' below above →
  same_classes σ σ' →
  add_indices indexset σ = Return (VIndexSet indexset) σ'.
Proof.
  intros Hinv Hc Hby Hloop Hinv' Hsame.
  destruct (allocator_class_hooks c Hc) as [Hnot Hhook].
  apply Forall_app in Hby as [Hbelow Habove].
  set (m := add_indices_msg indexset).
  pose proof (inv_stack _ _ _ _ _ _ _ Hinv) as Hstack.
  pose proof (inv_stack _ _ _ _ _ _ _ Hinv') as Hstack'.
  unfold add_indices, effectful.
  unfold mbind at 1, M_bind at 1, get_stack at 1.
  rewrite bool_decide_eq_false_2
    by (rewrite Hstack; by destruct below).
  fold (add_indices_msg indexset). fold m.
  (* the handlers above and the plates let the message pass *)
  assert (Hself : _process_message own_hooks self m σ = Return m σ').
  { unfold _process_message.
    rewrite (bind_Return _ _ _ _ _
               (deref_Some _ _ _ (inv_self _ _ _ _ _ _ _ Hinv))).
    cbn [class_of allocator_obj]. rewrite Hnot.
    change ("_pyro_" +:+ msg.type m) with "_pyro_add_indices".
    rewrite Hhook. unfold IndexPlatesMessenger._pyro_add_indices.
    cbn [msg.args m add_indices_msg].
    by rewrite (bind_Return _ _ _ _ _ Hloop). }
  assert (Hdown : walk_down own_hooks (length (_PYRO_STACK σ)) 0 m σ
                  = Return (length (_PYRO_STACK σ), m) σ').
  { rewrite Hstack at 1. rewrite length_app. cbn [length].
    replace (length below + S (length (plates.*2 ++ above)))%nat
      with (length (below ++ [self]) + length (plates.*2 ++ above))%nat
      by (rewrite !length_app; simpl; lia).
    rewrite (walk_down_passes own_hooks σ m (below ++ [self])
               (plates.*2 ++ above) [] 0); last first.
    { done. }
    { apply Forall_app. split.
      - by eapply inv_plates_pass.
      - eapply Forall_impl; [exact Habove|].
        intros r Hr. by apply bystander_passes. }
    { by rewrite Hstack, app_nil_r, <- app_assoc. }
    rewrite length_app. simpl.
    replace (length below + 1)%nat with (S (length below)) by lia.
    cbn [walk_down]. unfold mbind at 1, M_bind at 1, get_stack at 1.
    rewrite Hstack, list_lookup_middle by done.
    rewrite (bind_Return _ _ _ _ _ Hself).
    change (msg.stop m) with false. cbn iota.
    assert (Hpass : Forall (passes own_hooks σ' m) below).
    { eapply Forall_impl; [exact Hbelow|].
      intros r Hr. apply bystander_passes.
      by apply (bystander_same_classes σ σ'). }
    pose proof (walk_down_passes own_hooks σ' m [] below
                  (self :: plates'.*2 ++ above)
                  (S (0 + length (plates.*2 ++ above)))
                  Hstack' Hpass eq_refl) as Hw.
    cbn [length Nat.add app] in Hw. rewrite Hw.
    cbn [walk_down]. unfold mret, M_ret. do 2 f_equal.
    rewrite !length_app. simpl. rewrite length_app. lia. }
  unfold apply_stack.
  unfold mbind at 1, M_bind at 1.
  unfold mbind at 1, M_bind at 1, get_stack at 1.
  rewrite (bind_Return _ _ _ _ _ Hdown). cbn beta iota.
  unfold default_process_message. change (msg.done m) with false.
  change (msg.is_observed m) with false. cbn [orb].
  cbn [msg.fn m add_indices_msg msg.args].
  unfold mbind at 1, M_bind at 1, mret at 1, M_ret at 1.
  unfold mbind at 1, M_bind at 1, get_stack at 1.
  rewrite walk_up_own_hooks; [done|].
  intros r Hr. apply (inv_valid _ _ _ _ _ _ _ Hinv').
  unfold last_frames in Hr.
  destruct (length (_PYRO_STACK σ)); [done|].
  by apply subseteq_drop in Hr.
Qed.

(** ** Masks *)

Lemma selects_combine ρ old mask :
  selects ρ (combine_mask old mask) = selects ρ old && selects ρ mask.
Proof. by destruct old. Qed.

(** C9.  A [sample] message that passes through nested
    [DependentMaskMessenger] handlers, each of which computes a mask
    (the [i]-th handler computes [masks !! i]), ends with the masks
    combined by [&] onto the mask it came with, from the innermost handler
    outwards; a handler sets its own mask only when the message has none.
    So an element is selected at the end exactly when the mask the message
    came with and every computed mask select it. *)
Theorem sample_masks_compose_conjunctively
    get_sample_msg_device
    (handlers :
       list (ref * (ref → (list Value → Kwargs → exn + Value) → Value
                    → string → M Value)))
    (masks : list Value) m σ :
  Forall2 (λ h mask,
             h.2 h.1 (msg.fn m) (msg.value m)
               (get_sample_msg_device (msg.fn m) (msg.value m)) σ
             = Return mask σ)
    handlers masks →
  ∃ m',
    sample_through get_sample_msg_device handlers m σ = Return m' σ
    ∧ m' = msg.set_mask (foldl combine_mask (msg.mask m) masks) m
    ∧ ∀ ρ, selects ρ (msg.mask m')
           = selects ρ (msg.mask m) && forallb (selects ρ) masks.
Proof.
  intros Hall. revert m Hall.
  induction handlers as [|[self get_mask] handlers IH] in masks |- *;
    intros m Hall.
  - apply Forall2_nil_inv_l in Hall as ->. exists m. simpl.
    split_and!; [done|by destruct m|]. intros ρ. by rewrite andb_true_r.
  - apply Forall2_cons_inv_l in Hall as (mask & masks' & Hmask & Hall & ->).
    simpl in Hmask.
    set (m1 := msg.set_mask (combine_mask (msg.mask m) mask) m).
    assert (Hstep : DependentMaskMessenger._pyro_sample
                      get_sample_msg_device get_mask self m σ
                    = Return m1 σ).
    { unfold DependentMaskMessenger._pyro_sample.
      rewrite (bind_Return _ _ _ _ _ Hmask).
      unfold mret, M_ret, m1, combine_mask. do 2 f_equal.
      by destruct (msg.mask m). }
    destruct (IH masks' m1 Hall) as (m' & Hrun & Hm' & Hsel).
    exists m'. split_and!.
    + cbn [sample_through]. by rewrite (bind_Return _ _ _ _ _ Hstep).
    + rewrite Hm'. by destruct m.
    + intros ρ. rewrite Hsel. cbn [msg.mask m1 msg.set_mask forallb].
      rewrite selects_combine. by rewrite andb_assoc.
Qed.

Lemma sample_masks_compose_conjunctively_witness :
  ∃ m',
    sample_through (λ _ _, "cpu")
      [(0%nat, λ _ _ _ _, mret (VArray "a"));
       (1%nat, λ _ _ _ _, mret (VArray "b"))]
      sample_msg empty_runtime
    = Return m' empty_runtime
    ∧ m' = msg.set_mask
             (foldl combine_mask VNone [VArray "a"; VArray "b"])
             sample_msg
    ∧ ∀ ρ, selects ρ (msg.mask m')
           = selects ρ VNone && forallb (selects ρ) [VArray "a"; VArray "b"].
Proof.
  apply (sample_masks_compose_conjunctively (λ _ _, "cpu")
           [(0%nat, λ _ _ _ _, mret (VArray "a"));
            (1%nat, λ _ _ _ _, mret (VArray "b"))]
           [VArray "a"; VArray "b"] sample_msg empty_runtime).
  repeat constructor.
Defined.

(** ** [intervene] on the handler stack *)

Lemma counterfactual_class_intervene c :
  counterfactual_class c →
  bool_decide (IndepMessenger ∈ mro c) = false
  ∧ class_getattr hooks c "_pyro_intervene"
    = Some BaseCounterfactual._pyro_intervene.
Proof. by intros [->|[->|[->| ->]]]. Qed.

Lemma last_frames_top below (h : ref) above :
  last_frames (S (length above)) (below ++ h :: above) = h :: above.
Proof.
  unfold last_frames. rewrite length_app. simpl.
  replace (length below + S (length above) - S (length above))%nat
    with (length below) by lia.
  by rewrite drop_app_length.
Qed.

(** The way of an [intervene] message to the innermost counterfactual
    handler and back. *)
Lemma intervene_walk
    σ h o below above m :
  heap σ !! h = Some o →
  counterfactual_class (class_of o) →
  _PYRO_STACK σ = below ++ h :: above →
  msg.type m = "intervene" →
  msg.stop m = false →
  Forall (passes hooks σ m) above →
  _process_message hooks h m σ = Return (msg.set_stop true m) σ
  ∧ walk_down hooks (length (_PYRO_STACK σ)) 0 m σ
    = Return (S (length above), msg.set_stop true m) σ
  ∧ last_frames (S (length above)) (_PYRO_STACK σ) = h :: above
  ∧ apply_stack hooks m σ
    = (m' ← default_process_message (msg.set_stop true m);
       walk_up hooks (h :: above) m') σ.
Proof.
  intros Ho Hc Hstack Htype Hstop Habove.
  destruct (counterfactual_class_intervene _ Hc) as [Hnot Hhook].
  assert (Hproc : _process_message hooks h m σ
                  = Return (msg.set_stop true m) σ).
  { unfold _process_message.
    rewrite (bind_Return _ _ _ _ _ (deref_Some _ _ _ Ho)).
    rewrite Hnot, Htype.
    change ("_pyro_" +:+ "intervene") with "_pyro_intervene".
    by rewrite Hhook. }
  assert (Hwalk : walk_down hooks (length (_PYRO_STACK σ)) 0 m σ
                  = Return (S (length above), msg.set_stop true m) σ).
  { by apply (walk_down_reaches hooks σ m below h above). }
  split_and!; [done|done|by rewrite Hstack, last_frames_top|].
  unfold apply_stack.
  unfold mbind at 1, M_bind at 1, get_stack at 1.
  rewrite (bind_Return _ _ _ _ _ Hwalk). cbn beta iota.
  unfold default_process_message.
  destruct (msg.done (msg.set_stop true m)
            || msg.is_observed (msg.set_stop true m)).
  - unfold mbind at 1 3, M_bind at 1 3, mret at 1 2, M_ret at 1 2.
    unfold mbind at 1, M_bind at 1, get_stack at 1.
    by rewrite Hstack, last_frames_top.
  - destruct (msg.fn _ _ _) as [e|v].
    + done.
    + unfold mbind at 1 3, M_bind at 1 3, mret at 1 2, M_ret at 1 2.
      unfold mbind at 1, M_bind at 1, get_stack at 1.
      by rewrite Hstack, last_frames_top.
Qed.


(** ** Scattering an intervention *)

Lemma zero_one_nonempty : ({[0]} ∪ {[1]} : gset Z) ≠ ∅.
Proof. intros H. apply (f_equal elements) in H. by vm_compute in H. Qed.

Lemma zero_one_new_size : new_size ({[0]} ∪ {[1]}) = 2.
Proof. by vm_compute. Qed.

Lemma zero_one_in_range size :
  in_range ({[0]} ∪ {[1]}) size = bool_decide (1 < size).
Proof.
  unfold in_range.
  change (Py.min ({[0]} ∪ {[1]})) with (Some 0).
  change (Py.max ({[0]} ∪ {[1]})) with (Some 1).
  change (Py.len ({[0]} ∪ {[1]})) with 2.
  done.
Qed.

Lemma union_two_worlds (name : string) :
  union [IndexSet_of [(name, {[0]})]; IndexSet_of [(name, {[1]})]]
  = [(name, {[0]} ∪ {[1]})].
Proof.
  assert (H0 : IndexSet_of [(name, ({[0]} : gset Z))] = [(name, {[0]})]).
  { unfold IndexSet_of. rewrite filter_cons, filter_nil.
    destruct (decide _) as [|Hn]; [done|]. exfalso. apply Hn. simpl.
    intros H. apply (f_equal elements) in H. by vm_compute in H. }
  assert (H1 : IndexSet_of [(name, ({[1]} : gset Z))] = [(name, {[1]})]).
  { unfold IndexSet_of. rewrite filter_cons, filter_nil.
    destruct (decide _) as [|Hn]; [done|]. exfalso. apply Hn. simpl.
    intros H. apply (f_equal elements) in H. by vm_compute in H. }
  rewrite H0, H1. unfold union, union_item. simpl.
  destruct (decide (name = name)); [|done]. simpl.
  by destruct (decide (name = name)).
Qed.

(** [scatter] of the two branches of an intervention under a name that has
    no plate: the allocator registers a plate of size 2 at the cursor. *)
Lemma scatter_new_name σ self c od plates below above name obs act ed :
  allocator_inv σ self c od plates below above →
  c = IndexPlatesMessenger ∨ c = MultiWorldCounterfactual
  ∨ c = TwinWorldCounterfactual →
  Forall (bystander σ) (below ++ above) →
  name ∉ plates.*1 →
  axis_owner σ (od - Z.of_nat (length plates)) = None →
  Some (plate_name name) ∉ _DIM_ALLOCATOR σ →
  scatter [ (IndexSet_of [(name, {[0]})], obs);
            (IndexSet_of [(name, {[1]})], act) ] ed σ
  = Return (VScatter [ (IndexSet_of [(name, {[0]})], obs);
                       (IndexSet_of [(name, {[1]})], act) ] ed)
      (registered σ self c od (od - Z.of_nat (length plates)) plates below
         (plates.*2 ++ above) name 2).
Proof.
  intros Hinv Hc Hby Hnew Hfree Hname.
  apply dict_get_None in Hnew.
  pose proof (inv_neg _ _ _ _ _ _ _ Hinv) as Hod.
  set (fad := od - Z.of_nat (length plates)) in *.
  set (σ' := registered σ self c od fad plates below (plates.*2 ++ above)
               name 2).
  assert (Hstep : IndexPlatesMessenger.add_index self name ({[0]} ∪ {[1]}) σ
                  = Return tt σ').
  { rewrite (add_index_new σ self c od fad plates below (plates.*2 ++ above)
               name ({[0]} ∪ {[1]}) 1); try done.
    - apply (inv_self _ _ _ _ _ _ _ Hinv).
    - apply (inv_stack _ _ _ _ _ _ _ Hinv).
    - by eapply inv_self_not_below.
    - apply (inv_valid _ _ _ _ _ _ _ Hinv).
    - unfold fad. lia. }
  pose proof (registered_inv σ self c od plates below above name 2
                Hinv Hnew) as Hinv'.
  fold fad in Hinv'. fold σ' in Hinv'.
  assert (Hself_lt : (self < length (heap σ))%nat).
  { pose proof (inv_self _ _ _ _ _ _ _ Hinv) as H.
    by apply lookup_lt_Some in H. }
  assert (Hsame : same_classes σ σ').
  { eapply frame_same_classes.
    - apply (inv_self _ _ _ _ _ _ _ Hinv).
    - apply (inv_self _ _ _ _ _ _ _ Hinv').
    - intros q o Hq Ho. unfold σ'. rewrite registered_heap_frame; [done..|].
      by apply lookup_lt_Some in Ho. }
  unfold scatter. cbn [fmap list_fmap fst]. rewrite union_two_worlds.
  erewrite bind_Return; [reflexivity|].
  eapply add_indices_dispatch; try done.
  cbn [for_each]. by rewrite (bind_Return _ _ _ _ _ Hstep).
Qed.

(** [scatter] of the two branches of an intervention under a name that
    has a plate of size at least 2: the registry stays as it is. *)
Lemma scatter_existing_name
    σ self c od plates below above name obs act ed size :
  allocator_inv σ self c od plates below above →
  c = IndexPlatesMessenger ∨ c = MultiWorldCounterfactual
  ∨ c = TwinWorldCounterfactual →
  Forall (bystander σ) (below ++ above) →
  plate_size σ self name = Some size →
  1 < size →
  scatter [ (IndexSet_of [(name, {[0]})], obs);
            (IndexSet_of [(name, {[1]})], act) ] ed σ
  = Return (VScatter [ (IndexSet_of [(name, {[0]})], obs);
                       (IndexSet_of [(name, {[1]})], act) ] ed) σ.
Proof.
  intros Hinv Hc Hby Hsize Hlt.
  destruct (plate_size_Some _ _ _ _ Hsize)
    as (c' & od' & fad' & plates' & p & pc & pn & dim & Hself & Hget & Hp).
  assert (Hstep : IndexPlatesMessenger.add_index self name ({[0]} ∪ {[1]}) σ
                  = Return tt σ).
  { rewrite (add_index_existing σ self c' od' fad' plates' name _ p pc pn
               dim size Hself Hget Hp zero_one_nonempty).
    rewrite zero_one_in_range. by rewrite bool_decide_eq_true_2. }
  unfold scatter. cbn [fmap list_fmap fst]. rewrite union_two_worlds.
  erewrite bind_Return; [reflexivity|].
  eapply add_indices_dispatch; try done.
  - cbn [for_each]. by rewrite (bind_Return _ _ _ _ _ Hstep).
  - apply same_classes_refl.
Qed.

Lemma dict_get_in {V} (k : string) (d : list (string * V)) :
  bool_decide (k ∈ d.*1) = true → is_Some (dict_get k d).
Proof.
  intros H%bool_decide_eq_true.
  destruct (dict_get k d) eqn:E; [done|].
  by apply dict_get_None in E.
Qed.

(** [MultiWorldCounterfactual._pyro_post_intervene], when the name it
    scatters under has no plate yet. *)
Lemma mwc_post_intervene σ self od plates below above m obs rest :
  allocator_inv σ self MultiWorldCounterfactual od plates below above →
  Forall (bystander σ) (below ++ above) →
  msg.args m = obs :: rest →
  intervention_name plates.*1 (od - Z.of_nat (length plates)) (msg.name m)
    ∉ plates.*1 →
  axis_owner σ (od - Z.of_nat (length plates)) = None →
  Some (plate_name
          (intervention_name plates.*1 (od - Z.of_nat (length plates))
             (msg.name m)))
    ∉ _DIM_ALLOCATOR σ →
  ∃ m',
    MultiWorldCounterfactual._pyro_post_intervene self m σ
    = Return m'
        (registered σ self MultiWorldCounterfactual od
           (od - Z.of_nat (length plates)) plates below
           (plates.*2 ++ above)
           (intervention_name plates.*1 (od - Z.of_nat (length plates))
              (msg.name m)) 2)
    ∧ msg.value m'
      = two_worlds
          (intervention_name plates.*1 (od - Z.of_nat (length plates))
             (msg.name m))
          obs (msg.value m) (event_dim (msg.kwargs m))
    ∧ msg.name m'
      = Some (intervention_name plates.*1 (od - Z.of_nat (length plates))
                (msg.name m)).
Proof.
  intros Hinv Hby Hargs Hnew Hfree Hname.
  set (fad := od - Z.of_nat (length plates)) in *.
  set (e := intervention_name plates.*1 fad (msg.name m)) in *.
  unfold MultiWorldCounterfactual._pyro_post_intervene. rewrite Hargs.
  set (ed := default 0 (event_dim (msg.kwargs m))).
  set (m1 := msg.set_kwargs {| event_dim := Some ed |} m).
  set (n := default "__intervention__" (msg.name m)).
  set (m2 := match msg.name m1 with
             | Some _ => m1
             | None => msg.set_name (Some "__intervention__") m1
             end).
  assert (Hn2 : msg.name m2 = Some n).
  { unfold m2, n, m1. simpl. by destruct (msg.name m) eqn:E. }
  rewrite (bind_Return _ _ _ _ _
             (index_plates_fields_Some _ _ _ _ _ _
                (inv_self _ _ _ _ _ _ _ Hinv))).
  cbn beta iota. fold fad. rewrite Hn2.
  set (m3 := match dict_get n plates with
             | Some _ => msg.set_name (Some (n +:+ "_" +:+ pretty fad)) m2
             | None => m2
             end).
  assert (Hn3 : msg.name m3 = Some e).
  { unfold m3, e, intervention_name. fold n.
    destruct (bool_decide (n ∈ plates.*1)) eqn:Hin.
    - by destruct (dict_get_in _ _ Hin) as [p ->].
    - apply bool_decide_eq_false in Hin. apply dict_get_None in Hin.
      by rewrite Hin. }
  rewrite Hn3.
  assert (Hv3 : msg.value m3 = msg.value m).
  { unfold m3, m2, m1. simpl.
    by destruct (dict_get n plates), (msg.name m). }
  erewrite bind_Return; last first.
  { eapply (scatter_new_name σ self MultiWorldCounterfactual od plates
              below above e obs (msg.value m) ed); try done.
    by right; left. }
  eexists. split; [reflexivity|]. by split.
Qed.

(** One intervention under an active [MultiWorldCounterfactual]. *)
Lemma mwc_intervene σ self od plates below above f obs act name ed :
  allocator_inv σ self MultiWorldCounterfactual od plates below above →
  Forall (bystander σ) (below ++ above) →
  intervention_name plates.*1 (od - Z.of_nat (length plates)) name
    ∉ plates.*1 →
  axis_owner σ (od - Z.of_nat (length plates)) = None →
  Some (plate_name
          (intervention_name plates.*1 (od - Z.of_nat (length plates)) name))
    ∉ _DIM_ALLOCATOR σ →
  intervene (λ a k, inr (f a k)) obs act name ed σ
  = Return
      (two_worlds
         (intervention_name plates.*1 (od - Z.of_nat (length plates)) name)
         obs (f [obs; act] {| event_dim := ed |}) ed)
      (registered σ self MultiWorldCounterfactual od
         (od - Z.of_nat (length plates)) plates below (plates.*2 ++ above)
         (intervention_name plates.*1 (od - Z.of_nat (length plates)) name)
         2).
Proof.
  intros Hinv Hby Hnew Hfree Hname.
  set (fad := od - Z.of_nat (length plates)) in *.
  set (e := intervention_name plates.*1 fad name) in *.
  pose proof (inv_stack _ _ _ _ _ _ _ Hinv) as Hstack.
  pose proof (inv_self _ _ _ _ _ _ _ Hinv) as Hself.
  apply Forall_app in Hby as [Hbelow Habove].
  unfold intervene, effectful.
  unfold mbind at 1, M_bind at 1, get_stack at 1.
  rewrite bool_decide_eq_false_2 by (rewrite Hstack; by destruct below).
  set (m0 := {| msg.type := "intervene"; msg.name := name;
                msg.fn := λ a k, inr (f a k); msg.is_observed := false;
                msg.args := [obs; act];
                msg.kwargs := {| event_dim := ed |}; msg.value := VNone;
                msg.mask := VNone; msg.done := false; msg.stop := false |}).
  assert (Hpass : Forall (passes hooks σ m0) (plates.*2 ++ above)).
  { apply Forall_app. split; [by eapply inv_plates_pass|].
    eapply Forall_impl; [exact Habove|].
    intros r Hr. by apply bystander_passes. }
  destruct (intervene_walk σ self _ below (plates.*2 ++ above) m0
              Hself ltac:(by right; right; left) Hstack eq_refl eq_refl
              Hpass) as (_ & _ & _ & Happly).
  unfold mbind at 1, M_bind at 1. rewrite Happly.
  unfold default_process_message.
  cbn [msg.done msg.is_observed msg.set_stop m0 orb msg.fn msg.args
       msg.kwargs].
  unfold mbind at 1, M_bind at 1, mret at 1, M_ret at 1.
  cbn [walk_up].
  set (m1 := msg.set_done true
               (msg.set_value (f [obs; act] {| event_dim := ed |})
                  (msg.set_stop true m0))).
  destruct (mwc_post_intervene σ self od plates below above m1 obs [act]
              Hinv ltac:(by apply Forall_app) eq_refl Hnew Hfree Hname)
    as (m2 & Hpost & Hval & Hnm).
  fold fad in Hpost. fold e in Hpost, Hval.
  set (σ' := registered σ self MultiWorldCounterfactual od fad plates below
               (plates.*2 ++ above) e 2) in *.
  assert (Hpp : _postprocess_message hooks self m1 σ = Return m2 σ').
  { unfold _postprocess_message.
    by rewrite (bind_Return _ _ _ _ _ (deref_Some _ _ _ Hself)). }
  rewrite (bind_Return _ _ _ _ _ Hpp).
  (* the plates and the handlers above are bystanders *)
  assert (Hself_lt : (self < length (heap σ))%nat)
    by (by apply lookup_lt_Some in Hself).
  assert (Hinv' : allocator_inv σ' self MultiWorldCounterfactual od
                    (plates ++ [(e, length (heap σ))]) below above).
  { apply registered_inv; [done|]. by apply dict_get_None. }
  assert (Hsame : same_classes σ σ').
  { eapply frame_same_classes.
    - exact Hself.
    - apply (inv_self _ _ _ _ _ _ _ Hinv').
    - intros q o Hq Ho. unfold σ'. rewrite registered_heap_frame; [done..|].
      by apply lookup_lt_Some in Ho. }
  assert (Hup : Forall (bystander σ') (plates.*2 ++ above)).
  { apply Forall_app. split.
    - apply Forall_forall. intros r Hr.
      apply list_elem_of_fmap in Hr as ([n p] & -> & Hin).
      apply list_elem_of_lookup_1 in Hin as [i Hi].
      destruct (inv_plates _ _ _ _ _ _ _ Hinv i n p Hi) as [[size Hp] _].
      apply (bystander_same_classes σ σ'); [done|].
      by eapply plate_bystander.
    - eapply Forall_impl; [exact Habove|].
      intros r Hr. by apply (bystander_same_classes σ σ'). }
  destruct (walk_up_bystanders _ m2 σ' Hup) as [Hwu _].
  rewrite Hwu.
  unfold mret, M_ret. by rewrite Hval.
Qed.

(** A sequence of interventions under an active
    [MultiWorldCounterfactual], each under a name that has no plate when
    its turn comes. *)
Lemma mwc_interventions self od below above f (sites : list Site) :
  ∀ σ plates,
  allocator_inv σ self MultiWorldCounterfactual od plates below above →
  Forall (bystander σ) (below ++ above) →
  NoDup (plates.*1
         ++ effective_names plates.*1 (od - Z.of_nat (length plates))
              (site_name <$> sites)) →
  (∀ i, (i < length sites)%nat →
        axis_owner σ (od - Z.of_nat (length plates) - Z.of_nat i) = None) →
  (∀ n, n ∈ effective_names plates.*1 (od - Z.of_nat (length plates))
              (site_name <$> sites) →
        Some (plate_name n) ∉ _DIM_ALLOCATOR σ) →
  ∃ σ',
    interventions (λ a k, inr (f a k)) sites σ
    = Return
        (zip_with
           (λ s n, two_worlds n (site_obs s)
                     (f [site_obs s; site_act s]
                        {| event_dim := site_event_dim s |})
                     (site_event_dim s))
           sites
           (effective_names plates.*1 (od - Z.of_nat (length plates))
              (site_name <$> sites)))
        σ'
    ∧ allocator_inv σ' self MultiWorldCounterfactual od
        (plates
         ++ zip (effective_names plates.*1 (od - Z.of_nat (length plates))
                   (site_name <$> sites))
                (seq (length (heap σ)) (length sites)))
        below above
    ∧ (∀ q o, q ≠ self → heap σ !! q = Some o → heap σ' !! q = Some o)
    ∧ (∀ i n,
         effective_names plates.*1 (od - Z.of_nat (length plates))
           (site_name <$> sites) !! i = Some n →
         heap σ' !! (length (heap σ) + i)%nat
         = Some (plate_obj n
                   (od - Z.of_nat (length plates) - Z.of_nat i) 2)).
Proof.
  induction sites as [|s sites IH]; intros σ plates Hinv Hby Hnd Hfree Hnames.
  - exists σ. simpl. rewrite app_nil_r. split_and!; [done..|].
    intros i n [=].
  - cbn [fmap list_fmap effective_names] in *.
    set (fad := od - Z.of_nat (length plates)) in *.
    set (e := intervention_name plates.*1 fad (site_name s)) in *.
    assert (He : e ∉ plates.*1).
    { apply NoDup_app in Hnd as (_ & Hd & _). intros Hin.
      apply (Hd e Hin). left. }
    pose proof (inv_neg _ _ _ _ _ _ _ Hinv) as Hod.
    assert (Hfree0 : axis_owner σ fad = None).
    { specialize (Hfree 0%nat). simpl in Hfree.
      replace fad with (fad - 0) by lia. apply Hfree. lia. }
    assert (Hname0 : Some (plate_name e) ∉ _DIM_ALLOCATOR σ)
      by (apply Hnames; left).
    pose proof (mwc_intervene σ self od plates below above f (site_obs s)
                  (site_act s) (site_name s) (site_event_dim s)
                  Hinv Hby He Hfree0 Hname0) as Hstep.
    fold fad in Hstep. fold e in Hstep.
    set (σ1 := registered σ self MultiWorldCounterfactual od fad plates
                 below (plates.*2 ++ above) e 2) in *.
    assert (Hself_lt : (self < length (heap σ))%nat).
    { pose proof (inv_self _ _ _ _ _ _ _ Hinv) as H.
      by apply lookup_lt_Some in H. }
    assert (Hinv1 : allocator_inv σ1 self MultiWorldCounterfactual od
                      (plates ++ [(e, length (heap σ))]) below above).
    { apply registered_inv; [done|]. by apply dict_get_None. }
    assert (Hframe1 : ∀ q o, q ≠ self → heap σ !! q = Some o →
                             heap σ1 !! q = Some o).
    { intros q o Hq Ho. unfold σ1. rewrite registered_heap_frame; [done..|].
      by apply lookup_lt_Some in Ho. }
    assert (Hsame : same_classes σ σ1).
    { eapply frame_same_classes; [|apply (inv_self _ _ _ _ _ _ _ Hinv1)|done].
      apply (inv_self _ _ _ _ _ _ _ Hinv). }
    assert (Hlen1 : length (heap σ1) = S (length (heap σ)))
      by apply registered_heap_length.
    assert (Hnames1 : (plates ++ [(e, length (heap σ))]).*1
                      = plates.*1 ++ [e]) by (by rewrite fmap_app).
    assert (Hfad1 : od - Z.of_nat (length (plates ++ [(e, length (heap σ))]))
                    = fad - 1).
    { rewrite length_app. simpl. unfold fad. lia. }
    destruct (IH σ1 (plates ++ [(e, length (heap σ))]))
      as (σ' & Hrun & Hinv' & Hframe & Hnew); try done.
    + eapply Forall_impl; [exact Hby|].
      intros r Hr. by apply (bystander_same_classes σ σ1).
    + rewrite Hnames1, Hfad1. by rewrite <- app_assoc.
    + intros i Hi. rewrite Hfad1.
      replace (fad - 1 - Z.of_nat i) with (fad - Z.of_nat (S i)) by lia.
      apply axis_owner_registered_ne; [lia|unfold fad; lia|lia|].
      unfold fad. apply Hfree. simpl. lia.
    + rewrite Hnames1, Hfad1. intros n Hn.
      apply name_free_registered.
      * intros ->. apply NoDup_app in Hnd as (_ & _ & Hnd).
        by apply NoDup_cons in Hnd as [Hnd _].
      * apply Hnames. by right.
    + rewrite Hnames1, Hfad1, Hlen1 in *.
      exists σ'. split_and!.
      * cbn [interventions]. rewrite (bind_Return _ _ _ _ _ Hstep).
        by rewrite (bind_Return _ _ _ _ _ Hrun).
      * simpl. by rewrite <- app_assoc in Hinv'.
      * intros q o Hq Ho. apply Hframe; [done|]. by apply Hframe1.
      * intros [|i] n Hi; simpl in Hi.
        -- injection Hi as <-. rewrite Nat.add_0_r.
           apply Hframe; [lia|]. unfold σ1.
           rewrite registered_heap_new by done.
           by replace (fad - Z.of_nat 0) with fad by lia.
        -- replace (length (heap σ) + S i)%nat
             with (S (length (heap σ)) + i)%nat by lia.
           rewrite (Hnew i n Hi). do 2 f_equal. lia.
Qed.

Lemma product_app_twos (sizes : list Z) (k : nat) :
  foldr Z.mul 1 (sizes ++ replicate k 2) = foldr Z.mul 1 sizes * 2 ^ Z.of_nat k.
Proof.
  induction sizes as [|x sizes IH]; simpl.
  - induction k as [|k IHk]; [done|].
    cbn [replicate foldr]. rewrite IHk.
    rewrite Nat2Z.inj_succ, Z.pow_succ_r by lia. lia.
  - rewrite IH. lia.
Qed.

(** New plates of size 2 double the number of worlds each. *)
Lemma worlds_extended σ σ' self c od plates below above names w :
  allocator_inv σ self c od plates below above →
  allocator_inv σ' self c od
    (plates ++ zip names (seq (length (heap σ)) (length names))) below above →
  (∀ q o, q ≠ self → heap σ !! q = Some o → heap σ' !! q = Some o) →
  (∀ i n, names !! i = Some n →
          ∃ d, heap σ' !! (length (heap σ) + i)%nat
               = Some (plate_obj n d 2)) →
  worlds σ self = Some w →
  worlds σ' self = Some (w * 2 ^ Z.of_nat (length names)).
Proof.
  intros Hinv Hinv' Hframe Hnew Hw. unfold worlds in *.
  rewrite (registry_inv _ _ _ _ _ _ _ Hinv) in Hw.
  rewrite (registry_inv _ _ _ _ _ _ _ Hinv'). simpl in *.
  destruct (mapM _ plates) as [sizes|] eqn:Hsizes; [|done].
  simpl in Hw. injection Hw as <-.
  apply mapM_Some in Hsizes.
  assert (Hsizes' :
    mapM (λ item : string * ref, frame_size <$> frame_of_plate σ' item.2)
      (plates ++ zip names (seq (length (heap σ)) (length names)))
    = Some (sizes ++ replicate (length names) 2)).
  { apply mapM_Some. apply Forall2_app.
    - apply Forall2_same_length_lookup_2;
        [by eapply Forall2_length|].
      intros i [n p] sz Hi Hsz.
      pose proof (Forall2_lookup_lr _ _ _ _ _ _ Hsizes Hi Hsz) as Hf.
      simpl in *.
      destruct (wf_plate_ref _ _ _ _ _ _ _ _ _ _ _ Hinv Hi) as (Hp & _ & _).
      unfold frame_of_plate in *.
      destruct (heap σ !! p) as [o|] eqn:Ho; [|done].
      by rewrite (Hframe p o Hp Ho).
    - apply Forall2_same_length_lookup_2.
      + rewrite length_zip_with, length_seq, length_replicate. lia.
      + intros i [n p] sz Hi Hsz.
        apply lookup_zip_with_Some in Hi as (n' & p' & [= <- <-] & Hn & Hp).
        apply lookup_seq in Hp as [-> _].
        apply lookup_replicate in Hsz as [-> _].
        destruct (Hnew i n Hn) as [d Hd]. simpl.
        unfold frame_of_plate. by rewrite Hd. }
  rewrite Hsizes'. simpl. by rewrite product_app_twos.
Qed.

Lemma effective_names_length reg fad names :
  length (effective_names reg fad names) = length names.
Proof.
  revert reg fad. induction names as [|n names IH]; intros reg fad; [done|].
  simpl. by rewrite IH.
Qed.

(** Sites with distinct names, none of which is a name of the registry,
    are scattered under their own names ([__intervention__] for a site
    without a name). *)
Lemma effective_names_distinct reg fad (names : list (option string)) :
  NoDup (reg ++ (default "__intervention__" <$> names)) →
  effective_names reg fad names = default "__intervention__" <$> names.
Proof.
  revert reg fad. induction names as [|n names IH]; intros reg fad Hnd;
    [done|].
  cbn [fmap list_fmap effective_names] in *.
  assert (Hn : intervention_name reg fad n = default "__intervention__" n).
  { unfold intervention_name. rewrite bool_decide_eq_false_2; [done|].
    apply NoDup_app in Hnd as (_ & Hd & _). intros Hin.
    apply (Hd _ Hin). left. }
  rewrite Hn. f_equal. apply IH. by rewrite <- app_assoc.
Qed.

(** C2.  Under an active [MultiWorldCounterfactual], [intervene] at a
    site returns [scatter({IndexSet(name={0}): obs, IndexSet(name={1}):
    act}, event_dim)], where [act] is what the default implementation made
    of the proposed value and [name] is the name of the site,
    [__intervention__] for a site without a name, with the cursor appended
    when that name has a plate already ([intervention_name]).  When the
    names that come out of a sequence of interventions are distinct and
    new, as they are for sites with distinct names
    ([effective_names_distinct]), the [i]-th intervention gets a plate of
    size 2 at the axis [fad - i], where [fad] is the cursor before the
    first one: [k] interventions allocate [k] axes and multiply the number
    of worlds by [2 ^ k]. *)
Theorem multi_world_interventions
    σ self od fad plates below above f (sites : list Site) :
  allocator_inv σ self MultiWorldCounterfactual od plates below above →
  cursor σ self = Some fad →
  Forall (bystander σ) (below ++ above) →
  NoDup (plates.*1 ++ effective_names plates.*1 fad (site_name <$> sites)) →
  (∀ i, (i < length sites)%nat → axis_owner σ (fad - Z.of_nat i) = None) →
  (∀ n, n ∈ effective_names plates.*1 fad (site_name <$> sites) →
        Some (plate_name n) ∉ _DIM_ALLOCATOR σ) →
  ∃ σ',
    interventions (λ a k, inr (f a k)) sites σ
    = Return
        (zip_with
           (λ s n, two_worlds n (site_obs s)
                     (f [site_obs s; site_act s]
                        {| event_dim := site_event_dim s |})
                     (site_event_dim s))
           sites (effective_names plates.*1 fad (site_name <$> sites)))
        σ'
    ∧ allocator_inv σ' self MultiWorldCounterfactual od
        (plates
         ++ zip (effective_names plates.*1 fad (site_name <$> sites))
                (seq (length (heap σ)) (length sites)))
        below above
    ∧ cursor σ' self = Some (fad - Z.of_nat (length sites))
    ∧ (∀ i n,
         effective_names plates.*1 fad (site_name <$> sites) !! i = Some n →
         plate_axis σ' self n = Some (fad - Z.of_nat i)
         ∧ plate_size σ' self n = Some 2)
    ∧ (∀ w, worlds σ self = Some w →
            worlds σ' self = Some (w * 2 ^ Z.of_nat (length sites))).
Proof.
  intros Hinv Hcur Hby Hnd Hfree Hnames.
  rewrite (cursor_inv _ _ _ _ _ _ _ Hinv) in Hcur. injection Hcur as <-.
  destruct (mwc_interventions self od below above f sites σ plates
              Hinv Hby Hnd Hfree Hnames)
    as (σ' & Hrun & Hinv' & Hframe & Hnew).
  set (names := effective_names plates.*1 (od - Z.of_nat (length plates))
                  (site_name <$> sites)) in *.
  assert (Hlen : length names = length sites).
  { unfold names. by rewrite effective_names_length, length_fmap. }
  exists σ'. split_and!; [done|done| | |].
  - rewrite (cursor_inv _ _ _ _ _ _ _ Hinv').
    rewrite length_app, length_zip_with, length_seq, Hlen. f_equal. lia.
  - intros i n Hi.
    assert (Hplate : plate_of σ' self n
                     = Some (plate_name n,
                             od - Z.of_nat (length plates) - Z.of_nat i, 2)).
    { unfold plate_of. rewrite (registry_inv _ _ _ _ _ _ _ Hinv'). simpl.
      erewrite dict_get_lookup with (i := (length plates + i)%nat);
        [|by apply (inv_names _ _ _ _ _ _ _ Hinv')|]; last first.
      { rewrite lookup_app_r by lia.
        replace (length plates + i - length plates)%nat with i by lia.
        apply lookup_zip_with_Some. exists n, (length (heap σ) + i)%nat.
        split_and!; [done..|].
        apply lookup_seq. split; [done|].
        apply lookup_lt_Some in Hi. lia. }
      simpl. by rewrite (Hnew i n Hi). }
    unfold plate_axis, plate_size. by rewrite Hplate.
  - intros w Hw. rewrite <- Hlen.
    eapply (worlds_extended σ σ'); try done.
    + by rewrite Hlen.
    + intros i n Hi. eexists. by apply Hnew.
Qed.

(** ** [TwinWorldCounterfactual] *)

(** An intervention under an active counterfactual allocator: the value is
    what the hook of the allocator for the way up makes of it. *)
Lemma intervene_by_allocator
    σ σ' self c od plates below above f obs act name ed post m2 :
  allocator_inv σ self c od plates below above →
  counterfactual_class c →
  Forall (bystander σ) (below ++ above) →
  class_getattr hooks c "_pyro_post_intervene" = Some post →
  post self
    (intervene_msg_up (λ a k, inr (f a k)) obs act name ed
       (f [obs; act] {| event_dim := ed |})) σ
  = Return m2 σ' →
  same_classes σ σ' →
  intervene (λ a k, inr (f a k)) obs act name ed σ
  = Return (msg.value m2) σ'.
Proof.
  intros Hinv Hc Hby Hhook Hpost Hsame.
  pose proof (inv_stack _ _ _ _ _ _ _ Hinv) as Hstack.
  pose proof (inv_self _ _ _ _ _ _ _ Hinv) as Hself.
  apply Forall_app in Hby as [Hbelow Habove].
  unfold intervene, effectful.
  unfold mbind at 1, M_bind at 1, get_stack at 1.
  rewrite bool_decide_eq_false_2 by (rewrite Hstack; by destruct below).
  set (m0 := {| msg.type := "intervene"; msg.name := name;
                msg.fn := λ a k, inr (f a k); msg.is_observed := false;
                msg.args := [obs; act];
                msg.kwargs := {| event_dim := ed |}; msg.value := VNone;
                msg.mask := VNone; msg.done := false; msg.stop := false |}).
  assert (Hpass : Forall (passes hooks σ m0) (plates.*2 ++ above)).
  { apply Forall_app. split; [by eapply inv_plates_pass|].
    eapply Forall_impl; [exact Habove|].
    intros r Hr. by apply bystander_passes. }
  destruct (intervene_walk σ self _ below (plates.*2 ++ above) m0
              Hself Hc Hstack eq_refl eq_refl Hpass) as (_ & _ & _ & Happly).
  unfold mbind at 1, M_bind at 1. rewrite Happly.
  unfold default_process_message.
  cbn [msg.done msg.is_observed msg.set_stop m0 orb msg.fn msg.args
       msg.kwargs].
  unfold mbind at 1, M_bind at 1, mret at 1, M_ret at 1.
  cbn [walk_up].
  assert (Hpp : _postprocess_message hooks self
                  (intervene_msg_up (λ a k, inr (f a k)) obs act name ed
                     (f [obs; act] {| event_dim := ed |})) σ
                = Return m2 σ').
  { unfold _postprocess_message.
    rewrite (bind_Return _ _ _ _ _ (deref_Some _ _ _ Hself)).
    cbn [class_of allocator_obj msg.type intervene_msg_up].
    change ("_pyro_post_" +:+ "intervene") with "_pyro_post_intervene".
    by rewrite Hhook. }
  change (msg.set_done true
            (msg.set_value (f [obs; act] {| event_dim := ed |})
               (msg.set_stop true m0)))
    with (intervene_msg_up (λ a k, inr (f a k)) obs act name ed
            (f [obs; act] {| event_dim := ed |})).
  rewrite (bind_Return _ _ _ _ _ Hpp).
  assert (Hup : Forall (bystander σ') (plates.*2 ++ above)).
  { apply Forall_app. split.
    - apply Forall_forall. intros r Hr.
      apply list_elem_of_fmap in Hr as ([n p] & -> & Hin).
      apply list_elem_of_lookup_1 in Hin as [i Hi].
      destruct (inv_plates _ _ _ _ _ _ _ Hinv i n p Hi) as [[size Hp] _].
      apply (bystander_same_classes σ σ'); [done|].
      by eapply plate_bystander.
    - eapply Forall_impl; [exact Habove|].
      intros r Hr. by apply (bystander_same_classes σ σ'). }
  destruct (walk_up_bystanders _ m2 σ' Hup) as [Hwu _].
  by rewrite Hwu.
Qed.

Lemma twc_post_intervene σ σ' self m obs rest :
  msg.args m = obs :: rest →
  scatter [ (IndexSet_of [("__intervention__", {[0]})], obs);
            (IndexSet_of [("__intervention__", {[1]})], msg.value m) ]
    (default 0 (event_dim (msg.kwargs m))) σ
  = Return (two_worlds "__intervention__" obs (msg.value m)
              (event_dim (msg.kwargs m))) σ' →
  ∃ m',
    TwinWorldCounterfactual._pyro_post_intervene self m σ = Return m' σ'
    ∧ msg.value m'
      = two_worlds "__intervention__" obs (msg.value m)
          (event_dim (msg.kwargs m)).
Proof.
  intros Hargs Hscatter.
  unfold TwinWorldCounterfactual._pyro_post_intervene. rewrite Hargs.
  cbn [msg.value msg.set_kwargs].
  rewrite (bind_Return _ _ _ _ _ Hscatter).
  eexists. split; [reflexivity|done].
Qed.

(** The first intervention under an active [TwinWorldCounterfactual]
    registers the plate [__intervention__]. *)
Lemma twc_intervene_first
    σ self od plates below above f obs act name ed :
  allocator_inv σ self TwinWorldCounterfactual od plates below above →
  Forall (bystander σ) (below ++ above) →
  "__intervention__" ∉ plates.*1 →
  axis_owner σ (od - Z.of_nat (length plates)) = None →
  Some (plate_name "__intervention__") ∉ _DIM_ALLOCATOR σ →
  intervene (λ a k, inr (f a k)) obs act name ed σ
  = Return
      (two_worlds "__intervention__" obs
         (f [obs; act] {| event_dim := ed |}) ed)
      (registered σ self TwinWorldCounterfactual od
         (od - Z.of_nat (length plates)) plates below (plates.*2 ++ above)
         "__intervention__" 2).
Proof.
  intros Hinv Hby Hnew Hfree Hname.
  set (σ' := registered σ self TwinWorldCounterfactual od
               (od - Z.of_nat (length plates)) plates below
               (plates.*2 ++ above) "__intervention__" 2).
  set (v := f [obs; act] {| event_dim := ed |}).
  destruct (twc_post_intervene σ σ' self
              (intervene_msg_up (λ a k, inr (f a k)) obs act name ed v)
              obs [act] eq_refl) as (m2 & Hpost & Hval).
  { apply (scatter_new_name σ self TwinWorldCounterfactual od plates below
             above "__intervention__" obs v (default 0 ed)); try done.
    by right; right. }
  assert (Hself_lt : (self < length (heap σ))%nat).
  { pose proof (inv_self _ _ _ _ _ _ _ Hinv) as H.
    by apply lookup_lt_Some in H. }
  assert (Hinv' : allocator_inv σ' self TwinWorldCounterfactual od
                    (plates ++ [("__intervention__", length (heap σ))])
                    below above).
  { apply registered_inv; [done|]. by apply dict_get_None. }
  assert (Hsame : same_classes σ σ').
  { eapply frame_same_classes.
    - apply (inv_self _ _ _ _ _ _ _ Hinv).
    - apply (inv_self _ _ _ _ _ _ _ Hinv').
    - intros q o Hq Ho. unfold σ'. rewrite registered_heap_frame; [done..|].
      by apply lookup_lt_Some in Ho. }
  rewrite (intervene_by_allocator σ σ' self TwinWorldCounterfactual od
             plates below above f obs act name ed
             TwinWorldCounterfactual._pyro_post_intervene m2);
    try done.
  - by rewrite Hval.
  - by right; right; right.
Qed.

(** A later intervention finds the plate and leaves the state as it
    is. *)
Lemma twc_intervene_again
    σ self od plates below above f obs act name ed size :
  allocator_inv σ self TwinWorldCounterfactual od plates below above →
  Forall (bystander σ) (below ++ above) →
  plate_size σ self "__intervention__" = Some size →
  1 < size →
  intervene (λ a k, inr (f a k)) obs act name ed σ
  = Return
      (two_worlds "__intervention__" obs
         (f [obs; act] {| event_dim := ed |}) ed) σ.
Proof.
  intros Hinv Hby Hsize Hlt.
  set (v := f [obs; act] {| event_dim := ed |}).
  destruct (twc_post_intervene σ σ self
              (intervene_msg_up (λ a k, inr (f a k)) obs act name ed v)
              obs [act] eq_refl) as (m2 & Hpost & Hval).
  { apply (scatter_existing_name σ self TwinWorldCounterfactual od plates
             below above "__intervention__" obs v (default 0 ed) size);
      try done.
    by right; right. }
  rewrite (intervene_by_allocator σ σ self TwinWorldCounterfactual od
             plates below above f obs act name ed
             TwinWorldCounterfactual._pyro_post_intervene m2);
    try done.
  - by rewrite Hval.
  - by right; right; right.
  - apply same_classes_refl.
Qed.

Lemma twc_interventions_again
    σ self od plates below above f (sites : list Site) size :
  allocator_inv σ self TwinWorldCounterfactual od plates below above →
  Forall (bystander σ) (below ++ above) →
  plate_size σ self "__intervention__" = Some size →
  1 < size →
  interventions (λ a k, inr (f a k)) sites σ
  = Return
      ((λ s, two_worlds "__intervention__" (site_obs s)
               (f [site_obs s; site_act s]
                  {| event_dim := site_event_dim s |})
               (site_event_dim s)) <$> sites) σ.
Proof.
  intros Hinv Hby Hsize Hlt. induction sites as [|s sites IH]; [done|].
  cbn [interventions fmap list_fmap].
  rewrite (bind_Return _ _ _ _ _
             (twc_intervene_again σ self od plates below above f
                (site_obs s) (site_act s) (site_name s) (site_event_dim s)
                size Hinv Hby Hsize Hlt)).
  by rewrite (bind_Return _ _ _ _ _ IH).
Qed.

(** C3.  Under an active [TwinWorldCounterfactual], every intervention is
    scattered under the name [__intervention__], whatever the name of the
    site.  The first one registers the plate [__intervention__], of size
    2, at the cursor; the later ones find it and change nothing.  So any
    number [k >= 1] of interventions leaves exactly one more plate in the
    registry, with 2 worlds. *)
Theorem twin_world_interventions
    σ self od fad plates below above f (s : Site) (rest : list Site) :
  allocator_inv σ self TwinWorldCounterfactual od plates below above →
  cursor σ self = Some fad →
  Forall (bystander σ) (below ++ above) →
  "__intervention__" ∉ plates.*1 →
  axis_owner σ fad = None →
  Some (plate_name "__intervention__") ∉ _DIM_ALLOCATOR σ →
  ∃ σ',
    interventions (λ a k, inr (f a k)) (s :: rest) σ
    = Return
        ((λ s, two_worlds "__intervention__" (site_obs s)
                 (f [site_obs s; site_act s]
                    {| event_dim := site_event_dim s |})
                 (site_event_dim s)) <$> s :: rest) σ'
    ∧ allocator_inv σ' self TwinWorldCounterfactual od
        (plates ++ [("__intervention__", length (heap σ))]) below above
    ∧ registry σ' self
      = Some (plates ++ [("__intervention__", length (heap σ))])
    ∧ cursor σ' self = Some (fad - 1)
    ∧ plate_axis σ' self "__intervention__" = Some fad
    ∧ plate_size σ' self "__intervention__" = Some 2
    ∧ (∀ w, worlds σ self = Some w → worlds σ' self = Some (w * 2)).
Proof.
  intros Hinv Hcur Hby Hnew Hfree Hname.
  rewrite (cursor_inv _ _ _ _ _ _ _ Hinv) in Hcur. injection Hcur as <-.
  set (fad := od - Z.of_nat (length plates)) in *.
  set (σ1 := registered σ self TwinWorldCounterfactual od fad plates below
               (plates.*2 ++ above) "__intervention__" 2).
  pose proof (twc_intervene_first σ self od plates below above f
                (site_obs s) (site_act s) (site_name s) (site_event_dim s)
                Hinv Hby Hnew Hfree Hname) as Hfirst.
  fold fad in Hfirst. fold σ1 in Hfirst.
  assert (Hself_lt : (self < length (heap σ))%nat).
  { pose proof (inv_self _ _ _ _ _ _ _ Hinv) as H.
    by apply lookup_lt_Some in H. }
  assert (Hinv1 : allocator_inv σ1 self TwinWorldCounterfactual od
                    (plates ++ [("__intervention__", length (heap σ))])
                    below above).
  { apply registered_inv; [done|]. by apply dict_get_None. }
  assert (Hframe : ∀ q o, q ≠ self → heap σ !! q = Some o →
                          heap σ1 !! q = Some o).
  { intros q o Hq Ho. unfold σ1. rewrite registered_heap_frame; [done..|].
    by apply lookup_lt_Some in Ho. }
  assert (Hsame : same_classes σ σ1).
  { eapply frame_same_classes; [|apply (inv_self _ _ _ _ _ _ _ Hinv1)|done].
    apply (inv_self _ _ _ _ _ _ _ Hinv). }
  assert (Hby1 : Forall (bystander σ1) (below ++ above)).
  { eapply Forall_impl; [exact Hby|].
    intros r Hr. by apply (bystander_same_classes σ σ1). }
  assert (Hp : heap σ1 !! length (heap σ)
               = Some (plate_obj "__intervention__" fad 2))
    by (by apply registered_heap_new).
  clearbody σ1.
  assert (Hplate : plate_of σ1 self "__intervention__"
                   = Some (plate_name "__intervention__", fad, 2)).
  { unfold plate_of. rewrite (registry_inv _ _ _ _ _ _ _ Hinv1). simpl.
    rewrite dict_get_app_new by (by apply dict_get_None).
    simpl. by rewrite Hp. }
  assert (Hsize : plate_size σ1 self "__intervention__" = Some 2)
    by (unfold plate_size; by rewrite Hplate).
  exists σ1. split_and!.
  - cbn [interventions fmap list_fmap].
    rewrite (bind_Return _ _ _ _ _ Hfirst).
    by rewrite (bind_Return _ _ _ _ _
                  (twc_interventions_again σ1 self od _ below above f rest 2
                     Hinv1 Hby1 Hsize ltac:(lia))).
  - done.
  - by apply (registry_inv _ _ _ _ _ _ _ Hinv1).
  - rewrite (cursor_inv _ _ _ _ _ _ _ Hinv1).
    rewrite length_app. simpl. f_equal. unfold fad. lia.
  - unfold plate_axis. by rewrite Hplate.
  - done.
  - intros w Hw.
    pose proof (worlds_extended σ σ1 self TwinWorldCounterfactual od plates
                  below above ["__intervention__"] w Hinv Hinv1 Hframe)
      as Hworlds.
    simpl in Hworlds. apply Hworlds; [|done].
    intros [|i] n [=]. subst n. exists fad. by rewrite Nat.add_0_r.
Qed.

(** * Instances *)

Lemma mwc_with_X_inv :
  allocator_inv mwc_with_X 0%nat MultiWorldCounterfactual (-5)
    [("X", 1%nat)] [] [].
Proof. concrete_inv. Qed.

Lemma add_indices_registers_new_names_witness :
  ∃ σ',
    IndexPlatesMessenger._pyro_add_indices 0%nat
      (add_indices_msg [("X", {[0; 1]}); ("Y", {[0; 1; 2]})]) mwc_active
    = Return (add_indices_msg [("X", {[0; 1]}); ("Y", {[0; 1; 2]})]) σ'
    ∧ cursor σ' 0%nat = Some (-7)
    ∧ plate_axis σ' 0%nat "Y" = Some (-6)
    ∧ plate_size σ' 0%nat "Y" = Some 3.
Proof.
  destruct (add_indices_registers_new_names mwc_active 0%nat
              MultiWorldCounterfactual (-5) [] [] []
              (add_indices_msg [("X", {[0; 1]}); ("Y", {[0; 1; 2]})])
              [("X", {[0; 1]}); ("Y", {[0; 1; 2]})] (-5))
    as (σ' & Hrun & _ & Hcur & Hplates).
  - concrete_inv.
  - reflexivity.
  - reflexivity.
  - by_compute.
  - intros name indices Hin H. subst indices.
    apply elem_of_cons in Hin as [Hin|Hin%list_elem_of_singleton];
      apply (f_equal (λ x, elements x.2)) in Hin; by vm_compute in Hin.
  - intros name indices size Hin Hsize.
    apply elem_of_cons in Hin as [Hin|Hin%list_elem_of_singleton];
      apply (f_equal fst) in Hin; simpl in Hin; subst name;
      by vm_compute in Hsize.
  - intros i Hi. vm_compute in Hi.
    destruct i as [|[|i]]; [reflexivity|reflexivity|lia].
  - intros name _. apply not_elem_of_nil.
  - exists σ'. split; [done|]. split; [done|].
    destruct (Hplates 1%nat "Y" {[0; 1; 2]} eq_refl) as (mx & Hmx & Hax & Hsz).
    vm_compute in Hmx. injection Hmx as <-. by split.
Defined.

Lemma multi_world_interventions_witness :
  ∃ σ',
    interventions (λ a k, inr (default VNone (a !! 1%nat)))
      [ {| site_obs := VArray "x"; site_act := VArray "x'";
           site_name := Some "X"; site_event_dim := None |};
        {| site_obs := VArray "y"; site_act := VArray "y'";
           site_name := None; site_event_dim := Some 1 |} ]
      mwc_active
    = Return [ two_worlds "X" (VArray "x") (VArray "x'") None;
               two_worlds "__intervention__" (VArray "y") (VArray "y'")
                 (Some 1) ] σ'
    ∧ cursor σ' 0%nat = Some (-7)
    ∧ worlds σ' 0%nat = Some 4.
Proof.
  destruct (multi_world_interventions mwc_active 0%nat (-5) (-5) [] [] []
              (λ a k, default VNone (a !! 1%nat))
              [ {| site_obs := VArray "x"; site_act := VArray "x'";
                   site_name := Some "X"; site_event_dim := None |};
                {| site_obs := VArray "y"; site_act := VArray "y'";
                   site_name := None; site_event_dim := Some 1 |} ])
    as (σ' & Hrun & _ & Hcur & _ & Hworlds).
  - concrete_inv.
  - reflexivity.
  - constructor.
  - by_compute.
  - intros i Hi. simpl in Hi.
    destruct i as [|[|i]]; [reflexivity|reflexivity|lia].
  - intros n _. apply not_elem_of_nil.
  - exists σ'. split; [exact Hrun|]. split; [exact Hcur|].
    apply (Hworlds 1). reflexivity.
Defined.

Lemma twin_world_interventions_witness :
  ∃ σ',
    interventions (λ a k, inr (default VNone (a !! 1%nat)))
      [ {| site_obs := VArray "x"; site_act := VArray "x'";
           site_name := Some "X"; site_event_dim := None |};
        {| site_obs := VArray "y"; site_act := VArray "y'";
           site_name := Some "Y"; site_event_dim := None |} ]
      twc_active
    = Return [ two_worlds "__intervention__" (VArray "x") (VArray "x'") None;
               two_worlds "__intervention__" (VArray "y") (VArray "y'") None ]
        σ'
    ∧ registry σ' 0%nat = Some [("__intervention__", 1%nat)]
    ∧ cursor σ' 0%nat = Some (-6)
    ∧ worlds σ' 0%nat = Some 2.
Proof.
  destruct (twin_world_interventions twc_active 0%nat (-5) (-5) [] [] []
              (λ a k, default VNone (a !! 1%nat))
              {| site_obs := VArray "x"; site_act := VArray "x'";
                 site_name := Some "X"; site_event_dim := None |}
              [ {| site_obs := VArray "y"; site_act := VArray "y'";
                   site_name := Some "Y"; site_event_dim := None |} ])
    as (σ' & Hrun & _ & Hreg & Hcur & _ & _ & Hworlds).
  - concrete_inv.
  - reflexivity.
  - constructor.
  - apply not_elem_of_nil.
  - reflexivity.
  - apply not_elem_of_nil.
  - exists σ'. split; [exact Hrun|]. split; [exact Hreg|].
    split; [exact Hcur|]. apply (Hworlds 1). reflexivity.
Defined.

Lemma exit_releases_plates_in_reverse_order_witness :
  ∃ σ',
    IndexPlatesMessenger.__exit__ 0%nat None mwc_with_X = Return tt σ'
    ∧ history σ' = [Allocated (plate_name "X") (-5);
                    Freed (plate_name "X") (-5)]
    ∧ registry σ' 0%nat = Some []
    ∧ cursor σ' 0%nat = Some (-5)
    ∧ _PYRO_STACK σ' = [].
Proof.
  destruct (exit_releases_plates_in_reverse_order mwc_with_X 0%nat
              MultiWorldCounterfactual (-5) [("X", 1%nat)] [] [] None)
    as (σ' & Hrun & Hhist & Hreg & Hcur & _ & Hstack & _).
  - concrete_inv.
  - reflexivity.
  - exists σ'. by split_and!.
Defined.

Lemma collision_raises_allocation_error_witness :
  ∃ text σ',
    IndexPlatesMessenger._pyro_add_indices 0%nat
      (add_indices_msg [("X", {[0; 1]})]) mwc_and_batch_plate
    = Raise (ValueError text) σ'
    ∧ Py.str_in "Try setting a value less than -5 for `first_available_dim`"
        text = true
    ∧ _DIM_ALLOCATOR σ' = _DIM_ALLOCATOR mwc_and_batch_plate
    ∧ registry σ' 0%nat = Some []
    ∧ cursor σ' 0%nat = Some (-5).
Proof.
  destruct (collision_raises_allocation_error mwc_and_batch_plate 0%nat
              MultiWorldCounterfactual (-5) (-5) []
              (add_indices_msg [("X", {[0; 1]})]) "X" {[0; 1]} [] "data")
    as (text & σ' & Hrun & Hadvice & Hdims & _ & _ & Hreg & Hcur).
  - reflexivity.
  - reflexivity.
  - reflexivity.
  - intros H. apply (f_equal elements) in H. by vm_compute in H.
  - lia.
  - reflexivity.
  - by_compute.
  - exists text, σ'. by split_and!.
Defined.

Lemma get_index_plates_answered_by_allocator_witness :
  apply_stack hooks get_index_plates_msg mwc_with_X
  = Return
      (msg.set_stop true
         (msg.set_done true
            (msg.set_value
               (VFrames [("X", {| frame_name := plate_name "X";
                                  frame_dim := -5; frame_size := 2;
                                  frame_counter := 0 |})])
               get_index_plates_msg)))
      mwc_with_X.
Proof.
  destruct (get_index_plates_answered_by_allocator mwc_with_X 0%nat
              MultiWorldCounterfactual (-5) [("X", 1%nat)] [] []
              get_index_plates_msg)
    as (_ & frames & Hframes & _ & _ & _ & _ & Happly).
  - concrete_inv.
  - by left.
  - reflexivity.
  - reflexivity.
  - constructor.
  - vm_compute in Hframes. injection Hframes as <-. exact Happly.
Defined.


(** ** Nested counterfactual handlers *)

(** With [Factual] installed inside [MultiWorldCounterfactual], an
    intervention returns the observed value and the outer handler
    registers nothing. *)
Lemma factual_inside_multi_world :
  intervene (msg.fn intervene_msg) (VArray "x") (VArray "x'") None None
    factual_in_mwc
  = Return (VArray "x") factual_in_mwc.
Proof. reflexivity. Qed.

(** ** The example states are reached by running the code *)

Lemma twc_active_reached :
  (h ← IndexPlatesMessenger.__init__ TwinWorldCounterfactual None;
   IndexPlatesMessenger.__enter__ h) empty_runtime
  = Return 0%nat twc_active.
Proof. reflexivity. Qed.

Lemma mwc_and_batch_plate_reached :
  (d ← IndepMessenger.__init__ IndepMessenger "data" 10 (-5);
   IndepMessenger.__enter__ d) mwc_active
  = Return 1%nat mwc_and_batch_plate.
Proof. reflexivity. Qed.

Lemma factual_in_mwc_reached :
  (h ← new Factual NoFields; Messenger.__enter__ h) mwc_active
  = Return 1%nat factual_in_mwc.
Proof. reflexivity. Qed.

(** ** Whole scopes *)

(** Two interventions in a scope: the plates are created in the order of
    the interventions and released in the reverse order when the scope
    ends; the handler stack and the dimension allocator end empty. *)
Example scope_with_two_interventions :
  ∃ σ,
    (h ← IndexPlatesMessenger.__init__ MultiWorldCounterfactual None;
     with_ (IndexPlatesMessenger.__enter__ h)
       (IndexPlatesMessenger.__exit__ h)
       (interventions (msg.fn intervene_msg)
          [ {| site_obs := VArray "x"; site_act := VArray "x'";
               site_name := Some "X"; site_event_dim := None |};
            {| site_obs := VArray "y"; site_act := VArray "y'";
               site_name := Some "Y"; site_event_dim := None |} ]))
      empty_runtime
    = Return [ two_worlds "X" (VArray "x") (VArray "x'") None;
               two_worlds "Y" (VArray "y") (VArray "y'") None ] σ
    ∧ history σ = [ Allocated (plate_name "X") (-5);
                    Allocated (plate_name "Y") (-6);
                    Freed (plate_name "Y") (-6);
                    Freed (plate_name "X") (-5) ]
    ∧ _PYRO_STACK σ = [] ∧ _DIM_ALLOCATOR σ = []
    ∧ registry σ 0%nat = Some [] ∧ cursor σ 0%nat = Some (-5).
Proof. eexists. split; [vm_compute; reflexivity|]. by vm_compute. Qed.

(** A scope left by an exception: the model has a batch plate at
    dimension [-6], so the second index plate cannot be allocated; the
    allocation error leaves the scope, and on its way out the first index
    plate is released and the cursor reset. *)
Example scope_left_by_allocation_error :
  ∃ text σ,
    (h ← IndexPlatesMessenger.__init__ MultiWorldCounterfactual None;
     with_ (IndexPlatesMessenger.__enter__ h)
       (IndexPlatesMessenger.__exit__ h)
       (d ← IndepMessenger.__init__ IndepMessenger "data" 10 (-6);
        with_ (IndepMessenger.__enter__ d) (IndepMessenger.__exit__ d)
          (add_indices [("X", {[0; 1]}); ("Y", {[0; 1]})])))
      empty_runtime
    = Raise (ValueError text) σ
    ∧ history σ = [ Allocated "data" (-6);
                    Allocated (plate_name "X") (-5);
                    Freed "data" (-6);
                    Freed (plate_name "X") (-5) ]
    ∧ _PYRO_STACK σ = [] ∧ _DIM_ALLOCATOR σ = []
    ∧ registry σ 0%nat = Some [] ∧ cursor σ 0%nat = Some (-5).
Proof. do 2 eexists. split; [vm_compute; reflexivity|]. by vm_compute. Qed.

(** * Whole scopes, repeated calls and nested handlers *)

(** ** Construction *)

(** X1.  The constructor accepts a negative [first_available_dim] only
    ([-5] when none is given).  The object it creates can be entered at
    once: the scope is then active, with an empty registry, the cursor at
    the given dimension and the handlers that were installed before
    below it.  For a dimension that is not negative the constructor
    raises [AssertionError] and creates nothing. *)
Theorem init_then_enter σ c (first_available_dim : option Z) :
  NoDup (_PYRO_STACK σ) →
  (∀ r, r ∈ _PYRO_STACK σ → (r < length (heap σ))%nat) →
  (default (-5) first_available_dim < 0 →
   ∃ σ',
     (h ← IndexPlatesMessenger.__init__ c first_available_dim;
      IndexPlatesMessenger.__enter__ h) σ = Return (length (heap σ)) σ'
     ∧ allocator_inv σ' (length (heap σ)) c
         (default (-5) first_available_dim) [] (_PYRO_STACK σ) [])
  ∧ (0 ≤ default (-5) first_available_dim →
     IndexPlatesMessenger.__init__ c first_available_dim σ
     = Raise (AssertionError "") σ).
Proof.
  intros Hnd Hvalid.
  set (od := default (-5) first_available_dim).
  set (self := length (heap σ)).
  split.
  - intros Hneg.
    set (σ1 := {| _PYRO_STACK := _PYRO_STACK σ;
                  _DIM_ALLOCATOR := _DIM_ALLOCATOR σ;
                  heap := heap σ ++ [allocator_obj c od od []];
                  history := history σ |}).
    assert (Hinit : IndexPlatesMessenger.__init__ c first_available_dim σ
                    = Return self σ1).
    { unfold IndexPlatesMessenger.__init__, self, σ1, od in *.
      destruct first_available_dim as [d|]; simpl in *;
        [by rewrite bool_decide_eq_true_2|done]. }
    rewrite (bind_Return _ _ _ _ _ Hinit).
    assert (Hself : heap σ1 !! self = Some (allocator_obj c od od [])).
    { simpl. unfold self. by rewrite lookup_app_r, Nat.sub_diag by lia. }
    apply (enter_fresh_inv σ1 self c od Hself Hneg).
    + simpl. intros Hin. apply Hvalid in Hin. unfold self in Hin. lia.
    + done.
    + simpl. intros r Hr. rewrite length_app. apply Hvalid in Hr. lia.
  - intros Hpos. unfold IndexPlatesMessenger.__init__, od in *.
    destruct first_available_dim as [d|]; simpl in *;
      [by rewrite bool_decide_eq_false_2 by lia|lia].
Qed.

(** ** What a call leaves alone *)

Lemma padded_owner dims dim i :
  mjoin (padded dims dim !! i) = mjoin (dims !! i).
Proof.
  unfold padded.
  destruct (decide (i < length dims)%nat).
  - by rewrite lookup_app_l.
  - rewrite lookup_app_r by lia. rewrite (lookup_ge_None_2 dims i) by lia.
    destruct (replicate _ _ !! _) as [x|] eqn:E; [|done].
    apply lookup_replicate in E as [-> _]. done.
Qed.

Lemma axis_index_ne d d' :
  d < 0 → d' < 0 → d ≠ d' → axis_index d ≠ axis_index d'.
Proof. unfold axis_index. lia. Qed.

Lemma axis_owner_registered_frame
    σ self c od fad plates below rest name size d :
  d < 0 → fad < 0 → d ≠ fad →
  axis_owner (registered σ self c od fad plates below rest name size) d
  = axis_owner σ d.
Proof.
  intros Hd Hfad Hne. unfold axis_owner, registered. simpl.
  rewrite list_lookup_insert_ne by (by apply axis_index_ne).
  apply padded_owner.
Qed.

(** The loop of [_pyro_add_indices]: the axes it leaves alone and the
    allocations it makes. *)
Lemma add_indices_loop_frame self c od below above (indexset : IndexSet) :
  ∀ σ plates σ',
  allocator_inv σ self c od plates below above →
  NoDup indexset.*1 →
  (∀ name indices, (name, indices) ∈ indexset → indices ≠ ∅) →
  (∀ name indices size,
     (name, indices) ∈ indexset →
     plate_size σ self name = Some size → in_range indices size = true) →
  (∀ i, (i < length (new_items plates indexset))%nat →
        axis_owner σ (od - Z.of_nat (length plates) - Z.of_nat i) = None) →
  (∀ name, name ∈ (new_items plates indexset).*1 →
           Some (plate_name name) ∉ _DIM_ALLOCATOR σ) →
  for_each indexset
    (λ '(name, indices), IndexPlatesMessenger.add_index self name indices)
    σ = Return tt σ' →
  (∀ d, d < 0 →
        ¬ (od - Z.of_nat (length plates)
             - Z.of_nat (length (new_items plates indexset)) < d
           ≤ od - Z.of_nat (length plates)) →
        axis_owner σ' d = axis_owner σ d)
  ∧ history σ'
    = history σ
      ++ imap (λ i item,
                 Allocated (plate_name item.1)
                   (od - Z.of_nat (length plates) - Z.of_nat i))
           (new_items plates indexset).
Proof.
  induction indexset as [|[n s] rest IH];
    intros σ plates σ' Hinv Hnd Hne Hrange Hfree Hnames Hrun.
  - simpl in Hrun. injection Hrun as <-. simpl. by rewrite app_nil_r.
  - rewrite fmap_cons in Hnd. apply NoDup_cons in Hnd as [Hn Hnd].
    assert (Hs : s ≠ ∅) by (apply (Hne n); left).
    simpl in Hrun.
    destruct (dict_get n plates) as [p|] eqn:Hget.
    + destruct (dict_get_Some_lookup _ _ _ Hget) as [j Hj].
      destruct (plate_of_inv _ _ _ _ _ _ _ _ _ _ Hinv Hj)
        as (size & Hp & Hplate).
      assert (Hok : in_range s size = true).
      { apply (Hrange n s size); [left|].
        unfold plate_size. by rewrite Hplate. }
      pose proof (add_index_existing σ self c od _ plates n s p _ _ _ size
                    (inv_self _ _ _ _ _ _ _ Hinv) Hget Hp Hs) as Hstep.
      rewrite Hok in Hstep.
      rewrite (bind_Return _ _ _ _ _ Hstep) in Hrun.
      assert (Hnews : new_items plates ((n, s) :: rest)
                      = new_items plates rest).
      { unfold new_items. rewrite filter_cons. simpl. by rewrite Hget. }
      rewrite Hnews in *.
      apply IH; try done.
      * intros name indices Hin. apply (Hne name). by right.
      * intros name indices sz Hin Hsz.
        apply (Hrange name indices sz); [by right|done].
    + destruct (min_max_nonempty _ Hs) as (mn & mx & Hmn & Hmx).
      assert (Hnews : new_items plates ((n, s) :: rest)
                      = (n, s) :: new_items plates rest).
      { unfold new_items. rewrite filter_cons. simpl. by rewrite Hget. }
      rewrite Hnews in *.
      set (fad := od - Z.of_nat (length plates)) in *.
      pose proof (inv_neg _ _ _ _ _ _ _ Hinv) as Hod.
      assert (Hfad : fad < 0) by (unfold fad; lia).
      assert (Hfree0 : axis_owner σ fad = None).
      { specialize (Hfree 0%nat). simpl in Hfree.
        replace fad with (fad - 0) by lia. apply Hfree. lia. }
      assert (Hname0 : Some (plate_name n) ∉ _DIM_ALLOCATOR σ).
      { apply Hnames. simpl. left. }
      pose proof (add_index_new σ self c od fad plates below
                    (plates.*2 ++ above) n s mx
                    (inv_self _ _ _ _ _ _ _ Hinv)
                    (inv_stack _ _ _ _ _ _ _ Hinv)
                    (inv_self_not_below _ _ _ _ _ _ _ Hinv)
                    (inv_valid _ _ _ _ _ _ _ Hinv)
                    Hget Hmx Hfad Hfree0 Hname0) as Hstep.
      rewrite (bind_Return _ _ _ _ _ Hstep) in Hrun.
      set (size := Z.max (mx + 1) (Py.len s)) in *.
      set (σ1 := registered σ self c od fad plates below
                   (plates.*2 ++ above) n size) in *.
      pose proof (registered_inv σ self c od plates below above n size
                    Hinv Hget) as Hinv1.
      fold fad in Hinv1. fold σ1 in Hinv1.
      assert (Hnews1 : new_items (plates ++ [(n, length (heap σ))]) rest
                       = new_items plates rest)
        by (by apply new_items_app_ne).
      destruct (IH σ1 (plates ++ [(n, length (heap σ))]) σ') as
        [Hown Hhist]; try done.
      * intros name indices Hin. apply (Hne name). by right.
      * intros name indices sz Hin Hsz.
        assert (Hnn : name ≠ n).
        { intros ->. apply Hn. apply list_elem_of_fmap.
          by exists (n, indices). }
        apply (Hrange name indices sz); [by right|].
        unfold plate_size, plate_of, registry in *.
        rewrite (inv_self _ _ _ _ _ _ _ Hinv1) in Hsz.
        rewrite (inv_self _ _ _ _ _ _ _ Hinv). simpl in *.
        rewrite dict_get_app_ne in Hsz by done.
        destruct (dict_get name plates) as [q|] eqn:Hq; [|done].
        simpl in *.
        destruct (dict_get_Some_lookup _ _ _ Hq) as [j Hj].
        destruct (inv_plate_ref _ _ _ _ _ _ _ _ _ _ Hinv Hj) as [Hqs Hql].
        rewrite list_lookup_insert_ne in Hsz by done.
        by rewrite lookup_app_l in Hsz by done.
      * rewrite Hnews1. rewrite length_app. simpl.
        intros i Hi.
        replace (od - Z.of_nat (length plates + 1) - Z.of_nat i)
          with (fad - Z.of_nat (S i)) by (unfold fad; lia).
        apply axis_owner_registered_ne; [lia|done|lia|].
        unfold fad. apply Hfree. simpl. lia.
      * rewrite Hnews1. intros name Hname.
        apply name_free_registered.
        -- intros ->. apply Hn.
           apply list_elem_of_fmap in Hname as ([k v] & -> & Hkv).
           apply list_elem_of_filter in Hkv as [_ Hkv].
           apply list_elem_of_fmap. by exists (k, v).
        -- apply Hnames. simpl. by right.
      * rewrite Hnews1, length_app in *. split.
        -- intros d Hd Hout. cbn [length] in *.
           rewrite Hown; [|done|lia].
           apply axis_owner_registered_frame; [done|done|lia].
        -- rewrite Hhist. cbn [imap history σ1 registered].
           rewrite <- app_assoc. cbn [app].
           do 2 f_equal.
           ++ f_equal. lia.
           ++ apply imap_ext. intros i x _. cbn. f_equal.
              cbn [length]. lia.
Qed.

(** X2.  A call of [add_indices] changes the owner of no axis but the
    ones it allocates: with [k] new names and the cursor at [fad], every
    axis outside [fad - k + 1 .. fad] is held by the plate that held it
    before, or by none; and the call allocates the axes of the new names,
    in the order of the index set, and releases nothing. *)
Theorem add_indices_touches_no_other_axis
    σ self c od plates below above m (indexset : IndexSet) fad :
  allocator_inv σ self c od plates below above →
  cursor σ self = Some fad →
  msg.args m = [VIndexSet indexset] →
  NoDup indexset.*1 →
  (∀ name indices, (name, indices) ∈ indexset → indices ≠ ∅) →
  (∀ name indices size,
     (name, indices) ∈ indexset →
     plate_size σ self name = Some size → in_range indices size = true) →
  (∀ i, (i < length (new_items plates indexset))%nat →
        axis_owner σ (fad - Z.of_nat i) = None) →
  (∀ name, name ∈ (new_items plates indexset).*1 →
           Some (plate_name name) ∉ _DIM_ALLOCATOR σ) →
  ∃ σ',
    IndexPlatesMessenger._pyro_add_indices self m σ = Return m σ'
    ∧ (∀ d, d < 0 →
            ¬ (fad - Z.of_nat (length (new_items plates indexset)) < d
               ≤ fad) →
            axis_owner σ' d = axis_owner σ d)
    ∧ history σ'
      = history σ
        ++ imap (λ i item, Allocated (plate_name item.1) (fad - Z.of_nat i))
             (new_items plates indexset).
Proof.
  intros Hinv Hcur Hargs Hnd Hne Hrange Hfree Hnames.
  rewrite (cursor_inv _ _ _ _ _ _ _ Hinv) in Hcur. injection Hcur as <-.
  destruct (add_indices_loop self c od below above indexset σ plates
              Hinv Hnd Hne Hrange Hfree Hnames) as (σ' & Hrun & _).
  destruct (add_indices_loop_frame self c od below above indexset σ plates
              σ' Hinv Hnd Hne Hrange Hfree Hnames Hrun) as [Hown Hhist].
  exists σ'. split_and!; [|done|done].
  unfold IndexPlatesMessenger._pyro_add_indices. rewrite Hargs.
  by rewrite (bind_Return _ _ _ _ _ Hrun).
Qed.

Lemma pop_trailing_none_trimmed l :
  trimmed (_DimAllocator.pop_trailing_none l).
Proof.
  unfold trimmed. induction l as [|x l IH]; [done|]. simpl.
  destruct (_DimAllocator.pop_trailing_none l) as [|z r] eqn:E.
  - by destruct x.
  - assert (last (x :: z :: r) = last (z :: r)) as Hl by done.
    destruct x; by rewrite Hl.
Qed.

Lemma trimmed_all_free l :
  trimmed l → (∀ i, mjoin (l !! i) = None) → l = [].
Proof.
  intros Ht Hfree. destruct l as [|x l] using rev_ind; [done|].
  exfalso. unfold trimmed in Ht. rewrite last_snoc in Ht.
  specialize (Hfree (length l)).
  rewrite lookup_app_r, Nat.sub_diag in Hfree by lia. simpl in Hfree.
  by destruct x.
Qed.

Lemma trimmed_tail x l : l ≠ [] → trimmed (x :: l) → trimmed l.
Proof. unfold trimmed. destruct l; [done|]. done. Qed.

(** Two trimmed stacks of the dimension allocator with the same owners
    are equal. *)
Lemma trimmed_ext l1 l2 :
  trimmed l1 → trimmed l2 →
  (∀ i, mjoin (l1 !! i) = mjoin (l2 !! i)) → l1 = l2.
Proof.
  revert l2. induction l1 as [|x l1 IH]; intros l2 H1 H2 Hext.
  - symmetry. apply trimmed_all_free; [done|].
    intros i. by rewrite <- Hext.
  - destruct l2 as [|y l2].
    + apply trimmed_all_free; [done|]. intros i. by rewrite Hext.
    + assert (Hxy : x = y).
      { specialize (Hext 0%nat). simpl in Hext.
        destruct x as [x|], y as [y|]; simpl in Hext; congruence. }
      subst y.
      assert (Htl : ∀ i, mjoin (l1 !! i) = mjoin (l2 !! i))
        by (intros i; apply (Hext (S i))).
      f_equal.
      destruct l1 as [|x1 l1'].
      * symmetry. destruct l2 as [|y2 l2']; [done|].
        apply trimmed_all_free; [by eapply trimmed_tail|].
        intros i. by rewrite <- Htl.
      * destruct l2 as [|y2 l2'].
        -- apply trimmed_all_free; [by eapply trimmed_tail|].
           intros i. by rewrite Htl.
        -- apply IH; [by eapply trimmed_tail|by eapply trimmed_tail|done].
Qed.

(** The loop of [__exit__]: the axes it leaves alone. *)
Lemma exit_loop_frame self c od fad below exc :
  ∀ plates σ above σ',
  allocator_wf σ self c od fad plates below above →
  (exc = None → above = []) →
  for_each (reverse plates.*1)
    (λ name, plate ← IndexPlatesMessenger.plates_pop self name;
             IndepMessenger.__exit__ plate exc) σ
  = Return tt σ' →
  (∀ d, d < 0 → ¬ (od - Z.of_nat (length plates) < d ≤ od) →
        axis_owner σ' d = axis_owner σ d)
  ∧ (plates ≠ [] → trimmed (_DIM_ALLOCATOR σ')).
Proof.
  induction plates as [|[n p] plates IH] using rev_ind;
    intros σ above σ' Hwf Habove Hrun.
  - simpl in Hrun. injection Hrun as <-. done.
  - rewrite fmap_app, reverse_app in Hrun. simpl in Hrun.
    destruct (exit_step σ self c od fad plates n p below above exc
                Hwf Habove) as [Hstep Hwf1].
    rewrite (bind_Return _ _ _ _ _ Hstep) in Hrun.
    match type of Hwf1 with
    | allocator_wf ?s _ _ _ _ _ _ _ => set (σ1 := s) in *
    end.
    pose proof (wf_neg _ _ _ _ _ _ _ _ Hwf) as Hod.
    destruct (IH σ1 [] σ' Hwf1 (λ _, eq_refl) Hrun) as [Hown Htrim].
    split.
    + intros d Hd Hout. rewrite length_app in Hout. cbn [length] in Hout.
      rewrite Hown; [|done|lia].
      unfold axis_owner. subst σ1. simpl.
      rewrite pop_trailing_none_owner.
      rewrite list_lookup_insert_ne; [done|].
      apply axis_index_ne; lia.
    + intros _. destruct plates as [|x plates].
      * simpl in Hrun. injection Hrun as <-. subst σ1. simpl.
        apply pop_trailing_none_trimmed.
      * by apply Htrim.
Qed.

(** [__exit__] from the state of an active allocator: the state it
    leaves. *)
Lemma exit_state σ self c od plates below above exc :
  allocator_inv σ self c od plates below above →
  (exc = None → above = []) →
  ∃ σ',
    IndexPlatesMessenger.__exit__ self exc σ = Return tt σ'
    ∧ heap σ' !! self = Some (allocator_obj c od od [])
    ∧ _PYRO_STACK σ' = below
    ∧ (self ∉ below)
    ∧ NoDup below
    ∧ (∀ r, r ∈ below → (r < length (heap σ'))%nat)
    ∧ history σ' = history σ ++ released od plates
    ∧ (∀ d, d < 0 →
            axis_owner σ' d
            = if bool_decide (od - Z.of_nat (length plates) < d ≤ od)
              then None else axis_owner σ d)
    ∧ (plates ≠ [] ∨ trimmed (_DIM_ALLOCATOR σ) →
       trimmed (_DIM_ALLOCATOR σ')).
Proof.
  intros Hinv Habove.
  destruct (exit_loop self c od _ below exc plates σ above Hinv Habove)
    as (σ1 & above' & Hrun & Hwf & Habove' & Hhist & _ & Hfreed).
  destruct (exit_loop_frame self c od _ below exc plates σ above σ1
              Hinv Habove Hrun) as [Hown Htrim].
  destruct Hwf as [Hself Hneg Hstack Hnodup Hvalid _ _].
  simpl in Hstack.
  assert (Hnd : NoDup below ∧ self ∉ below).
  { rewrite Hstack in Hnodup. apply NoDup_app in Hnodup as (Hb & Hd & _).
    split; [done|]. intros Hin. apply (Hd self Hin). left. }
  destruct Hnd as [Hndb Hbelow].
  assert (Hlt : (self < length (heap σ1))%nat)
    by (by apply lookup_lt_Some in Hself).
  eexists. split.
  - unfold IndexPlatesMessenger.__exit__.
    rewrite (bind_Return _ _ _ _ _
               (index_plates_fields_Some _ _ _ _ _ _
                  (inv_self _ _ _ _ _ _ _ Hinv))).
    cbn beta iota. rewrite (bind_Return _ _ _ _ _ Hrun).
    rewrite (bind_Return _ _ _ _ _
               (index_plates_fields_Some _ _ _ _ _ _ Hself)).
    cbn beta iota.
    erewrite bind_Return; last by (apply set_fields_Some; exact Hself).
    apply messenger_exit with (post := above'); simpl; done.
  - simpl. rewrite list_lookup_insert_eq by done.
    split_and!; try done.
    + intros r Hr. rewrite length_insert. apply Hvalid. rewrite Hstack.
      apply elem_of_app. by left.
    + intros d Hd. case_bool_decide as Hin.
      * replace d with (od - Z.of_nat (Z.to_nat (od - d))) by lia.
        apply (Hfreed (Z.to_nat (od - d))). lia.
      * by apply Hown.
    + intros [Hne|Ht]; [by apply Htrim|].
      destruct plates as [|x plates]; [|by apply Htrim].
      simpl in Hrun. by injection Hrun as <-.
Qed.

(** X3.  Leaving the scope of an allocator, with or without an exception,
    changes the owner of no axis but the ones its plates hold: those
    become free, every other axis is held by the plate that held it
    before, or by none.  Afterwards the stack of Pyro's dimension
    allocator does not end in an unused position, when a plate was
    released or when that was so before. *)
Theorem exit_touches_no_other_axis σ self c od plates below above exc :
  allocator_inv σ self c od plates below above →
  (exc = None → above = []) →
  ∃ σ',
    IndexPlatesMessenger.__exit__ self exc σ = Return tt σ'
    ∧ (∀ d, d < 0 →
            axis_owner σ' d
            = if bool_decide (od - Z.of_nat (length plates) < d ≤ od)
              then None else axis_owner σ d)
    ∧ (plates ≠ [] ∨ trimmed (_DIM_ALLOCATOR σ) →
       trimmed (_DIM_ALLOCATOR σ')).
Proof.
  intros Hinv Habove.
  destruct (exit_state _ _ _ _ _ _ _ _ Hinv Habove)
    as (σ' & Hexit & _ & _ & _ & _ & _ & _ & Hown & Htrim).
  by exists σ'.
Qed.

(** ** Scopes *)

(** X4.  An allocator can be used for one scope after the other: after
    [__exit__], with or without an exception, [__enter__] succeeds again
    and the scope starts with an empty registry and the cursor at the
    original dimension, above the handlers that were below it. *)
Theorem exit_then_enter σ self c od plates below above exc :
  allocator_inv σ self c od plates below above →
  (exc = None → above = []) →
  ∃ σ' σ'',
    IndexPlatesMessenger.__exit__ self exc σ = Return tt σ'
    ∧ IndexPlatesMessenger.__enter__ self σ' = Return self σ''
    ∧ allocator_inv σ'' self c od [] below [].
Proof.
  intros Hinv Habove.
  destruct (exit_state _ _ _ _ _ _ _ _ Hinv Habove)
    as (σ' & Hexit & Hself & Hstack & Hnotin & Hnd & Hvalid & _).
  destruct (enter_fresh_inv σ' self c od Hself (inv_neg _ _ _ _ _ _ _ Hinv))
    as (σ'' & Henter & Hinv''); rewrite ?Hstack; try done.
  exists σ', σ''. rewrite Hstack in Hinv''. done.
Qed.

Lemma allocated_fresh_plates {B} (f : nat → string → B) (news : IndexSet)
    start :
  imap (λ i (item : string * ref), f i item.1) (fresh_plates news start)
  = imap (λ i (item : string * gset Z), f i item.1) news.
Proof.
  revert f start. induction news as [|x news IH]; intros f start; [done|].
  unfold fresh_plates in *. simpl. f_equal.
  apply (IH (λ i, f (S i))).
Qed.

Lemma new_items_nil (indexset : IndexSet) : new_items [] indexset = indexset.
Proof.
  unfold new_items. induction indexset as [|[n s] l IH]; [done|].
  rewrite filter_cons_True by done. by f_equal.
Qed.

(** X5.  A whole scope, [with h: add_indices(indexset)], for an allocator
    [h] that is not active, among handlers that have no hook for the
    message, and an index set of new names: the call returns, and the
    scope leaves the handler stack as it was, every axis with the owner
    it had, the stack of Pyro's dimension allocator unchanged (when it
    did not end in an unused position), and the allocator as it was
    before the scope.  The axes of the names were
    allocated in the order of the index set and released in the reverse
    order. *)
Theorem scope_round_trip σ self c od (indexset : IndexSet) :
  heap σ !! self = Some (allocator_obj c od od []) →
  c = IndexPlatesMessenger ∨ c = MultiWorldCounterfactual
  ∨ c = TwinWorldCounterfactual →
  od < 0 →
  self ∉ _PYRO_STACK σ →
  NoDup (_PYRO_STACK σ) →
  Forall (bystander σ) (_PYRO_STACK σ) →
  NoDup indexset.*1 →
  (∀ name indices, (name, indices) ∈ indexset → indices ≠ ∅) →
  (∀ i, (i < length indexset)%nat → axis_owner σ (od - Z.of_nat i) = None) →
  (∀ name, name ∈ indexset.*1 →
           Some (plate_name name) ∉ _DIM_ALLOCATOR σ) →
  ∃ σ',
    with_ (IndexPlatesMessenger.__enter__ self)
      (IndexPlatesMessenger.__exit__ self)
      (add_indices indexset) σ
    = Return (VIndexSet indexset) σ'
    ∧ _PYRO_STACK σ' = _PYRO_STACK σ
    ∧ (∀ d, d < 0 → axis_owner σ' d = axis_owner σ d)
    ∧ (trimmed (_DIM_ALLOCATOR σ) → _DIM_ALLOCATOR σ' = _DIM_ALLOCATOR σ)
    ∧ heap σ' !! self = Some (allocator_obj c od od [])
    ∧ history σ'
      = history σ
        ++ allocated od (fresh_plates indexset (length (heap σ)))
        ++ released od (fresh_plates indexset (length (heap σ))).
Proof.
  intros Hself Hc Hneg Hnotin Hnd Hby Hnames Hne Hfree Hpyro.
  assert (Hvalid : ∀ r, r ∈ _PYRO_STACK σ → (r < length (heap σ))%nat).
  { intros r Hr.
    destruct (proj1 (Forall_forall _ _) Hby r Hr) as (o & Ho & _).
    by apply lookup_lt_Some in Ho. }
  destruct (enter_fresh_inv σ self c od Hself Hneg Hnotin Hnd Hvalid)
    as (σ0 & Henter & Hinv0).
  assert (Hσ0 : σ0 = {| _PYRO_STACK := _PYRO_STACK σ ++ [self];
                        _DIM_ALLOCATOR := _DIM_ALLOCATOR σ;
                        heap := heap σ; history := history σ |}).
  { rewrite (enter_cases σ self c od od [] Hself) in Henter.
    rewrite !bool_decide_eq_true_2 in Henter by done.
    rewrite bool_decide_eq_false_2 in Henter by done.
    simpl in Henter. by injection Henter as <-. }
  assert (Hpre :
    (∀ name indices size,
       (name, indices) ∈ indexset →
       plate_size σ0 self name = Some size → in_range indices size = true)
    ∧ (∀ i, (i < length (new_items [] indexset))%nat →
            axis_owner σ0 (od - Z.of_nat (length (@nil (string * ref)))
                           - Z.of_nat i) = None)
    ∧ (∀ name, name ∈ (new_items [] indexset).*1 →
               Some (plate_name name) ∉ _DIM_ALLOCATOR σ0)).
  { rewrite new_items_nil. subst σ0. split_and!.
    - intros name indices size _ Hsz.
      unfold plate_size, plate_of, registry in Hsz. simpl in Hsz.
      by rewrite Hself in Hsz.
    - intros i Hi. unfold axis_owner. cbn [_DIM_ALLOCATOR length].
      replace (od - Z.of_nat 0 - Z.of_nat i) with (od - Z.of_nat i) by lia.
      by apply Hfree.
    - done. }
  destruct Hpre as (Hrange0 & Hfree0 & Hpyro0).
  destruct (add_indices_loop self c od _ _ indexset σ0 [] Hinv0 Hnames Hne
              Hrange0 Hfree0 Hpyro0) as (σ1 & Hrun & Hinv1 & Hframe & _).
  destruct (add_indices_loop_frame self c od _ _ indexset σ0 [] σ1 Hinv0
              Hnames Hne Hrange0 Hfree0 Hpyro0 Hrun) as [Hown1 Hhist1].
  rewrite new_items_nil in *. simpl in Hinv1, Hown1, Hhist1.
  assert (Hlen0 : length (heap σ0) = length (heap σ)) by (by subst σ0).
  rewrite Hlen0 in Hinv1.
  set (plates := fresh_plates indexset (length (heap σ))) in *.
  assert (Hlen : length plates = length indexset)
    by apply fresh_plates_length.
  destruct (exit_state σ1 self c od plates _ [] None Hinv1 (λ _, eq_refl))
    as (σ2 & Hexit & Hself2 & Hstack2 & _ & _ & _ & Hhist2 & Hown2 & Htrim2).
  assert (Hbody : add_indices indexset σ0 = Return (VIndexSet indexset) σ1).
  { eapply (add_indices_dispatch σ0 σ1 self c od []); try done.
    - rewrite app_nil_r. by subst σ0.
    - eapply frame_same_classes; [|exact (inv_self _ _ _ _ _ _ _ Hinv1)|done].
      exact (inv_self _ _ _ _ _ _ _ Hinv0). }
  assert (Howner : ∀ d, d < 0 → axis_owner σ2 d = axis_owner σ d).
  { intros d Hd. rewrite (Hown2 d Hd), Hlen.
    case_bool_decide as Hin.
    - symmetry.
      replace d with (od - Z.of_nat (Z.to_nat (od - d))) by lia.
      apply Hfree. lia.
    - rewrite Hown1 by (done || lia). by subst σ0. }
  exists σ2. split_and!.
  - unfold with_. rewrite Henter, Hbody.
    by rewrite (bind_Return _ _ _ _ _ Hexit).
  - done.
  - done.
  - intros Ht. apply trimmed_ext; [|done|].
    + apply Htrim2. destruct indexset as [|item rest].
      * right. simpl in Hrun. injection Hrun as <-. by subst σ0.
      * left. intros Hnil. by rewrite Hnil in Hlen.
    + intros i. specialize (Howner (-1 - Z.of_nat i)).
      unfold axis_owner, axis_index in Howner.
      replace (Z.to_nat (-1 - (-1 - Z.of_nat i))) with i in Howner by lia.
      apply Howner. lia.
  - done.
  - rewrite Hhist2, Hhist1. subst σ0. simpl. rewrite <- app_assoc.
    do 2 f_equal. unfold allocated, plates.
    rewrite (allocated_fresh_plates
               (λ i n, Allocated (plate_name n) (od - Z.of_nat i))).
    apply imap_ext. intros i x _. simpl. f_equal. lia.
Qed.

(** ** Registration and queries *)

Lemma get_index_plates_inv σ self c od plates below above q :
  allocator_inv σ self c od plates below above →
  ∃ frames,
    registry_frames σ self = Some frames
    ∧ IndexPlatesMessenger._pyro_get_index_plates self q σ
      = Return (msg.set_stop true
                  (msg.set_done true (msg.set_value (VFrames frames) q))) σ.
Proof.
  intros Hinv.
  destruct (inv_registry_frames _ _ _ _ _ _ _ Hinv) as (frames & Hf & _).
  exists frames. split; [done|].
  unfold registry_frames in Hf.
  rewrite (registry_inv _ _ _ _ _ _ _ Hinv) in Hf. simpl in Hf.
  unfold IndexPlatesMessenger._pyro_get_index_plates.
  rewrite (bind_Return _ _ _ _ _
             (index_plates_fields_Some _ _ _ _ _ _
                (inv_self _ _ _ _ _ _ _ Hinv))).
  cbn beta iota.
  by rewrite (bind_Return _ _ _ _ _ (frames_of_mapM _ _ _ Hf)).
Qed.

(** X6.  What [add_indices] registers, [get_index_plates] reports: after
    the call the allocator answers the query with the entries it reported
    before ([old]), unchanged and in their order, followed by one entry
    for each new name, in the order of the index set, with the axis
    [fad - i] for the [i]-th of them and the size
    [max(max(indices) + 1, len(indices))]. *)
Theorem registered_names_are_reported
    σ self c od plates below above m q (indexset : IndexSet) fad old :
  allocator_inv σ self c od plates below above →
  cursor σ self = Some fad →
  registry_frames σ self = Some old →
  msg.args m = [VIndexSet indexset] →
  NoDup indexset.*1 →
  (∀ name indices, (name, indices) ∈ indexset → indices ≠ ∅) →
  (∀ name indices size,
     (name, indices) ∈ indexset →
     plate_size σ self name = Some size → in_range indices size = true) →
  (∀ i, (i < length (new_items plates indexset))%nat →
        axis_owner σ (fad - Z.of_nat i) = None) →
  (∀ name, name ∈ (new_items plates indexset).*1 →
           Some (plate_name name) ∉ _DIM_ALLOCATOR σ) →
  ∃ σ',
    IndexPlatesMessenger._pyro_add_indices self m σ = Return m σ'
    ∧ IndexPlatesMessenger._pyro_get_index_plates self q σ'
      = Return
          (msg.set_stop true
             (msg.set_done true
                (msg.set_value
                   (VFrames (old ++ new_frames fad
                                      (new_items plates indexset)))
                   q))) σ'.
Proof.
  intros Hinv Hcur Hold Hargs Hnd Hne Hrange Hfree Hnames.
  rewrite (cursor_inv _ _ _ _ _ _ _ Hinv) in Hcur. injection Hcur as <-.
  destruct (add_indices_loop self c od below above indexset σ plates
              Hinv Hnd Hne Hrange Hfree Hnames)
    as (σ' & Hrun & Hinv' & Hframe & Hsizes).
  exists σ'. split.
  { unfold IndexPlatesMessenger._pyro_add_indices. rewrite Hargs.
    by rewrite (bind_Return _ _ _ _ _ Hrun). }
  destruct (get_index_plates_inv _ _ _ _ _ _ _ q Hinv')
    as (frames & Hf & Hget).
  rewrite Hget. do 5 f_equal.
  destruct (inv_registry_frames _ _ _ _ _ _ _ Hinv')
    as (frames' & Hf' & Hlen' & Hlook').
  rewrite Hf in Hf'. injection Hf' as <-.
  destruct (inv_registry_frames _ _ _ _ _ _ _ Hinv)
    as (old' & Ho' & Hleno & Hlooko).
  rewrite Hold in Ho'. injection Ho' as <-.
  set (news := new_items plates indexset) in *.
  rewrite length_app, fresh_plates_length in Hlen'.
  apply list_eq. intros i.
  destruct (decide (i < length plates)%nat) as [Hi|Hi].
  - (* a plate that was there before *)
    rewrite lookup_app_l by lia.
    destruct (lookup_lt_is_Some_2 plates i Hi) as [[n p] Hp].
    destruct (Hlooko i n p Hp) as (size & Hsz & ->).
    destruct (Hlook' i n p) as (size' & Hsz' & ->).
    { by rewrite lookup_app_l. }
    do 3 f_equal.
    destruct (plate_of_inv _ _ _ _ _ _ _ _ _ _ Hinv Hp) as (s1 & Hp1 & Hpo1).
    destruct (plate_of_inv _ _ _ _ (plates ++ _) _ _ _ _ _ Hinv'
                (lookup_app_l_Some _ _ _ _ Hp)) as (s2 & Hp2 & Hpo2).
    unfold plate_size in Hsz, Hsz'. rewrite Hpo1 in Hsz. rewrite Hpo2 in Hsz'.
    simpl in Hsz, Hsz'. injection Hsz as <-. injection Hsz' as <-.
    destruct (inv_plate_ref _ _ _ _ _ _ _ _ _ _ Hinv Hp) as [Hps _].
    rewrite (Hframe p _ Hps Hp1) in Hp2. by injection Hp2.
  - (* a plate of a new name *)
    rewrite lookup_app_r by lia. rewrite Hleno.
    destruct (decide (i - length plates < length news)%nat) as [Hj|Hj].
    + destruct (lookup_lt_is_Some_2 news _ Hj) as [[n s] Hn].
      unfold new_frames. rewrite list_lookup_imap, Hn. simpl.
      destruct (Hlook' i n (length (heap σ) + (i - length plates))%nat)
        as (size' & Hsz' & ->).
      { rewrite lookup_app_r by lia. by eapply fresh_plates_lookup. }
      unfold index_frame. do 3 f_equal; [lia|].
      destruct (plate_of_inv _ _ _ _ (plates ++ _) _ _ i n
                  (length (heap σ) + (i - length plates))%nat Hinv')
        as (s2 & Hp2 & Hpo2).
      { rewrite lookup_app_r by lia. by eapply fresh_plates_lookup. }
      unfold plate_size in Hsz'. rewrite Hpo2 in Hsz'. simpl in Hsz'.
      injection Hsz' as <-.
      rewrite (Hsizes _ _ _ Hn) in Hp2. by injection Hp2.
    + rewrite lookup_ge_None_2 by lia. symmetry.
      apply lookup_ge_None_2. unfold new_frames. rewrite length_imap. lia.
Qed.

(** A set of integers has at most as many elements as the interval from
    its smallest to its largest element. *)
Lemma len_le_span (s : gset Z) mn mx :
  Py.min s = Some mn → Py.max s = Some mx → Py.len s ≤ mx - mn + 1.
Proof.
  intros Hmn Hmx.
  destruct (min_spec _ _ Hmn) as [Hin Hlo].
  destruct (max_spec _ _ Hmx) as [_ Hhi].
  assert (Hsub : s ⊆ list_to_set (seqZ mn (mx - mn + 1))).
  { intros x Hx. apply elem_of_list_to_set, elem_of_seqZ.
    specialize (Hlo x Hx). specialize (Hhi x Hx). lia. }
  apply subseteq_size in Hsub.
  rewrite size_list_to_set in Hsub by apply NoDup_seqZ.
  rewrite length_seqZ in Hsub. unfold Py.len.
  specialize (Hlo mx). specialize (Hhi mn Hin). lia.
Qed.

(** The range check against the size that the same indices gave the
    plate. *)
Lemma in_range_new_size (s : gset Z) :
  s ≠ ∅ → in_range s (new_size s) = starts_low s.
Proof.
  intros Hs. destruct (min_max_nonempty _ Hs) as (mn & mx & Hmn & Hmx).
  unfold in_range, new_size, starts_low. rewrite Hmn, Hmx.
  pose proof (len_le_span _ _ _ Hmn Hmx).
  destruct (bool_decide (0 ≤ mn)) eqn:H0; [|done].
  destruct (bool_decide (mn ≤ Py.len s - 1)) eqn:H1; [|done].
  apply bool_decide_eq_true in H0.
  rewrite !bool_decide_eq_true_2 by lia. done.
Qed.

Lemma forallb_filter_split {A} (g h : A → bool) (P : A → Prop)
    `{∀ x, Decision (P x)} (l : list A) :
  (∀ x, x ∈ l → g x = if decide (P x) then h x else true) →
  forallb g l = forallb h (filter P l).
Proof.
  induction l as [|x l IH]; intros Hg; [done|].
  rewrite filter_cons. simpl. rewrite (Hg x) by left.
  rewrite IH by (intros y Hy; apply Hg; by right).
  by destruct (decide (P x)).
Qed.

(** X7.  Repeating a call of [add_indices] that has registered new names:
    the second call finds a plate for every name, and it returns, without
    any change, exactly when the indices of every name that was new start
    low ([0 <= min(indices) <= len(indices) - 1]); otherwise it raises
    [AssertionError], again without any change.  So [{0, 1}] and [{1, 2}]
    can be added again, [{1}] and [{2, 3}] cannot, although the first
    call has made a plate that holds them. *)
Theorem add_indices_again
    σ self c od plates below above m (indexset : IndexSet) fad :
  allocator_inv σ self c od plates below above →
  cursor σ self = Some fad →
  msg.args m = [VIndexSet indexset] →
  NoDup indexset.*1 →
  (∀ name indices, (name, indices) ∈ indexset → indices ≠ ∅) →
  (∀ name indices size,
     (name, indices) ∈ indexset →
     plate_size σ self name = Some size → in_range indices size = true) →
  (∀ i, (i < length (new_items plates indexset))%nat →
        axis_owner σ (fad - Z.of_nat i) = None) →
  (∀ name, name ∈ (new_items plates indexset).*1 →
           Some (plate_name name) ∉ _DIM_ALLOCATOR σ) →
  ∃ σ' text,
    IndexPlatesMessenger._pyro_add_indices self m σ = Return m σ'
    ∧ IndexPlatesMessenger._pyro_add_indices self m σ'
      = if forallb (λ item, starts_low item.2) (new_items plates indexset)
        then Return m σ'
        else Raise (AssertionError text) σ'.
Proof.
  intros Hinv Hcur Hargs Hnd Hne Hrange Hfree Hnames.
  rewrite (cursor_inv _ _ _ _ _ _ _ Hinv) in Hcur. injection Hcur as <-.
  destruct (add_indices_loop self c od below above indexset σ plates
              Hinv Hnd Hne Hrange Hfree Hnames)
    as (σ' & Hrun & Hinv' & Hframe & Hsizes).
  set (news := new_items plates indexset) in *.
  set (plates' := plates ++ fresh_plates news (length (heap σ))) in *.
  (* the sizes of the plates after the first call *)
  assert (Hold : ∀ name p, dict_get name plates = Some p →
                 plate_size σ' self name = plate_size σ self name).
  { intros name p Hget.
    destruct (dict_get_Some_lookup _ _ _ Hget) as [j Hj].
    destruct (plate_of_inv _ _ _ _ _ _ _ _ _ _ Hinv Hj) as (s1 & Hp1 & Hpo1).
    destruct (plate_of_inv _ _ _ _ plates' _ _ _ _ _ Hinv'
                (lookup_app_l_Some _ _ _ _ Hj)) as (s2 & Hp2 & Hpo2).
    unfold plate_size. rewrite Hpo1, Hpo2. simpl.
    destruct (inv_plate_ref _ _ _ _ _ _ _ _ _ _ Hinv Hj) as [Hps _].
    rewrite (Hframe _ _ Hps Hp1) in Hp2. by injection Hp2 as <-. }
  assert (Hnew : ∀ name indices, (name, indices) ∈ news →
                 plate_size σ' self name = Some (new_size indices)).
  { intros name indices Hin.
    apply list_elem_of_lookup_1 in Hin as [i Hi].
    destruct (plate_of_inv _ _ _ _ plates' _ _ (length plates + i)%nat name
                (length (heap σ) + i)%nat Hinv') as (s2 & Hp2 & Hpo2).
    { unfold plates'. rewrite lookup_app_r by lia.
      replace (length plates + i - length plates)%nat with i by lia.
      by eapply fresh_plates_lookup. }
    unfold plate_size. rewrite Hpo2. simpl.
    rewrite (Hsizes _ _ _ Hi) in Hp2. by injection Hp2 as _ <-. }
  destruct (add_indices_loop_existing σ' self indexset) as [text Hagain].
  { intros name indices Hin. split; [by apply (Hne name)|].
    destruct (dict_get name plates) as [p|] eqn:Hget.
    - rewrite (Hold _ _ Hget).
      destruct (dict_get_Some_lookup _ _ _ Hget) as [j Hj].
      destruct (plate_of_inv _ _ _ _ _ _ _ _ _ _ Hinv Hj)
        as (s1 & _ & Hpo1).
      unfold plate_size. rewrite Hpo1. by eexists.
    - rewrite (Hnew name indices); [by eexists|].
      apply list_elem_of_filter. by split. }
  exists σ', text. split.
  { unfold IndexPlatesMessenger._pyro_add_indices. rewrite Hargs.
    by rewrite (bind_Return _ _ _ _ _ Hrun). }
  assert (Hall : all_in_range σ' self indexset
                 = forallb (λ item, starts_low item.2) news).
  { unfold all_in_range, news, new_items.
    apply forallb_filter_split. intros [name indices] Hin. simpl.
    destruct (decide (dict_get name plates = None)) as [Hget|Hget].
    - rewrite (Hnew name indices) by (apply list_elem_of_filter; by split).
      apply in_range_new_size. by apply (Hne name).
    - destruct (dict_get name plates) as [p|] eqn:Hp; [|done].
      rewrite (Hold _ _ Hp).
      destruct (plate_size σ self name) as [size|] eqn:Hsz.
      + by apply (Hrange name indices).
      + exfalso.
        destruct (dict_get_Some_lookup _ _ _ Hp) as [j Hj].
        destruct (plate_of_inv _ _ _ _ _ _ _ _ _ _ Hinv Hj)
          as (s1 & _ & Hpo1).
        unfold plate_size in Hsz. by rewrite Hpo1 in Hsz. }
  unfold IndexPlatesMessenger._pyro_add_indices. rewrite Hargs.
  unfold mbind, M_bind at 1. rewrite Hagain, Hall.
  by destruct (forallb _ news).
Qed.

Lemma for_each_app {A} (l k : list A) (body : A → M unit) σ :
  for_each (l ++ k) body σ = (for_each l body ;; for_each k body) σ.
Proof.
  revert σ. induction l as [|x l IH]; intros σ; simpl.
  - done.
  - unfold mbind, M_bind. destruct (body x σ) as [[] σ1|e σ1]; [|done].
    apply IH.
Qed.

(** X8.  [add_indices] works through the index set name by name and
    undoes nothing: when the range check fails for a name that has a
    plate, the call raises [AssertionError], and the new names that stand
    before it in the index set have been registered and stay registered,
    each with its axis, and the cursor has moved past them. *)
Theorem add_indices_keeps_earlier_names
    σ self c od plates below above m
    (pre : IndexSet) name indices (rest : IndexSet) fad size :
  allocator_inv σ self c od plates below above →
  cursor σ self = Some fad →
  msg.args m = [VIndexSet (pre ++ (name, indices) :: rest)] →
  NoDup pre.*1 →
  (∀ name indices, (name, indices) ∈ pre → indices ≠ ∅) →
  (∀ name indices size,
     (name, indices) ∈ pre →
     plate_size σ self name = Some size → in_range indices size = true) →
  (∀ i, (i < length (new_items plates pre))%nat →
        axis_owner σ (fad - Z.of_nat i) = None) →
  (∀ name, name ∈ (new_items plates pre).*1 →
           Some (plate_name name) ∉ _DIM_ALLOCATOR σ) →
  plate_size σ self name = Some size →
  indices ≠ ∅ →
  in_range indices size = false →
  ∃ σ' text,
    IndexPlatesMessenger._pyro_add_indices self m σ
    = Raise (AssertionError text) σ'
    ∧ allocator_inv σ' self c od
        (plates ++ fresh_plates (new_items plates pre) (length (heap σ)))
        below above
    ∧ cursor σ' self = Some (fad - Z.of_nat (length (new_items plates pre))).
Proof.
  intros Hinv Hcur Hargs Hnd Hne Hrange Hfree Hnames Hsize Hs Hbad.
  rewrite (cursor_inv _ _ _ _ _ _ _ Hinv) in Hcur. injection Hcur as <-.
  destruct (add_indices_loop self c od below above pre σ plates
              Hinv Hnd Hne Hrange Hfree Hnames)
    as (σ' & Hrun & Hinv' & Hframe & _).
  set (plates' := plates ++ fresh_plates (new_items plates pre)
                              (length (heap σ))) in *.
  (* the plate of [name] is the one it had *)
  destruct (plate_size_Some _ _ _ _ Hsize)
    as (c0 & od0 & fad0 & plates0 & p & pc & pn & dim & Hself0 & Hget & Hp).
  rewrite (inv_self _ _ _ _ _ _ _ Hinv) in Hself0.
  injection Hself0 as <- <- <- <-.
  destruct (dict_get_Some_lookup _ _ _ Hget) as [j Hj].
  destruct (inv_plate_ref _ _ _ _ _ _ _ _ _ _ Hinv Hj) as [Hps _].
  assert (Hget' : dict_get name plates' = Some p).
  { apply dict_get_lookup with j; [by apply (inv_names _ _ _ _ _ _ _ Hinv')|].
    by apply lookup_app_l_Some. }
  pose proof (add_index_existing σ' self c od _ plates' name indices p _ _ _
                size (inv_self _ _ _ _ _ _ _ Hinv') Hget'
                (Hframe _ _ Hps Hp) Hs) as Hstep.
  rewrite Hbad in Hstep.
  exists σ'. eexists. split_and!.
  - unfold IndexPlatesMessenger._pyro_add_indices. rewrite Hargs.
    apply bind_Raise. rewrite for_each_app.
    rewrite (bind_Return _ _ _ _ _ Hrun). simpl.
    apply bind_Raise. exact Hstep.
  - done.
  - rewrite (cursor_inv _ _ _ _ _ _ _ Hinv'). unfold plates'.
    rewrite length_app, fresh_plates_length. f_equal. lia.
Qed.

(** X9.  An empty set of indices is an error, for a name that has a plate
    and for one that has none: [max] and [min] raise [ValueError] for
    it, and the call changes nothing. *)
Theorem add_indices_rejects_empty_set
    σ self c od plates below above m name (rest : IndexSet) :
  allocator_inv σ self c od plates below above →
  msg.args m = [VIndexSet ((name, ∅) :: rest)] →
  ∃ text,
    IndexPlatesMessenger._pyro_add_indices self m σ
    = Raise (ValueError text) σ.
Proof.
  intros Hinv Hargs.
  unfold IndexPlatesMessenger._pyro_add_indices. rewrite Hargs.
  assert (Hstep : ∃ text,
            IndexPlatesMessenger.add_index self name ∅ σ
            = Raise (ValueError text) σ).
  { unfold IndexPlatesMessenger.add_index.
    rewrite (bind_Return _ _ _ _ _
               (index_plates_fields_Some _ _ _ _ _ _
                  (inv_self _ _ _ _ _ _ _ Hinv))).
    cbn beta iota.
    destruct (dict_get name plates) as [p|] eqn:Hget.
    - destruct (dict_get_Some_lookup _ _ _ Hget) as [j Hj].
      destruct (inv_plates _ _ _ _ _ _ _ Hinv j name p Hj) as [[sz Hp] _].
      rewrite (bind_Return _ _ _ _ _ (plate_fields_Some _ _ _ _ _ _ Hp)).
      by eexists.
    - by eexists. }
  destruct Hstep as [text Hstep]. exists text.
  apply bind_Raise. simpl. by apply bind_Raise.
Qed.

(** ** Names that Pyro's dimension allocator holds already *)

(** A plate whose name is allocated already cannot be entered. *)
Lemma plate_enter_duplicate σ p name dim size :
  heap σ !! p = Some (plate_obj name dim size) →
  Some (plate_name name) ∈ _DIM_ALLOCATOR σ →
  IndepMessenger.__enter__ p σ
  = Raise (ValueError (duplicate_message (plate_name name))) σ.
Proof.
  intros Hp Hdup. unfold IndepMessenger.__enter__.
  rewrite (bind_Return _ _ _ _ _ (plate_fields_Some _ _ _ _ _ _ Hp)).
  cbn beta iota. apply bind_Raise.
  unfold _DimAllocator.allocate.
  unfold mbind at 1, M_bind at 1, get_dims at 1.
  rewrite decide_True by done. done.
Qed.

(** The outcome of a call of [add_indices] for a new name whose plate
    name is allocated already: Pyro's error, as it is. *)
Lemma duplicate_outcome
    σ self c od fad plates m name indices (rest : IndexSet) mx :
  heap σ !! self = Some (allocator_obj c od fad plates) →
  msg.args m = [VIndexSet ((name, indices) :: rest)] →
  dict_get name plates = None →
  Py.max indices = Some mx →
  Some (plate_name name) ∈ _DIM_ALLOCATOR σ →
  Py.str_in "collide at dim" (duplicate_message (plate_name name)) = false →
  IndexPlatesMessenger._pyro_add_indices self m σ
  = Raise (ValueError (duplicate_message (plate_name name)))
      {| _PYRO_STACK := _PYRO_STACK σ;
         _DIM_ALLOCATOR := _DIM_ALLOCATOR σ;
         heap := heap σ
                 ++ [plate_obj name fad (Z.max (mx + 1) (Py.len indices))];
         history := history σ |}.
Proof.
  intros Hself Hargs Hnew Hmx Hdup Hmsg.
  pose proof (max_Some_len _ _ Hmx) as Hlen.
  set (size := Z.max (mx + 1) (Py.len indices)).
  set (p := length (heap σ)).
  set (σ1 := {| _PYRO_STACK := _PYRO_STACK σ;
                _DIM_ALLOCATOR := _DIM_ALLOCATOR σ;
                heap := heap σ ++ [plate_obj name fad size];
                history := history σ |}).
  assert (Hself_lt : (self < length (heap σ))%nat)
    by (by apply lookup_lt_Some in Hself).
  assert (Hp1 : heap σ1 !! p = Some (plate_obj name fad size)).
  { simpl. unfold p. by rewrite lookup_app_r, Nat.sub_diag by lia. }
  assert (Hinit : _LazyPlateMessenger.__init__ name fad size σ
                  = Return p σ1).
  { unfold _LazyPlateMessenger.__init__, IndepMessenger.__init__.
    destruct (decide (size = 0)); [lia|]. done. }
  pose proof (plate_enter_duplicate σ1 p name fad size Hp1 Hdup) as Henter.
  unfold IndexPlatesMessenger._pyro_add_indices. rewrite Hargs.
  apply bind_Raise. cbn [for_each]. apply bind_Raise.
  unfold IndexPlatesMessenger.add_index.
  rewrite (bind_Return _ _ _ _ _
             (index_plates_fields_Some _ _ _ _ _ _ Hself)).
  simpl. rewrite Hnew, Hmx. fold size.
  rewrite (bind_Return _ _ _ _ _ Hinit).
  apply bind_Raise.
  unfold IndexPlatesMessenger._enter_index_plate.
  apply bind_Raise. unfold try_except.
  rewrite (bind_Raise _ _ _ _ _ Henter).
  cbn [is_ValueError str]. by rewrite Hmsg.
Qed.

(** X10.  [_enter_index_plate] rewrites the collision error only.  When
    the plate name of a new index name is allocated already, Pyro's
    [ValueError] for the duplicate plate reaches the caller as it is,
    without the advice on [first_available_dim]; nothing is allocated, and
    the registry and the cursor stay as they were. *)
Theorem duplicate_plate_error_is_passed_on
    σ self c od fad plates m name indices (rest : IndexSet) :
  heap σ !! self = Some (allocator_obj c od fad plates) →
  msg.args m = [VIndexSet ((name, indices) :: rest)] →
  dict_get name plates = None →
  indices ≠ ∅ →
  Some (plate_name name) ∈ _DIM_ALLOCATOR σ →
  Py.str_in "collide at dim" (duplicate_message (plate_name name)) = false →
  ∃ σ',
    IndexPlatesMessenger._pyro_add_indices self m σ
    = Raise (ValueError (duplicate_message (plate_name name))) σ'
    ∧ _DIM_ALLOCATOR σ' = _DIM_ALLOCATOR σ
    ∧ _PYRO_STACK σ' = _PYRO_STACK σ
    ∧ history σ' = history σ
    ∧ registry σ' self = Some plates
    ∧ cursor σ' self = Some fad.
Proof.
  intros Hself Hargs Hnew Hs Hdup Hmsg.
  destruct (min_max_nonempty _ Hs) as (mn & mx & _ & Hmx).
  assert (Hself_lt : (self < length (heap σ))%nat)
    by (by apply lookup_lt_Some in Hself).
  eexists. split.
  - by eapply duplicate_outcome.
  - unfold registry, cursor. simpl.
    rewrite !lookup_app_l by done. rewrite Hself. by split_and!.
Qed.

Lemma inv_plates_bystander σ self c od plates below above :
  allocator_inv σ self c od plates below above →
  Forall (bystander σ) plates.*2.
Proof.
  intros Hinv. apply Forall_forall. intros r Hr.
  apply list_elem_of_fmap in Hr as ([n p] & -> & Hin).
  apply list_elem_of_lookup_1 in Hin as [i Hi].
  destruct (inv_plates _ _ _ _ _ _ _ Hinv i n p Hi) as [[size Hp] _].
  by eapply plate_bystander.
Qed.

Lemma registered_same_classes σ self c od fad plates below rest name size :
  heap σ !! self = Some (allocator_obj c od fad plates) →
  same_classes σ (registered σ self c od fad plates below rest name size).
Proof.
  intros Hself.
  assert (Hlt : (self < length (heap σ))%nat)
    by (by apply lookup_lt_Some in Hself).
  eapply frame_same_classes; [exact Hself| |].
  - unfold registered. simpl. apply list_lookup_insert_eq.
    rewrite length_app. lia.
  - intros q o Hq Ho. rewrite registered_heap_frame; [done..|].
    by apply lookup_lt_Some in Ho.
Qed.

(** The message reaches a handler that raises. *)
Lemma walk_down_raises own σ m below self above k e σ' :
  _PYRO_STACK σ = below ++ self :: above →
  _process_message own self m σ = Raise e σ' →
  walk_down own (S (length below)) k m σ = Raise e σ'.
Proof.
  intros Hstack Hself.
  cbn [walk_down]. unfold mbind at 1, M_bind at 1, get_stack at 1.
  rewrite Hstack, list_lookup_middle by done.
  by rewrite (bind_Raise _ _ _ _ _ Hself).
Qed.

(** X11.  [_pyro_add_indices] does not stop the message, so [add_indices]
    reaches every allocator on the handler stack, the innermost first.
    With two active allocators, one inside the other, a name that is new
    to both is registered by the inner one, and the outer one then asks
    Pyro for a plate of the same name: the call raises Pyro's
    [ValueError] for the duplicate plate.  The inner allocator keeps the
    plate and the axis; the outer one has registered nothing. *)
Theorem nested_allocators_reject_new_names
    σ outer co odo po inner ci odi pi below mid above name indices :
  allocator_inv σ outer co odo po below (mid ++ inner :: pi.*2 ++ above) →
  allocator_inv σ inner ci odi pi (below ++ outer :: po.*2 ++ mid) above →
  (co = IndexPlatesMessenger ∨ co = MultiWorldCounterfactual
   ∨ co = TwinWorldCounterfactual) →
  (ci = IndexPlatesMessenger ∨ ci = MultiWorldCounterfactual
   ∨ ci = TwinWorldCounterfactual) →
  Forall (bystander σ) (mid ++ above) →
  dict_get name po = None →
  dict_get name pi = None →
  indices ≠ ∅ →
  axis_owner σ (odi - Z.of_nat (length pi)) = None →
  Some (plate_name name) ∉ _DIM_ALLOCATOR σ →
  Py.str_in "collide at dim" (duplicate_message (plate_name name)) = false →
  ∃ σ',
    add_indices [(name, indices)] σ
    = Raise (ValueError (duplicate_message (plate_name name))) σ'
    ∧ registry σ' inner = Some (pi ++ [(name, length (heap σ))])
    ∧ registry σ' outer = Some po
    ∧ axis_owner σ' (odi - Z.of_nat (length pi)) = Some (plate_name name).
Proof.
  intros Hout Hin Hco Hci Hby Hpo Hpi Hs Hfree Hname Hmsg.
  destruct (allocator_class_hooks co Hco) as [Hnoto Hhooko].
  destruct (allocator_class_hooks ci Hci) as [Hnoti Hhooki].
  apply Forall_app in Hby as [Hmid Habove].
  destruct (min_max_nonempty _ Hs) as (mn & mx & _ & Hmx).
  set (m := add_indices_msg [(name, indices)]).
  set (B := below ++ outer :: po.*2 ++ mid) in *.
  set (fadi := odi - Z.of_nat (length pi)) in *.
  set (size := Z.max (mx + 1) (Py.len indices)).
  pose proof (inv_stack _ _ _ _ _ _ _ Hin) as Hstack.
  pose proof (inv_neg _ _ _ _ _ _ _ Hin) as Hodi.
  assert (Hfadi : fadi < 0) by (unfold fadi; lia).
  pose proof (inv_self_not_below _ _ _ _ _ _ _ Hin) as HinB.
  assert (Hne : outer ≠ inner).
  { intros ->. apply HinB. unfold B. apply elem_of_app. right. left. }
  (* the inner allocator registers the name *)
  set (σ1 := registered σ inner ci odi fadi pi B (pi.*2 ++ above) name size).
  assert (Hstep : IndexPlatesMessenger.add_index inner name indices σ
                  = Return tt σ1).
  { apply add_index_new with (mx := mx); try done.
    - exact (inv_self _ _ _ _ _ _ _ Hin).
    - exact (inv_valid _ _ _ _ _ _ _ Hin). }
  assert (Hinner : _process_message own_hooks inner m σ = Return m σ1).
  { unfold _process_message.
    rewrite (bind_Return _ _ _ _ _
               (deref_Some _ _ _ (inv_self _ _ _ _ _ _ _ Hin))).
    cbn [class_of allocator_obj]. rewrite Hnoti.
    change ("_pyro_" +:+ msg.type m) with "_pyro_add_indices".
    rewrite Hhooki. unfold IndexPlatesMessenger._pyro_add_indices.
    cbn [msg.args m add_indices_msg].
    assert (Hloop : for_each [(name, indices)]
                      (λ '(name, indices),
                         IndexPlatesMessenger.add_index inner name indices) σ
                    = Return tt σ1).
    { cbn [for_each]. by rewrite (bind_Return _ _ _ _ _ Hstep). }
    by rewrite (bind_Return _ _ _ _ _ Hloop). }
  (* the outer allocator meets the name of the plate *)
  pose proof (inv_self _ _ _ _ _ _ _ Hout) as Hself_o.
  assert (Hself_o1 : heap σ1 !! outer = Some (allocator_obj co odo
                       (odo - Z.of_nat (length po)) po)).
  { unfold σ1. rewrite registered_heap_frame; [done..|].
    by apply lookup_lt_Some in Hself_o. }
  assert (Hdup : Some (plate_name name) ∈ _DIM_ALLOCATOR σ1).
  { unfold σ1, registered. cbn [_DIM_ALLOCATOR].
    apply list_elem_of_lookup. exists (axis_index fadi).
    apply list_lookup_insert_eq. by apply padded_length. }
  set (σ2 := {| _PYRO_STACK := _PYRO_STACK σ1;
                _DIM_ALLOCATOR := _DIM_ALLOCATOR σ1;
                heap := heap σ1
                        ++ [plate_obj name (odo - Z.of_nat (length po)) size];
                history := history σ1 |}).
  assert (Houter : _process_message own_hooks outer m σ1
                   = Raise (ValueError (duplicate_message (plate_name name)))
                       σ2).
  { unfold _process_message.
    rewrite (bind_Return _ _ _ _ _ (deref_Some _ _ _ Hself_o1)).
    cbn [class_of allocator_obj]. rewrite Hnoto.
    change ("_pyro_" +:+ msg.type m) with "_pyro_add_indices".
    rewrite Hhooko.
    by apply duplicate_outcome
      with (c := co) (od := odo) (plates := po) (rest := [])
           (indices := indices). }
  assert (Hsame : same_classes σ σ1).
  { apply registered_same_classes. exact (inv_self _ _ _ _ _ _ _ Hin). }
  assert (Hstack1 : _PYRO_STACK σ1
                    = (below ++ [outer]) ++ (po.*2 ++ mid)
                      ++ (inner :: take (length pi) (pi.*2 ++ above)
                            ++ length (heap σ)
                               :: drop (length pi) (pi.*2 ++ above))).
  { unfold σ1, registered, B. cbn [_PYRO_STACK].
    rewrite <- !app_assoc. cbn [app]. by rewrite <- !app_assoc. }
  assert (Hdown : walk_down own_hooks (length (_PYRO_STACK σ)) 0 m σ
                  = Raise (ValueError (duplicate_message (plate_name name)))
                      σ2).
  { rewrite Hstack at 1. rewrite length_app. cbn [length].
    replace (length B + S (length (pi.*2 ++ above)))%nat
      with (length (B ++ [inner]) + length (pi.*2 ++ above))%nat
      by (rewrite !length_app; simpl; lia).
    rewrite (walk_down_passes own_hooks σ m (B ++ [inner])
               (pi.*2 ++ above) [] 0); last first.
    { done. }
    { apply Forall_app. split.
      - by eapply inv_plates_pass.
      - eapply Forall_impl; [exact Habove|].
        intros r Hr. by apply bystander_passes. }
    { by rewrite Hstack, app_nil_r, <- app_assoc. }
    rewrite length_app. simpl.
    replace (length B + 1)%nat with (S (length B)) by lia.
    cbn [walk_down]. unfold mbind at 1, M_bind at 1, get_stack at 1.
    rewrite Hstack, list_lookup_middle by done.
    rewrite (bind_Return _ _ _ _ _ Hinner).
    change (msg.stop m) with false. cbn iota.
    replace (length B)
      with (length (below ++ [outer]) + length (po.*2 ++ mid))%nat
      by (unfold B; rewrite !length_app; simpl; rewrite length_app; lia).
    rewrite (walk_down_passes own_hooks σ1 m (below ++ [outer])
               (po.*2 ++ mid) _ _ Hstack1); last first.
    { done. }
    { apply Forall_app. split.
      - eapply Forall_impl; [exact (inv_plates_bystander _ _ _ _ _ _ _ Hout)|].
        intros r Hr. apply bystander_passes.
        by apply (bystander_same_classes σ σ1).
      - eapply Forall_impl; [exact Hmid|].
        intros r Hr. apply bystander_passes.
        by apply (bystander_same_classes σ σ1). }
    rewrite length_app. simpl.
    replace (length below + 1)%nat with (S (length below)) by lia.
    eapply walk_down_raises; [|exact Houter].
    rewrite Hstack1. rewrite <- !app_assoc. cbn [app]. reflexivity. }
  exists σ2. split_and!.
  - unfold add_indices, effectful.
    unfold mbind at 1, M_bind at 1, get_stack at 1.
    rewrite bool_decide_eq_false_2
      by (rewrite Hstack; unfold B; by destruct below).
    fold (add_indices_msg [(name, indices)]). fold m.
    apply bind_Raise. unfold apply_stack.
    unfold mbind at 1, M_bind at 1, get_stack at 1.
    by apply bind_Raise.
  - unfold registry, σ2. cbn [heap].
    pose proof (inv_self _ _ _ _ _ _ _ Hin) as Hself_i.
    assert (Hlt : (inner < length (heap σ))%nat)
      by (by apply lookup_lt_Some in Hself_i).
    rewrite lookup_app_l
      by (unfold σ1; rewrite registered_heap_length; lia).
    unfold σ1, registered. cbn [heap].
    rewrite list_lookup_insert_eq by (rewrite length_app; lia). done.
  - unfold registry, σ2. cbn [heap].
    rewrite lookup_app_l by (by apply lookup_lt_Some in Hself_o1).
    by rewrite Hself_o1.
  - unfold axis_owner, σ2, σ1, registered. cbn [_DIM_ALLOCATOR].
    rewrite list_lookup_insert_eq by (by apply padded_length). done.
Qed.

(** ** [Factual] and [BaseCounterfactual] *)

Lemma base_class_get_index_plates c :
  c = Factual ∨ c = BaseCounterfactual →
  bool_decide (IndepMessenger ∈ mro c) = false
  ∧ class_getattr hooks c "_pyro_get_index_plates"
    = Some BaseCounterfactual._pyro_get_index_plates.
Proof. by intros [->| ->]. Qed.

(** X12.  A [Factual] (or plain [BaseCounterfactual]) handler answers the
    query for the current plates with the empty mapping and stops it.
    When it is the innermost handler with a hook for the query, that is
    the answer of [get_index_plates], whatever is installed below it: an
    allocator below it is not asked, and the plates it has registered are
    not reported.  Nothing changes. *)
Theorem get_index_plates_hidden_by_factual σ h o below above m :
  heap σ !! h = Some o →
  class_of o = Factual ∨ class_of o = BaseCounterfactual →
  _PYRO_STACK σ = below ++ h :: above →
  (∀ r, r ∈ h :: above → (r < length (heap σ))%nat) →
  msg.type m = "get_index_plates" →
  msg.stop m = false →
  Forall (passes hooks σ m) above →
  apply_stack hooks m σ
  = Return (msg.set_value (VFrames [])
              (msg.set_done true (msg.set_stop true m))) σ.
Proof.
  intros Ho Hc Hstack Hvalid Htype Hstop Habove.
  destruct (base_class_get_index_plates _ Hc) as [Hnot Hhook].
  set (answer := msg.set_value (VFrames [])
                   (msg.set_done true (msg.set_stop true m))).
  assert (Hproc : _process_message hooks h m σ = Return answer σ).
  { unfold _process_message.
    rewrite (bind_Return _ _ _ _ _ (deref_Some _ _ _ Ho)).
    rewrite Hnot, Htype.
    change ("_pyro_" +:+ "get_index_plates") with "_pyro_get_index_plates".
    by rewrite Hhook. }
  assert (Hwalk : walk_down hooks (length (_PYRO_STACK σ)) 0 m σ
                  = Return (S (length above), answer) σ).
  { by apply (walk_down_reaches hooks σ m below h above). }
  unfold apply_stack.
  unfold mbind at 1, M_bind at 1, get_stack at 1.
  rewrite (bind_Return _ _ _ _ _ Hwalk). cbn beta iota.
  unfold default_process_message.
  cbn [msg.done answer msg.set_value msg.set_done orb].
  unfold mbind at 1, M_bind at 1, mret at 1, M_ret at 1.
  unfold mbind at 1, M_bind at 1, get_stack at 1.
  rewrite Hstack, last_frames_top.
  rewrite (walk_up_no_hook _ "get_index_plates"); [done|done|done|done].
Qed.

(** X13.  Under a [Factual] handler that is the innermost counterfactual
    handler, [intervene] returns the observed value: the value that the
    default implementation makes of the proposed one is dropped, the
    handlers below are not asked, no axis is allocated and nothing
    changes, also when an allocator is active below. *)
Theorem factual_returns_observed σ h flds below above f obs act name ed :
  heap σ !! h = Some {| class_of := Factual; fields := flds |} →
  _PYRO_STACK σ = below ++ h :: above →
  Forall (bystander σ) above →
  intervene (λ a k, inr (f a k)) obs act name ed σ = Return obs σ.
Proof.
  intros Hh Hstack Habove.
  unfold intervene, effectful.
  unfold mbind at 1, M_bind at 1, get_stack at 1.
  rewrite bool_decide_eq_false_2 by (rewrite Hstack; by destruct below).
  set (m0 := {| msg.type := "intervene"; msg.name := name;
                msg.fn := λ a k, inr (f a k); msg.is_observed := false;
                msg.args := [obs; act];
                msg.kwargs := {| event_dim := ed |}; msg.value := VNone;
                msg.mask := VNone; msg.done := false; msg.stop := false |}).
  assert (Hpass : Forall (passes hooks σ m0) above).
  { eapply Forall_impl; [exact Habove|].
    intros r Hr. by apply bystander_passes. }
  assert (Hc : counterfactual_class Factual) by (right; by left).
  destruct (intervene_walk σ h _ below above m0 Hh Hc Hstack eq_refl
              eq_refl Hpass) as (_ & _ & _ & Happly).
  unfold mbind at 1, M_bind at 1. rewrite Happly.
  unfold default_process_message.
  cbn [msg.done msg.is_observed msg.set_stop m0 orb msg.fn msg.args
       msg.kwargs].
  unfold mbind at 1, M_bind at 1, mret at 1, M_ret at 1.
  cbn [walk_up].
  set (up := intervene_msg_up (λ a k, inr (f a k)) obs act name ed
               (f [obs; act] {| event_dim := ed |})).
  assert (Hpp : _postprocess_message hooks h up σ
                = Return (msg.set_value obs up) σ).
  { unfold _postprocess_message.
    by rewrite (bind_Return _ _ _ _ _ (deref_Some _ _ _ Hh)). }
  change (msg.set_done true
            (msg.set_value (f [obs; act] {| event_dim := ed |})
               (msg.set_stop true m0))) with up.
  rewrite (bind_Return _ _ _ _ _ Hpp).
  destruct (walk_up_bystanders above (msg.set_value obs up) σ Habove)
    as [Hwu _].
  by rewrite Hwu.
Qed.

(** ** Site names under [MultiWorldCounterfactual] *)

Lemma effective_names_registered reg fad name k :
  default "__intervention__" name ∈ reg →
  effective_names reg fad (replicate k name)
  = (λ i : nat, default "__intervention__" name +:+ "_"
                +:+ pretty (fad - Z.of_nat i)) <$> seq 0 k.
Proof.
  revert reg fad. induction k as [|k IH]; intros reg fad Hin; [done|].
  cbn [replicate effective_names seq fmap list_fmap].
  unfold intervention_name at 1. rewrite bool_decide_eq_true_2 by done.
  f_equal; [do 3 f_equal; lia|].
  rewrite IH by (apply elem_of_app; by left).
  rewrite <- (fmap_S_seq 0 k), <- list_fmap_compose.
  apply list_fmap_ext. intros i x _. simpl. do 3 f_equal. lia.
Qed.

Lemma effective_names_repeated reg fad name k :
  default "__intervention__" name ∉ reg →
  effective_names reg fad (replicate k name)
  = repeated_names (default "__intervention__" name) fad k.
Proof.
  intros Hn. destruct k as [|k]; [done|].
  cbn [replicate effective_names repeated_names].
  unfold intervention_name at 1 2. rewrite bool_decide_eq_false_2 by done.
  f_equal.
  rewrite effective_names_registered by (apply elem_of_app; right; left).
  rewrite <- (fmap_S_seq 0 k), <- list_fmap_compose.
  apply list_fmap_ext. intros i x _. simpl. do 3 f_equal. lia.
Qed.

Lemma string_app_nil_r (s : string) : s +:+ "" = s.
Proof.
  induction s as [|a s IH]; [done|].
  change (String a s +:+ "") with (String a (s +:+ "")). by rewrite IH.
Qed.

Lemma repeated_names_NoDup n fad k : NoDup (repeated_names n fad k).
Proof.
  destruct k as [|k]; [constructor|]. cbn [repeated_names].
  apply NoDup_cons. split.
  - intros Hin. apply list_elem_of_fmap in Hin as (i & Heq & _).
    rewrite <- (string_app_nil_r n) in Heq at 1.
    apply String.app_inj in Heq. discriminate Heq.
  - apply NoDup_fmap_2; [|apply NoDup_seq].
    intros i j Heq. apply String.app_inj in Heq.
    injection Heq as Heq. apply pretty_Z_inj in Heq. lia.
Qed.

Lemma repeated_names_length n fad k : length (repeated_names n fad k) = k.
Proof.
  destruct k as [|k]; [done|]. cbn [repeated_names length].
  by rewrite length_fmap, length_seq.
Qed.

(** X14.  Interventions at sites that all carry the same name, or none,
    get axes of their own under [MultiWorldCounterfactual]: in a scope
    that has registered nothing yet, the first is scattered under the
    name ([__intervention__] without one), and the [i]-th after it under
    the name followed by [_] and the cursor of that moment, [od - i].
    These names differ from each other, so [k] such interventions
    allocate [k] axes of size 2 and give [2 ^ k] worlds. *)
Theorem repeated_site_names_get_axes_of_their_own
    σ self od below above f (sites : list Site) name :
  allocator_inv σ self MultiWorldCounterfactual od [] below above →
  Forall (bystander σ) (below ++ above) →
  (∀ s, s ∈ sites → site_name s = name) →
  (∀ i, (i < length sites)%nat → axis_owner σ (od - Z.of_nat i) = None) →
  (∀ n, n ∈ repeated_names (default "__intervention__" name) od
              (length sites) →
        Some (plate_name n) ∉ _DIM_ALLOCATOR σ) →
  ∃ σ' plates,
    interventions (λ a k, inr (f a k)) sites σ
    = Return
        (zip_with
           (λ s n, two_worlds n (site_obs s)
                     (f [site_obs s; site_act s]
                        {| event_dim := site_event_dim s |})
                     (site_event_dim s))
           sites
           (repeated_names (default "__intervention__" name) od
              (length sites)))
        σ'
    ∧ registry σ' self = Some plates
    ∧ plates.*1
      = repeated_names (default "__intervention__" name) od (length sites)
    ∧ NoDup plates.*1
    ∧ cursor σ' self = Some (od - Z.of_nat (length sites))
    ∧ worlds σ' self = Some (2 ^ Z.of_nat (length sites)).
Proof.
  intros Hinv Hby Hsame Hfree Hpyro.
  set (N := default "__intervention__" name) in *.
  assert (Hsites : site_name <$> sites = replicate (length sites) name).
  { clear -Hsame. induction sites as [|s sites IH]; [done|].
    cbn [fmap list_fmap length replicate]. f_equal.
    - apply Hsame. left.
    - apply IH. intros s' Hs'. apply Hsame. by right. }
  assert (Hnames : effective_names [] (od - Z.of_nat 0) (site_name <$> sites)
                   = repeated_names N od (length sites)).
  { rewrite Hsites.
    replace (od - Z.of_nat 0) with od by lia.
    apply effective_names_repeated. apply not_elem_of_nil. }
  destruct (mwc_interventions self od below above f sites σ [] Hinv Hby)
    as (σ' & Hrun & Hinv' & Hframe & Hnew).
  { cbn [fmap list_fmap length app]. rewrite Hnames.
    apply repeated_names_NoDup. }
  { intros i Hi. cbn [length].
    replace (od - Z.of_nat 0 - Z.of_nat i) with (od - Z.of_nat i) by lia.
    by apply Hfree. }
  { intros n Hn. cbn [fmap list_fmap length] in Hn. rewrite Hnames in Hn.
    by apply Hpyro. }
  cbn [fmap list_fmap length app] in Hrun, Hinv', Hnew.
  rewrite Hnames in Hrun, Hinv', Hnew.
  set (names := repeated_names N od (length sites)) in *.
  assert (Hlen : length names = length sites)
    by apply repeated_names_length.
  eexists σ', _. split_and!.
  - exact Hrun.
  - exact (registry_inv _ _ _ _ _ _ _ Hinv').
  - rewrite fst_zip; [done|]. rewrite length_seq. lia.
  - exact (inv_names _ _ _ _ _ _ _ Hinv').
  - rewrite (cursor_inv _ _ _ _ _ _ _ Hinv').
    rewrite length_zip_with, length_seq, Hlen. f_equal. lia.
  - rewrite <- Hlen.
    replace (2 ^ Z.of_nat (length names))
      with (1 * 2 ^ Z.of_nat (length names)) by lia.
    eapply (worlds_extended σ σ' self _ od [] below above names); try done.
    + cbn [app]. by rewrite Hlen.
    + intros i n Hi. eexists. by apply Hnew.
    + unfold worlds. by rewrite (registry_inv _ _ _ _ _ _ _ Hinv).
Qed.

(** The hook of [MultiWorldCounterfactual] for the way up, given the
    outcome of [scatter]. *)
Lemma mwc_post_intervene_scatter
    σ σ' self c od fad plates m obs rest :
  heap σ !! self = Some (allocator_obj c od fad plates) →
  msg.args m = obs :: rest →
  scatter
    [ (IndexSet_of [(intervention_name plates.*1 fad (msg.name m), {[0]})],
       obs);
      (IndexSet_of [(intervention_name plates.*1 fad (msg.name m), {[1]})],
       msg.value m) ]
    (default 0 (event_dim (msg.kwargs m))) σ
  = Return (two_worlds (intervention_name plates.*1 fad (msg.name m)) obs
              (msg.value m) (event_dim (msg.kwargs m))) σ' →
  ∃ m',
    MultiWorldCounterfactual._pyro_post_intervene self m σ = Return m' σ'
    ∧ msg.value m'
      = two_worlds (intervention_name plates.*1 fad (msg.name m)) obs
          (msg.value m) (event_dim (msg.kwargs m)).
Proof.
  intros Hself Hargs Hscatter.
  set (e := intervention_name plates.*1 fad (msg.name m)) in *.
  unfold MultiWorldCounterfactual._pyro_post_intervene. rewrite Hargs.
  set (ed := default 0 (event_dim (msg.kwargs m))) in *.
  set (m1 := msg.set_kwargs {| event_dim := Some ed |} m).
  set (n := default "__intervention__" (msg.name m)).
  set (m2 := match msg.name m1 with
             | Some _ => m1
             | None => msg.set_name (Some "__intervention__") m1
             end).
  assert (Hn2 : msg.name m2 = Some n).
  { unfold m2, n, m1. simpl. by destruct (msg.name m) eqn:E. }
  rewrite (bind_Return _ _ _ _ _
             (index_plates_fields_Some _ _ _ _ _ _ Hself)).
  cbn beta iota. rewrite Hn2.
  set (m3 := match dict_get n plates with
             | Some _ => msg.set_name (Some (n +:+ "_" +:+ pretty fad)) m2
             | None => m2
             end).
  assert (Hn3 : msg.name m3 = Some e).
  { unfold m3, e, intervention_name. fold n.
    destruct (bool_decide (n ∈ plates.*1)) eqn:Hin.
    - by destruct (dict_get_in _ _ Hin) as [p ->].
    - apply bool_decide_eq_false in Hin. apply dict_get_None in Hin.
      by rewrite Hin. }
  rewrite Hn3.
  assert (Hv3 : msg.value m3 = msg.value m).
  { unfold m3, m2, m1. simpl.
    by destruct (dict_get n plates), (msg.name m). }
  rewrite (bind_Return _ _ _ _ _ Hscatter).
  eexists. split; [reflexivity|]. done.
Qed.

(** X15.  The name with the cursor appended is not looked up again.  When
    the name of a site has a plate and the name with the cursor appended
    has one as well (of size 2 or more), the intervention is scattered
    under the appended name and shares the axis of that plate: the call
    returns, no axis is allocated, and nothing changes. *)
Theorem suffixed_name_can_share_an_axis
    σ self od plates below above f obs act name ed size :
  allocator_inv σ self MultiWorldCounterfactual od plates below above →
  Forall (bystander σ) (below ++ above) →
  plate_size σ self
    (intervention_name plates.*1 (od - Z.of_nat (length plates)) name)
  = Some size →
  1 < size →
  default "__intervention__" name ∈ plates.*1
  ∧ intervene (λ a k, inr (f a k)) obs act name ed σ
    = Return
        (two_worlds
           (default "__intervention__" name +:+ "_"
            +:+ pretty (od - Z.of_nat (length plates)))
           obs (f [obs; act] {| event_dim := ed |}) ed) σ.
Proof.
  intros Hinv Hby Hsize Hlt.
  set (v := f [obs; act] {| event_dim := ed |}).
  set (fad := od - Z.of_nat (length plates)) in *.
  assert (Hreg : default "__intervention__" name ∈ plates.*1).
  { destruct (decide (default "__intervention__" name ∈ plates.*1))
      as [Hin|Hout]; [done|exfalso].
    unfold intervention_name in Hsize.
    rewrite bool_decide_eq_false_2 in Hsize by done.
    apply dict_get_None in Hout.
    unfold plate_size, plate_of in Hsize.
    rewrite (registry_inv _ _ _ _ _ _ _ Hinv) in Hsize. simpl in Hsize.
    by rewrite Hout in Hsize. }
  split; [done|].
  assert (He : intervention_name plates.*1 fad name
               = default "__intervention__" name +:+ "_" +:+ pretty fad).
  { unfold intervention_name. by rewrite bool_decide_eq_true_2. }
  rewrite <- He.
  set (e := intervention_name plates.*1 fad name) in *.
  destruct (mwc_post_intervene_scatter σ σ self MultiWorldCounterfactual od
              fad plates
              (intervene_msg_up (λ a k, inr (f a k)) obs act name ed v)
              obs [act] (inv_self _ _ _ _ _ _ _ Hinv) eq_refl)
    as (m2 & Hpost & Hval).
  { apply (scatter_existing_name σ self MultiWorldCounterfactual od plates
             below above e obs v (default 0 ed) size); try done.
    by right; left. }
  rewrite (intervene_by_allocator σ σ self MultiWorldCounterfactual od
             plates below above f obs act name ed
             MultiWorldCounterfactual._pyro_post_intervene m2);
    try done.
  - by rewrite Hval.
  - by right; right; left.
  - apply same_classes_refl.
Qed.

(** ** An intervention that finds its axis taken *)

(** The effect [add_indices] when the allocator it reaches raises. *)
Lemma add_indices_dispatch_raise
    σ σ' self c od plates below above (indexset : IndexSet) e :
  allocator_inv σ self c od plates below above →
  c = IndexPlatesMessenger ∨ c = MultiWorldCounterfactual
  ∨ c = TwinWorldCounterfactual →
  Forall (bystander σ) above →
  IndexPlatesMessenger._pyro_add_indices self (add_indices_msg indexset) σ
  = Raise e σ' →
  add_indices indexset σ = Raise e σ'.
Proof.
  intros Hinv Hc Habove Hraise.
  destruct (allocator_class_hooks c Hc) as [Hnot Hhook].
  set (m := add_indices_msg indexset) in *.
  pose proof (inv_stack _ _ _ _ _ _ _ Hinv) as Hstack.
  unfold add_indices, effectful.
  unfold mbind at 1, M_bind at 1, get_stack at 1.
  rewrite bool_decide_eq_false_2
    by (rewrite Hstack; by destruct below).
  fold (add_indices_msg indexset). fold m.
  assert (Hself : _process_message own_hooks self m σ = Raise e σ').
  { unfold _process_message.
    rewrite (bind_Return _ _ _ _ _
               (deref_Some _ _ _ (inv_self _ _ _ _ _ _ _ Hinv))).
    cbn [class_of allocator_obj]. rewrite Hnot.
    change ("_pyro_" +:+ msg.type m) with "_pyro_add_indices".
    by rewrite Hhook. }
  apply bind_Raise. unfold apply_stack.
  unfold mbind at 1, M_bind at 1, get_stack at 1.
  apply bind_Raise.
  rewrite Hstack at 1. rewrite length_app. cbn [length].
  replace (length below + S (length (plates.*2 ++ above)))%nat
    with (length (below ++ [self]) + length (plates.*2 ++ above))%nat
    by (rewrite !length_app; simpl; lia).
  rewrite (walk_down_passes own_hooks σ m (below ++ [self])
             (plates.*2 ++ above) [] 0); last first.
  { done. }
  { apply Forall_app. split.
    - by eapply inv_plates_pass.
    - eapply Forall_impl; [exact Habove|].
      intros r Hr. by apply bystander_passes. }
  { by rewrite Hstack, app_nil_r, <- app_assoc. }
  rewrite length_app. simpl.
  replace (length below + 1)%nat with (S (length below)) by lia.
  by eapply walk_down_raises.
Qed.

(** An intervention under an active counterfactual allocator whose hook
    for the way up raises. *)
Lemma intervene_by_allocator_raise
    σ σ' self c od plates below above f obs act name ed post e :
  allocator_inv σ self c od plates below above →
  counterfactual_class c →
  Forall (bystander σ) above →
  class_getattr hooks c "_pyro_post_intervene" = Some post →
  post self
    (intervene_msg_up (λ a k, inr (f a k)) obs act name ed
       (f [obs; act] {| event_dim := ed |})) σ
  = Raise e σ' →
  intervene (λ a k, inr (f a k)) obs act name ed σ = Raise e σ'.
Proof.
  intros Hinv Hc Habove Hhook Hpost.
  pose proof (inv_stack _ _ _ _ _ _ _ Hinv) as Hstack.
  pose proof (inv_self _ _ _ _ _ _ _ Hinv) as Hself.
  unfold intervene, effectful.
  unfold mbind at 1, M_bind at 1, get_stack at 1.
  rewrite bool_decide_eq_false_2 by (rewrite Hstack; by destruct below).
  set (m0 := {| msg.type := "intervene"; msg.name := name;
                msg.fn := λ a k, inr (f a k); msg.is_observed := false;
                msg.args := [obs; act];
                msg.kwargs := {| event_dim := ed |}; msg.value := VNone;
                msg.mask := VNone; msg.done := false; msg.stop := false |}).
  assert (Hpass : Forall (passes hooks σ m0) (plates.*2 ++ above)).
  { apply Forall_app. split; [by eapply inv_plates_pass|].
    eapply Forall_impl; [exact Habove|].
    intros r Hr. by apply bystander_passes. }
  destruct (intervene_walk σ self _ below (plates.*2 ++ above) m0
              Hself Hc Hstack eq_refl eq_refl Hpass) as (_ & _ & _ & Happly).
  unfold mbind at 1, M_bind at 1. rewrite Happly.
  unfold default_process_message.
  cbn [msg.done msg.is_observed msg.set_stop m0 orb msg.fn msg.args
       msg.kwargs].
  unfold mbind at 1, M_bind at 1, mret at 1, M_ret at 1.
  cbn [walk_up].
  assert (Hpp : _postprocess_message hooks self
                  (intervene_msg_up (λ a k, inr (f a k)) obs act name ed
                     (f [obs; act] {| event_dim := ed |})) σ
                = Raise e σ').
  { unfold _postprocess_message.
    rewrite (bind_Return _ _ _ _ _ (deref_Some _ _ _ Hself)).
    cbn [class_of allocator_obj msg.type intervene_msg_up].
    change ("_pyro_post_" +:+ "intervene") with "_pyro_post_intervene".
    by rewrite Hhook. }
  change (msg.set_done true
            (msg.set_value (f [obs; act] {| event_dim := ed |})
               (msg.set_stop true m0)))
    with (intervene_msg_up (λ a k, inr (f a k)) obs act name ed
            (f [obs; act] {| event_dim := ed |})).
  by rewrite (bind_Raise _ _ _ _ _ Hpp).
Qed.

(** The hook of [MultiWorldCounterfactual] for the way up, when [scatter]
    raises. *)
Lemma mwc_post_intervene_raise
    σ σ' self c od fad plates m obs rest e :
  heap σ !! self = Some (allocator_obj c od fad plates) →
  msg.args m = obs :: rest →
  scatter
    [ (IndexSet_of [(intervention_name plates.*1 fad (msg.name m), {[0]})],
       obs);
      (IndexSet_of [(intervention_name plates.*1 fad (msg.name m), {[1]})],
       msg.value m) ]
    (default 0 (event_dim (msg.kwargs m))) σ
  = Raise e σ' →
  MultiWorldCounterfactual._pyro_post_intervene self m σ = Raise e σ'.
Proof.
  intros Hself Hargs Hscatter.
  set (en := intervention_name plates.*1 fad (msg.name m)) in *.
  unfold MultiWorldCounterfactual._pyro_post_intervene. rewrite Hargs.
  set (ed := default 0 (event_dim (msg.kwargs m))) in *.
  set (m1 := msg.set_kwargs {| event_dim := Some ed |} m).
  set (n := default "__intervention__" (msg.name m)).
  set (m2 := match msg.name m1 with
             | Some _ => m1
             | None => msg.set_name (Some "__intervention__") m1
             end).
  assert (Hn2 : msg.name m2 = Some n).
  { unfold m2, n, m1. simpl. by destruct (msg.name m) eqn:E. }
  rewrite (bind_Return _ _ _ _ _
             (index_plates_fields_Some _ _ _ _ _ _ Hself)).
  cbn beta iota. rewrite Hn2.
  set (m3 := match dict_get n plates with
             | Some _ => msg.set_name (Some (n +:+ "_" +:+ pretty fad)) m2
             | None => m2
             end).
  assert (Hn3 : msg.name m3 = Some en).
  { unfold m3, en, intervention_name. fold n.
    destruct (bool_decide (n ∈ plates.*1)) eqn:Hin.
    - by destruct (dict_get_in _ _ Hin) as [p ->].
    - apply bool_decide_eq_false in Hin. apply dict_get_None in Hin.
      by rewrite Hin. }
  rewrite Hn3.
  assert (Hv3 : msg.value m3 = msg.value m).
  { unfold m3, m2, m1. simpl.
    by destruct (dict_get n plates), (msg.name m). }
  by rewrite (bind_Raise _ _ _ _ _ Hscatter).
Qed.

(** X16.  An intervention under [MultiWorldCounterfactual] that needs a
    new axis while the axis under the cursor is held by another plate:
    [intervene] raises the [ValueError] of the allocator, with the advice
    to set [first_available_dim] below the original dimension.  Nothing
    is allocated, the handler stack, the registry and the cursor stay as
    they were, so the scope can be left as usual. *)
Theorem intervene_reports_allocation_error
    σ self od plates below above f obs act name ed other :
  allocator_inv σ self MultiWorldCounterfactual od plates below above →
  Forall (bystander σ) above →
  intervention_name plates.*1 (od - Z.of_nat (length plates)) name
    ∉ plates.*1 →
  axis_owner σ (od - Z.of_nat (length plates)) = Some other →
  Some (plate_name
          (intervention_name plates.*1 (od - Z.of_nat (length plates)) name))
    ∉ _DIM_ALLOCATOR σ →
  ∃ text σ',
    intervene (λ a k, inr (f a k)) obs act name ed σ
    = Raise (ValueError text) σ'
    ∧ Py.str_in ("Try setting a value less than " +:+ pretty od
                 +:+ " for `first_available_dim`") text = true
    ∧ _DIM_ALLOCATOR σ' = _DIM_ALLOCATOR σ
    ∧ _PYRO_STACK σ' = _PYRO_STACK σ
    ∧ allocator_inv σ' self MultiWorldCounterfactual od plates below above.
Proof.
  intros Hinv Habove Hnew Hown Hpyro.
  set (fad := od - Z.of_nat (length plates)) in *.
  set (en := intervention_name plates.*1 fad name) in *.
  set (v := f [obs; act] {| event_dim := ed |}).
  pose proof (inv_self _ _ _ _ _ _ _ Hinv) as Hself.
  pose proof (inv_neg _ _ _ _ _ _ _ Hinv) as Hod.
  assert (Hfad : fad < 0) by (unfold fad; lia).
  assert (Hget : dict_get en plates = None) by (by apply dict_get_None).
  assert (Hmx : Py.max ({[0]} ∪ {[1]} : gset Z) = Some 1) by done.
  pose proof (collision_outcome σ self MultiWorldCounterfactual od fad plates
                (add_indices_msg [(en, {[0]} ∪ {[1]})]) en
                ({[0]} ∪ {[1]}) [] other 1 Hself eq_refl Hget Hmx Hfad Hown
                Hpyro) as Hcoll.
  match type of Hcoll with
  | _ = Raise ?e ?s => set (err := e) in *; set (σ' := s) in *
  end.
  assert (Hadd : add_indices [(en, {[0]} ∪ {[1]})] σ = Raise err σ').
  { eapply add_indices_dispatch_raise; try done. by right; left. }
  assert (Hscatter :
    scatter [ (IndexSet_of [(en, {[0]})], obs);
              (IndexSet_of [(en, {[1]})], v) ] (default 0 ed) σ
    = Raise err σ').
  { unfold scatter. apply bind_Raise.
    cbn [fmap list_fmap fst]. by rewrite union_two_worlds. }
  pose proof (mwc_post_intervene_raise σ σ' self MultiWorldCounterfactual od
                fad plates
                (intervene_msg_up (λ a k, inr (f a k)) obs act name ed v)
                obs [act] err Hself eq_refl Hscatter) as Hpost.
  eexists _, σ'. split_and!.
  - eapply intervene_by_allocator_raise; try done.
    by right; right; left.
  - apply allocation_message_advice.
  - done.
  - done.
  - by apply collision_preserves_inv.
Qed.

(** ** Every outcome of a call *)

(** When the plate cannot be entered, [_enter_index_plate] raises in the
    state in which the plate left it. *)
Lemma enter_index_plate_raise σ σ' self c od fad plates plate e :
  heap σ' !! self = Some (allocator_obj c od fad plates) →
  IndepMessenger.__enter__ plate σ = Raise e σ' →
  ∃ e', IndexPlatesMessenger._enter_index_plate self plate σ = Raise e' σ'.
Proof.
  intros Hself Henter.
  unfold IndexPlatesMessenger._enter_index_plate.
  unfold mbind at 1, M_bind at 1, try_except.
  rewrite (bind_Raise _ _ _ _ _ Henter).
  destruct (is_ValueError e); [|by eexists].
  destruct (Py.str_in "collide at dim" (str e)); [|by eexists].
  rewrite (bind_Return _ _ _ _ _ (repr_Some _ _ _ Hself)).
  rewrite (bind_Return _ _ _ _ _
             (index_plates_fields_Some _ _ _ _ _ _ Hself)).
  by eexists.
Qed.

(** One item of the index set: whatever the outcome, the allocator is
    left in a consistent state, with the plates it had and at most one
    more. *)
Lemma add_index_keeps_inv σ self c od plates below above name indices :
  allocator_inv σ self c od plates below above →
  ∃ σ' news,
    (IndexPlatesMessenger.add_index self name indices σ = Return tt σ'
     ∨ ∃ e, IndexPlatesMessenger.add_index self name indices σ = Raise e σ')
    ∧ allocator_inv σ' self c od (plates ++ news) below above
    ∧ (∀ d, d < 0 →
            ¬ (od - Z.of_nat (length plates) - Z.of_nat (length news) < d
               ≤ od - Z.of_nat (length plates)) →
            axis_owner σ' d = axis_owner σ d)
    ∧ (∀ i, (i < length news)%nat →
            axis_owner σ (od - Z.of_nat (length plates) - Z.of_nat i) = None)
    ∧ (news = [] → _DIM_ALLOCATOR σ' = _DIM_ALLOCATOR σ)
    ∧ same_classes σ σ'.
Proof.
  intros Hinv.
  pose proof (inv_self _ _ _ _ _ _ _ Hinv) as Hself.
  pose proof (inv_neg _ _ _ _ _ _ _ Hinv) as Hod.
  set (fad := od - Z.of_nat (length plates)) in *.
  assert (Hfad : fad < 0) by (unfold fad; lia).
  destruct (dict_get name plates) as [p|] eqn:Hget.
  - (* the name has a plate: nothing changes *)
    exists σ, []. rewrite app_nil_r.
    split; [|split_and!; [done|done|intros i Hi; simpl in Hi; lia|done
                          |apply same_classes_refl]].
    destruct (dict_get_Some_lookup _ _ _ Hget) as [j Hj].
    destruct (inv_plates _ _ _ _ _ _ _ Hinv j name p Hj) as [[sz Hp] _].
    destruct (decide (indices = ∅)) as [->|Hs].
    + right. unfold IndexPlatesMessenger.add_index.
      rewrite (bind_Return _ _ _ _ _
                 (index_plates_fields_Some _ _ _ _ _ _ Hself)).
      cbn beta iota. rewrite Hget.
      rewrite (bind_Return _ _ _ _ _ (plate_fields_Some _ _ _ _ _ _ Hp)).
      by eexists.
    + rewrite (add_index_existing σ self c od _ plates name indices p _ _ _
                 sz Hself Hget Hp Hs).
      destruct (in_range indices sz); [by left|right; by eexists].
  - destruct (Py.max indices) as [mx|] eqn:Hmx.
    + (* a new plate is made *)
      pose proof (max_Some_len _ _ Hmx) as Hlen.
      set (size := Z.max (mx + 1) (Py.len indices)).
      set (p := length (heap σ)).
      set (σ1 := {| _PYRO_STACK := _PYRO_STACK σ;
                    _DIM_ALLOCATOR := _DIM_ALLOCATOR σ;
                    heap := heap σ ++ [plate_obj name fad size];
                    history := history σ |}).
      assert (Hself_lt : (self < length (heap σ))%nat)
        by (by apply lookup_lt_Some in Hself).
      assert (Hself1 : heap σ1 !! self
                       = Some (allocator_obj c od fad plates)).
      { simpl. by rewrite lookup_app_l. }
      assert (Hp1 : heap σ1 !! p = Some (plate_obj name fad size)).
      { simpl. unfold p. by rewrite lookup_app_r, Nat.sub_diag by lia. }
      assert (Hinit : _LazyPlateMessenger.__init__ name fad size σ
                      = Return p σ1).
      { unfold _LazyPlateMessenger.__init__, IndepMessenger.__init__.
        destruct (decide (size = 0)); [lia|]. done. }
      assert (Hsame1 : same_classes σ σ1).
      { intros r o Ho. exists o. split; [|done]. simpl.
        by apply lookup_app_l_Some. }
      assert (Hfail : ∀ e, IndepMessenger.__enter__ p σ1 = Raise e σ1 →
                ∃ e', IndexPlatesMessenger.add_index self name indices σ
                      = Raise e' σ1).
      { intros e He.
        destruct (enter_index_plate_raise σ1 σ1 self c od fad plates p e
                    Hself1 He) as [e' He'].
        exists e'. unfold IndexPlatesMessenger.add_index.
        rewrite (bind_Return _ _ _ _ _
                   (index_plates_fields_Some _ _ _ _ _ _ Hself)).
        cbn beta iota. rewrite Hget, Hmx. fold size.
        rewrite (bind_Return _ _ _ _ _ Hinit).
        by apply bind_Raise. }
      destruct (decide (Some (plate_name name) ∈ _DIM_ALLOCATOR σ))
        as [Hdup|Hfresh].
      { (* Pyro knows the name of the plate *)
        exists σ1, []. rewrite app_nil_r. split_and!.
        - right. eapply Hfail. by eapply plate_enter_duplicate.
        - by apply collision_preserves_inv.
        - done.
        - intros i Hi. simpl in Hi. lia.
        - done.
        - done. }
      destruct (axis_owner σ fad) as [other|] eqn:Hown.
      { (* the axis is taken *)
        exists σ1, []. rewrite app_nil_r. split_and!.
        - right. eapply Hfail. by eapply plate_enter_collide.
        - by apply collision_preserves_inv.
        - done.
        - intros i Hi. simpl in Hi. lia.
        - done.
        - done. }
      (* the plate is registered *)
      exists (registered σ self c od fad plates below (plates.*2 ++ above)
                name size), [(name, length (heap σ))].
      split_and!.
      * left. apply add_index_new with (mx := mx); try done.
        -- exact (inv_stack _ _ _ _ _ _ _ Hinv).
        -- exact (inv_self_not_below _ _ _ _ _ _ _ Hinv).
        -- exact (inv_valid _ _ _ _ _ _ _ Hinv).
      * by apply registered_inv.
      * intros d Hd Hout. cbn [length] in Hout.
        apply axis_owner_registered_frame; [done|done|lia].
      * intros i Hi. cbn [length] in Hi.
        replace (fad - Z.of_nat i) with fad by lia. done.
      * done.
      * by apply registered_same_classes.
    + (* no indices *)
      exists σ, []. rewrite app_nil_r.
      split; [|split_and!; [done|done|intros i Hi; simpl in Hi; lia|done
                            |apply same_classes_refl]].
      right. unfold IndexPlatesMessenger.add_index.
      rewrite (bind_Return _ _ _ _ _
                 (index_plates_fields_Some _ _ _ _ _ _ Hself)).
      cbn beta iota. rewrite Hget, Hmx. by eexists.
Qed.

Lemma add_indices_loop_keeps_inv self c od below above
    (indexset : list (string * gset Z)) :
  ∀ σ plates,
  allocator_inv σ self c od plates below above →
  ∃ σ' news,
    (for_each indexset
       (λ '(name, indices), IndexPlatesMessenger.add_index self name indices)
       σ = Return tt σ'
     ∨ ∃ e,
         for_each indexset
           (λ '(name, indices),
              IndexPlatesMessenger.add_index self name indices) σ
         = Raise e σ')
    ∧ allocator_inv σ' self c od (plates ++ news) below above
    ∧ (∀ d, d < 0 →
            ¬ (od - Z.of_nat (length plates) - Z.of_nat (length news) < d
               ≤ od - Z.of_nat (length plates)) →
            axis_owner σ' d = axis_owner σ d)
    ∧ (∀ i, (i < length news)%nat →
            axis_owner σ (od - Z.of_nat (length plates) - Z.of_nat i) = None)
    ∧ (news = [] → _DIM_ALLOCATOR σ' = _DIM_ALLOCATOR σ)
    ∧ same_classes σ σ'.
Proof.
  induction indexset as [|[n s] rest IH]; intros σ plates Hinv.
  - exists σ, []. rewrite app_nil_r.
    split_and!; [by left|done|done|intros i Hi; simpl in Hi; lia|done
                |apply same_classes_refl].
  - destruct (add_index_keeps_inv σ self c od plates below above n s Hinv)
      as (σ1 & news1 & Hstep & Hinv1 & Hown1 & Hfree1 & Hdims1 & Hsame1).
    pose proof (inv_neg _ _ _ _ _ _ _ Hinv) as Hod.
    destruct Hstep as [Hstep|[e Hstep]].
    + destruct (IH σ1 _ Hinv1)
        as (σ' & news & Hrun & Hinv' & Hown & Hfree & Hdims & Hsame).
      rewrite length_app in Hown, Hfree.
      exists σ', (news1 ++ news). rewrite app_assoc, length_app.
      split_and!.
      * cbn [for_each]. rewrite (bind_Return _ _ _ _ _ Hstep).
        exact Hrun.
      * done.
      * intros d Hd Hout. rewrite Hown by (done || lia).
        apply Hown1; [done|lia].
      * intros i Hi.
        destruct (decide (i < length news1)%nat) as [Hlt|Hge].
        -- by apply Hfree1.
        -- rewrite <- Hown1; [|lia|lia].
           replace (od - Z.of_nat (length plates) - Z.of_nat i)
             with (od - Z.of_nat (length plates + length news1)
                   - Z.of_nat (i - length news1)) by lia.
           apply Hfree. lia.
      * intros Hnil. apply app_eq_nil in Hnil as [H1 H2].
        rewrite (Hdims H2). by apply Hdims1.
      * by eapply same_classes_trans.
    + exists σ1, news1. split_and!; [|done..]. right. exists e.
      cbn [for_each]. by apply bind_Raise.
Qed.

(** X17.  Whatever [add_indices] is asked and however the call ends,
    whether it returns or raises, it leaves the allocator in the state of
    an active allocator: the plates it had are registered as before, the
    names it has added ([news]) have plates on the axes below them, the
    cursor has moved down by the number of these names and is
    [_orig_dim] minus the number of plates, and the plates stand on the
    handler stack directly above the allocator. *)
Theorem add_indices_keeps_the_allocator_consistent
    σ self c od plates below above m :
  allocator_inv σ self c od plates below above →
  ∃ σ' news,
    (IndexPlatesMessenger._pyro_add_indices self m σ = Return m σ'
     ∨ ∃ e, IndexPlatesMessenger._pyro_add_indices self m σ = Raise e σ')
    ∧ allocator_inv σ' self c od (plates ++ news) below above
    ∧ registry σ' self = Some (plates ++ news)
    ∧ cursor σ' self
      = Some (od - Z.of_nat (length plates) - Z.of_nat (length news)).
Proof.
  intros Hinv. unfold IndexPlatesMessenger._pyro_add_indices.
  assert (Hend : ∀ σ' news,
            allocator_inv σ' self c od (plates ++ news) below above →
            allocator_inv σ' self c od (plates ++ news) below above
            ∧ registry σ' self = Some (plates ++ news)
            ∧ cursor σ' self
              = Some (od - Z.of_nat (length plates)
                      - Z.of_nat (length news))).
  { intros σ' news Hinv'. split_and!; [done| |].
    - exact (registry_inv _ _ _ _ _ _ _ Hinv').
    - rewrite (cursor_inv _ _ _ _ _ _ _ Hinv'), length_app. f_equal. lia. }
  assert (Hsame : ∀ e : exn, ∃ σ' news,
            (@raise msg.t e σ = Return m σ'
             ∨ ∃ e', @raise msg.t e σ = Raise e' σ')
            ∧ allocator_inv σ' self c od (plates ++ news) below above
            ∧ registry σ' self = Some (plates ++ news)
            ∧ cursor σ' self
              = Some (od - Z.of_nat (length plates)
                      - Z.of_nat (length news))).
  { intros e. exists σ, []. split; [right; by exists e|].
    apply Hend. by rewrite app_nil_r. }
  destruct (msg.args m) as [|[| |s| | |] [|v' rest]]; try apply Hsame.
  destruct (add_indices_loop_keeps_inv self c od below above s σ plates Hinv)
    as (σ' & news & [Hrun|[e Hrun]] & Hinv' & _).
  - exists σ', news. split; [left|by apply Hend].
    by rewrite (bind_Return _ _ _ _ _ Hrun).
  - exists σ', news. split; [right; exists e|by apply Hend].
    by apply bind_Raise.
Qed.

(** X18.  A scope [with h: add_indices(indexset)] for an allocator [h]
    that is not active, among handlers that have no hook for the message,
    gives back what it took on every path: whatever the index set is, and
    whether the call returns or raises (the exception then leaves the
    scope), the handler stack is as it was, every axis has the owner it
    had, the stack of Pyro's dimension allocator is unchanged (when it
    did not end in an unused position), and the allocator is as it was
    before the scope. *)
Theorem scope_gives_back_on_every_path σ self c od (indexset : IndexSet) :
  heap σ !! self = Some (allocator_obj c od od []) →
  c = IndexPlatesMessenger ∨ c = MultiWorldCounterfactual
  ∨ c = TwinWorldCounterfactual →
  od < 0 →
  self ∉ _PYRO_STACK σ →
  NoDup (_PYRO_STACK σ) →
  Forall (bystander σ) (_PYRO_STACK σ) →
  ∃ σ',
    (with_ (IndexPlatesMessenger.__enter__ self)
       (IndexPlatesMessenger.__exit__ self) (add_indices indexset) σ
     = Return (VIndexSet indexset) σ'
     ∨ ∃ e,
         with_ (IndexPlatesMessenger.__enter__ self)
           (IndexPlatesMessenger.__exit__ self) (add_indices indexset) σ
         = Raise e σ')
    ∧ _PYRO_STACK σ' = _PYRO_STACK σ
    ∧ (∀ d, d < 0 → axis_owner σ' d = axis_owner σ d)
    ∧ (trimmed (_DIM_ALLOCATOR σ) → _DIM_ALLOCATOR σ' = _DIM_ALLOCATOR σ)
    ∧ heap σ' !! self = Some (allocator_obj c od od []).
Proof.
  intros Hself Hc Hneg Hnotin Hnd Hby.
  assert (Hvalid : ∀ r, r ∈ _PYRO_STACK σ → (r < length (heap σ))%nat).
  { intros r Hr.
    destruct (proj1 (Forall_forall _ _) Hby r Hr) as (o & Ho & _).
    by apply lookup_lt_Some in Ho. }
  destruct (enter_fresh_inv σ self c od Hself Hneg Hnotin Hnd Hvalid)
    as (σ0 & Henter & Hinv0).
  assert (Hσ0 : σ0 = {| _PYRO_STACK := _PYRO_STACK σ ++ [self];
                        _DIM_ALLOCATOR := _DIM_ALLOCATOR σ;
                        heap := heap σ; history := history σ |}).
  { rewrite (enter_cases σ self c od od [] Hself) in Henter.
    rewrite !bool_decide_eq_true_2 in Henter by done.
    rewrite bool_decide_eq_false_2 in Henter by done.
    simpl in Henter. by injection Henter as <-. }
  destruct (add_indices_loop_keeps_inv self c od _ _ indexset σ0 [] Hinv0)
    as (σ1 & news & Hrun & Hinv1 & Hown1 & Hfree1 & Hdims1 & Hsame1).
  cbn [app length] in Hinv1, Hown1, Hfree1.
  assert (Hexit : ∀ exc, ∃ σ2,
            IndexPlatesMessenger.__exit__ self exc σ1 = Return tt σ2
            ∧ _PYRO_STACK σ2 = _PYRO_STACK σ
            ∧ (∀ d, d < 0 → axis_owner σ2 d = axis_owner σ d)
            ∧ (trimmed (_DIM_ALLOCATOR σ) →
               _DIM_ALLOCATOR σ2 = _DIM_ALLOCATOR σ)
            ∧ heap σ2 !! self = Some (allocator_obj c od od [])).
  { intros exc.
    destruct (exit_state σ1 self c od news _ [] exc Hinv1 (λ _, eq_refl))
      as (σ2 & Hex & Hself2 & Hstack2 & _ & _ & _ & _ & Hown2 & Htrim2).
    assert (Howner : ∀ d, d < 0 → axis_owner σ2 d = axis_owner σ d).
    { intros d Hd. rewrite (Hown2 d Hd).
      case_bool_decide as Hin.
      - symmetry.
        replace d with (od - Z.of_nat 0 - Z.of_nat (Z.to_nat (od - d)))
          by lia.
        rewrite <- (Hfree1 (Z.to_nat (od - d))) by lia. by subst σ0.
      - rewrite Hown1 by (done || lia). by subst σ0. }
    exists σ2. split_and!; [done..| |done].
    intros Ht. apply trimmed_ext; [|done|].
    - apply Htrim2. destruct news as [|x news]; [right|by left].
      rewrite (Hdims1 eq_refl). by subst σ0.
    - intros i. specialize (Howner (-1 - Z.of_nat i)).
      unfold axis_owner, axis_index in Howner.
      replace (Z.to_nat (-1 - (-1 - Z.of_nat i))) with i in Howner by lia.
      apply Howner. lia. }
  assert (Hby0 : Forall (bystander σ0) (_PYRO_STACK σ ++ [])).
  { rewrite app_nil_r. by subst σ0. }
  assert (Hbody :
    add_indices indexset σ0 = Return (VIndexSet indexset) σ1
    ∨ ∃ e, add_indices indexset σ0 = Raise e σ1).
  { destruct Hrun as [Hrun|[e Hrun]].
    - left. by eapply (add_indices_dispatch σ0 σ1 self c od []).
    - right. exists e.
      eapply (add_indices_dispatch_raise σ0 σ1 self c od []); try done.
      unfold IndexPlatesMessenger._pyro_add_indices.
      cbn [msg.args add_indices_msg]. by apply bind_Raise. }
  unfold with_. rewrite Henter.
  destruct Hbody as [Hbody|[e Hbody]]; rewrite Hbody.
  - destruct (Hexit None) as (σ2 & Hex & Hrest).
    exists σ2. split; [left|done].
    by rewrite (bind_Return _ _ _ _ _ Hex).
  - destruct (Hexit (Some e)) as (σ2 & Hex & Hrest).
    exists σ2. split; [right; exists e|done].
    by rewrite (bind_Return _ _ _ _ _ Hex).
Qed.

(** ** The abstract mask handler *)

Lemma sample_through_app dev hs1 hs2 m σ :
  sample_through dev (hs1 ++ hs2) m σ
  = (m' ← sample_through dev hs1 m; sample_through dev hs2 m') σ.
Proof.
  revert m σ. induction hs1 as [|[self g] hs1 IH]; intros m σ; [done|].
  cbn [app sample_through]. unfold mbind, M_bind.
  destruct (DependentMaskMessenger._pyro_sample dev g self m σ)
    as [m1 σ1|e σ1]; [|done].
  apply IH.
Qed.

Lemma sample_through_masks dev handlers (masks : list Value) m σ :
  Forall2 (λ (h : ref * (ref → (list Value → Kwargs → exn + Value) → Value
                         → string → M Value)) mask,
             h.2 h.1 (msg.fn m) (msg.value m)
               (dev (msg.fn m) (msg.value m)) σ
             = Return mask σ)
    handlers masks →
  sample_through dev handlers m σ
  = Return (msg.set_mask (foldl combine_mask (msg.mask m) masks) m) σ.
Proof.
  intros Hall. revert m Hall.
  induction handlers as [|[self get_mask] handlers IH] in masks |- *;
    intros m Hall.
  - apply Forall2_nil_inv_l in Hall as ->. by destruct m.
  - apply Forall2_cons_inv_l in Hall as (mask & masks' & Hmask & Hall & ->).
    simpl in Hmask.
    set (m1 := msg.set_mask (combine_mask (msg.mask m) mask) m).
    assert (Hstep : DependentMaskMessenger._pyro_sample dev get_mask self m σ
                    = Return m1 σ).
    { unfold DependentMaskMessenger._pyro_sample.
      rewrite (bind_Return _ _ _ _ _ Hmask).
      unfold mret, M_ret, m1, combine_mask. do 2 f_equal.
      by destruct (msg.mask m). }
    cbn [sample_through]. rewrite (bind_Return _ _ _ _ _ Hstep).
    rewrite (IH masks' m1 Hall). by destruct m.
Qed.

(** X19.  [DependentMaskMessenger] itself cannot select worlds: a handler
    whose class has not overridden [get_mask] raises
    [NotImplementedError] at every [sample] message that reaches it,
    whatever masks the handlers before it have attached, and the handlers
    after it are not reached. *)
Theorem abstract_get_mask_fails dev pre post self (masks : list Value) m σ :
  Forall2 (λ (h : ref * (ref → (list Value → Kwargs → exn + Value) → Value
                         → string → M Value)) mask,
             h.2 h.1 (msg.fn m) (msg.value m)
               (dev (msg.fn m) (msg.value m)) σ
             = Return mask σ)
    pre masks →
  sample_through dev (pre ++ (self, DependentMaskMessenger.get_mask) :: post)
    m σ
  = Raise NotImplementedError σ.
Proof.
  intros Hpre. rewrite sample_through_app.
  by rewrite (bind_Return _ _ _ _ _ (sample_through_masks _ _ _ _ _ Hpre)).
Qed.

(** ** Instances *)

(** The example states are the states the code reaches. *)
Lemma data_plate_and_mwc_created_reached :
  (d ← IndepMessenger.__init__ IndepMessenger "data" 10 (-1);
   IndepMessenger.__enter__ d ;;
   IndexPlatesMessenger.__init__ MultiWorldCounterfactual None) empty_runtime
  = Return 1%nat data_plate_and_mwc_created.
Proof. reflexivity. Qed.

Lemma mwc_in_data_plate_reached :
  IndexPlatesMessenger.__enter__ 1%nat data_plate_and_mwc_created
  = Return 1%nat mwc_in_data_plate.
Proof. reflexivity. Qed.

Lemma mwc_in_data_plate_with_X_reached :
  add_indices [("X", {[0; 1]})] mwc_in_data_plate
  = Return (VIndexSet [("X", {[0; 1]})]) mwc_in_data_plate_with_X.
Proof. by vm_compute. Qed.

Lemma mwc_in_mwc_reached :
  (h ← IndexPlatesMessenger.__init__ MultiWorldCounterfactual None;
   IndexPlatesMessenger.__enter__ h) mwc_active
  = Return 1%nat mwc_in_mwc.
Proof. reflexivity. Qed.

Lemma mwc_in_mwc_with_X_reached :
  IndexPlatesMessenger._pyro_add_indices 1%nat
    (add_indices_msg [("X", {[0; 1]})]) mwc_in_mwc
  = Return (add_indices_msg [("X", {[0; 1]})]) mwc_in_mwc_with_X.
Proof. by vm_compute. Qed.

Lemma factual_in_mwc_with_X_reached :
  (h ← new Factual NoFields; Messenger.__enter__ h) mwc_with_X
  = Return 2%nat factual_in_mwc_with_X.
Proof. reflexivity. Qed.

Lemma mwc_with_X_and_X_7_reached :
  interventions (msg.fn intervene_msg)
    [ {| site_obs := VArray "x"; site_act := VArray "x'";
         site_name := Some "X"; site_event_dim := None |};
      {| site_obs := VArray "y"; site_act := VArray "y'";
         site_name := Some "X_-7"; site_event_dim := None |} ]
    mwc_active
  = Return [ two_worlds "X" (VArray "x") (VArray "x'") None;
             two_worlds "X_-7" (VArray "y") (VArray "y'") None ]
      mwc_with_X_and_X_7.
Proof. by vm_compute. Qed.

Lemma mwc_in_data_plate_inv :
  allocator_inv mwc_in_data_plate 1%nat MultiWorldCounterfactual (-5) []
    [0%nat] [].
Proof. concrete_inv. Qed.

Lemma mwc_in_data_plate_with_X_inv :
  allocator_inv mwc_in_data_plate_with_X 1%nat MultiWorldCounterfactual (-5)
    [("X", 2%nat)] [0%nat] [].
Proof. concrete_inv. Qed.

Lemma init_then_enter_witness :
  (∃ σ',
     (h ← IndexPlatesMessenger.__init__ MultiWorldCounterfactual None;
      IndexPlatesMessenger.__enter__ h) empty_runtime = Return 0%nat σ'
     ∧ allocator_inv σ' 0%nat MultiWorldCounterfactual (-5) [] [] [])
  ∧ IndexPlatesMessenger.__init__ MultiWorldCounterfactual (Some 0)
      empty_runtime
    = Raise (AssertionError "") empty_runtime.
Proof.
  split.
  - destruct (init_then_enter empty_runtime MultiWorldCounterfactual None)
      as [H _].
    + constructor.
    + intros r Hr. by apply elem_of_nil in Hr.
    + apply H. simpl. lia.
  - destruct (init_then_enter empty_runtime MultiWorldCounterfactual
                (Some 0)) as [_ H].
    + constructor.
    + intros r Hr. by apply elem_of_nil in Hr.
    + apply H. simpl. lia.
Defined.

Lemma add_indices_touches_no_other_axis_witness :
  ∃ σ',
    IndexPlatesMessenger._pyro_add_indices 1%nat
      (add_indices_msg [("X", {[0; 1]})]) mwc_in_data_plate
    = Return (add_indices_msg [("X", {[0; 1]})]) σ'
    ∧ axis_owner σ' (-1) = Some "data"
    ∧ history σ' = [Allocated "data" (-1); Allocated (plate_name "X") (-5)].
Proof.
  destruct (add_indices_touches_no_other_axis mwc_in_data_plate 1%nat
              MultiWorldCounterfactual (-5) [] [0%nat] []
              (add_indices_msg [("X", {[0; 1]})]) [("X", {[0; 1]})] (-5))
    as (σ' & Hrun & Hown & Hhist).
  - concrete_inv.
  - reflexivity.
  - reflexivity.
  - by_compute.
  - intros name indices Hin H. subst indices.
    apply list_elem_of_singleton in Hin.
    apply (f_equal (λ x, elements x.2)) in Hin. by vm_compute in Hin.
  - intros name indices size Hin Hsize.
    apply list_elem_of_singleton in Hin.
    apply (f_equal fst) in Hin; simpl in Hin; subst name.
    by vm_compute in Hsize.
  - intros i Hi. vm_compute in Hi.
    destruct i as [|i]; [reflexivity|lia].
  - intros name Hn. vm_compute in Hn.
    apply list_elem_of_singleton in Hn. subst name. by_compute.
  - exists σ'. split; [exact Hrun|]. split; [|exact Hhist].
    rewrite (Hown (-1)); [reflexivity|lia|lia].
Defined.

Lemma exit_touches_no_other_axis_witness :
  ∃ σ',
    IndexPlatesMessenger.__exit__ 1%nat None mwc_in_data_plate_with_X
    = Return tt σ'
    ∧ axis_owner σ' (-1) = Some "data"
    ∧ axis_owner σ' (-5) = None
    ∧ trimmed (_DIM_ALLOCATOR σ').
Proof.
  destruct (exit_touches_no_other_axis mwc_in_data_plate_with_X 1%nat
              MultiWorldCounterfactual (-5) [("X", 2%nat)] [0%nat] [] None)
    as (σ' & Hrun & Hown & Htrim).
  - concrete_inv.
  - reflexivity.
  - exists σ'. split; [exact Hrun|]. split_and!.
    + rewrite (Hown (-1)) by lia. reflexivity.
    + rewrite (Hown (-5)) by lia. reflexivity.
    + apply Htrim. left. discriminate.
Defined.

Lemma exit_then_enter_witness :
  ∃ σ' σ'',
    IndexPlatesMessenger.__exit__ 1%nat (Some (ValueError "model failed"))
      mwc_in_data_plate_with_X
    = Return tt σ'
    ∧ IndexPlatesMessenger.__enter__ 1%nat σ' = Return 1%nat σ''
    ∧ allocator_inv σ'' 1%nat MultiWorldCounterfactual (-5) [] [0%nat] [].
Proof.
  apply (exit_then_enter mwc_in_data_plate_with_X 1%nat
           MultiWorldCounterfactual (-5) [("X", 2%nat)] [0%nat] []
           (Some (ValueError "model failed"))).
  - concrete_inv.
  - reflexivity.
Defined.

Lemma scope_round_trip_witness :
  ∃ σ',
    with_ (IndexPlatesMessenger.__enter__ 1%nat)
      (IndexPlatesMessenger.__exit__ 1%nat)
      (add_indices [("X", {[0; 1]}); ("Y", {[0]})])
      data_plate_and_mwc_created
    = Return (VIndexSet [("X", {[0; 1]}); ("Y", {[0]})]) σ'
    ∧ _PYRO_STACK σ' = [0%nat]
    ∧ _DIM_ALLOCATOR σ' = [Some "data"]
    ∧ history σ'
      = [ Allocated "data" (-1);
          Allocated (plate_name "X") (-5); Allocated (plate_name "Y") (-6);
          Freed (plate_name "Y") (-6); Freed (plate_name "X") (-5) ].
Proof.
  destruct (scope_round_trip data_plate_and_mwc_created 1%nat
              MultiWorldCounterfactual (-5)
              [("X", {[0; 1]}); ("Y", {[0]})])
    as (σ' & Hrun & Hstack & _ & Hdims & _ & Hhist).
  - reflexivity.
  - by right; left.
  - lia.
  - by_compute.
  - by_compute.
  - repeat constructor. by eexists.
  - by_compute.
  - intros name indices Hin H. subst indices.
    apply elem_of_cons in Hin as [Hin|Hin%list_elem_of_singleton];
      apply (f_equal (λ x, elements x.2)) in Hin; by vm_compute in Hin.
  - intros i Hi. simpl in Hi.
    destruct i as [|[|i]]; [reflexivity|reflexivity|lia].
  - intros name Hn.
    apply elem_of_cons in Hn as [->|Hn%list_elem_of_singleton];
      [|subst name]; by_compute.
  - exists σ'. split; [exact Hrun|]. split; [exact Hstack|].
    split; [apply Hdims; discriminate|exact Hhist].
Defined.

Lemma registered_names_are_reported_witness :
  ∃ σ',
    IndexPlatesMessenger._pyro_add_indices 0%nat
      (add_indices_msg [("Y", {[0; 1; 2]})]) mwc_with_X
    = Return (add_indices_msg [("Y", {[0; 1; 2]})]) σ'
    ∧ IndexPlatesMessenger._pyro_get_index_plates 0%nat get_index_plates_msg
        σ'
      = Return
          (msg.set_stop true
             (msg.set_done true
                (msg.set_value
                   (VFrames [("X", index_frame "X" (-5) 2);
                             ("Y", index_frame "Y" (-6) 3)])
                   get_index_plates_msg))) σ'.
Proof.
  destruct (registered_names_are_reported mwc_with_X 0%nat
              MultiWorldCounterfactual (-5) [("X", 1%nat)] [] []
              (add_indices_msg [("Y", {[0; 1; 2]})]) get_index_plates_msg
              [("Y", {[0; 1; 2]})] (-6) [("X", index_frame "X" (-5) 2)])
    as (σ' & Hrun & Hget); last first.
  { exists σ'. split; [exact Hrun|]. rewrite Hget. by vm_compute. }
  - intros name Hn. vm_compute in Hn.
    apply list_elem_of_singleton in Hn. subst name. by_compute.
  - intros i Hi. vm_compute in Hi.
    destruct i as [|i]; [reflexivity|lia].
  - intros name indices size Hin Hsize.
    apply list_elem_of_singleton in Hin.
    apply (f_equal fst) in Hin; simpl in Hin; subst name.
    by vm_compute in Hsize.
  - intros name indices Hin H. subst indices.
    apply list_elem_of_singleton in Hin.
    apply (f_equal (λ x, elements x.2)) in Hin. by vm_compute in Hin.
  - by_compute.
  - reflexivity.
  - reflexivity.
  - reflexivity.
  - concrete_inv.
Defined.


Lemma add_indices_again_witness :
  ∃ σ' text,
    IndexPlatesMessenger._pyro_add_indices 0%nat
      (add_indices_msg [("X", {[1]})]) mwc_active
    = Return (add_indices_msg [("X", {[1]})]) σ'
    ∧ plate_size σ' 0%nat "X" = Some 2
    ∧ IndexPlatesMessenger._pyro_add_indices 0%nat
        (add_indices_msg [("X", {[1]})]) σ'
      = Raise (AssertionError text) σ'.
Proof.
  destruct (add_indices_again mwc_active 0%nat MultiWorldCounterfactual (-5)
              [] [] [] (add_indices_msg [("X", {[1]})]) [("X", {[1]})] (-5))
    as (σ' & text & Hfirst & Hagain).
  - concrete_inv.
  - reflexivity.
  - reflexivity.
  - by_compute.
  - intros name indices Hin H. subst indices.
    apply list_elem_of_singleton in Hin.
    apply (f_equal (λ x, elements x.2)) in Hin. by vm_compute in Hin.
  - intros name indices size Hin Hsize.
    apply list_elem_of_singleton in Hin.
    apply (f_equal fst) in Hin; simpl in Hin; subst name.
    by vm_compute in Hsize.
  - intros i Hi. vm_compute in Hi.
    destruct i as [|i]; [reflexivity|lia].
  - intros name _. apply not_elem_of_nil.
  - exists σ', text. split; [exact Hfirst|]. split; [|exact Hagain].
    vm_compute in Hfirst. injection Hfirst as <-. reflexivity.
Defined.

Lemma add_indices_keeps_earlier_names_witness :
  ∃ σ' text,
    IndexPlatesMessenger._pyro_add_indices 0%nat
      (add_indices_msg [("Y", {[0; 1]}); ("X", {[5]})]) mwc_with_X
    = Raise (AssertionError text) σ'
    ∧ registry σ' 0%nat = Some [("X", 1%nat); ("Y", 2%nat)]
    ∧ cursor σ' 0%nat = Some (-7).
Proof.
  destruct (add_indices_keeps_earlier_names mwc_with_X 0%nat
              MultiWorldCounterfactual (-5) [("X", 1%nat)] [] []
              (add_indices_msg [("Y", {[0; 1]}); ("X", {[5]})])
              [("Y", {[0; 1]})] "X" {[5]} [] (-6) 2)
    as (σ' & text & Hrun & Hinv & Hcur).
  - concrete_inv.
  - reflexivity.
  - reflexivity.
  - by_compute.
  - intros name indices Hin H. subst indices.
    apply list_elem_of_singleton in Hin.
    apply (f_equal (λ x, elements x.2)) in Hin. by vm_compute in Hin.
  - intros name indices size Hin Hsize.
    apply list_elem_of_singleton in Hin.
    apply (f_equal fst) in Hin; simpl in Hin; subst name.
    by vm_compute in Hsize.
  - intros i Hi. vm_compute in Hi.
    destruct i as [|i]; [reflexivity|lia].
  - intros name Hn. vm_compute in Hn.
    apply list_elem_of_singleton in Hn. subst name. by_compute.
  - reflexivity.
  - intros H. apply (f_equal elements) in H. by vm_compute in H.
  - reflexivity.
  - exists σ', text. split; [exact Hrun|]. split; [|exact Hcur].
    exact (registry_inv _ _ _ _ _ _ _ Hinv).
Defined.

Lemma add_indices_rejects_empty_set_witness :
  ∃ text,
    IndexPlatesMessenger._pyro_add_indices 0%nat
      (add_indices_msg [("X", ∅)]) mwc_active
    = Raise (ValueError text) mwc_active.
Proof.
  apply (add_indices_rejects_empty_set mwc_active 0%nat
           MultiWorldCounterfactual (-5) [] [] []
           (add_indices_msg [("X", ∅)]) "X" []).
  - concrete_inv.
  - reflexivity.
Defined.

Lemma duplicate_plate_error_is_passed_on_witness :
  ∃ σ',
    IndexPlatesMessenger._pyro_add_indices 0%nat
      (add_indices_msg [("X", {[0; 1]})]) mwc_in_mwc_with_X
    = Raise (ValueError (duplicate_message (plate_name "X"))) σ'
    ∧ _DIM_ALLOCATOR σ' = _DIM_ALLOCATOR mwc_in_mwc_with_X
    ∧ registry σ' 0%nat = Some []
    ∧ cursor σ' 0%nat = Some (-5).
Proof.
  destruct (duplicate_plate_error_is_passed_on mwc_in_mwc_with_X 0%nat
              MultiWorldCounterfactual (-5) (-5) []
              (add_indices_msg [("X", {[0; 1]})]) "X" {[0; 1]} [])
    as (σ' & Hrun & Hdims & _ & _ & Hreg & Hcur).
  - reflexivity.
  - reflexivity.
  - reflexivity.
  - intros H. apply (f_equal elements) in H. by vm_compute in H.
  - by_compute.
  - reflexivity.
  - exists σ'. by split_and!.
Defined.

Lemma nested_allocators_reject_new_names_witness :
  ∃ σ',
    add_indices [("X", {[0; 1]})] mwc_in_mwc
    = Raise (ValueError (duplicate_message (plate_name "X"))) σ'
    ∧ registry σ' 1%nat = Some [("X", 2%nat)]
    ∧ registry σ' 0%nat = Some [].
Proof.
  destruct (nested_allocators_reject_new_names mwc_in_mwc
              0%nat MultiWorldCounterfactual (-5) []
              1%nat MultiWorldCounterfactual (-5) []
              [] [] [] "X" {[0; 1]})
    as (σ' & Hrun & Hinner & Houter & _).
  - concrete_inv.
  - concrete_inv.
  - by right; left.
  - by right; left.
  - constructor.
  - reflexivity.
  - reflexivity.
  - intros H. apply (f_equal elements) in H. by vm_compute in H.
  - reflexivity.
  - apply not_elem_of_nil.
  - reflexivity.
  - exists σ'. by split_and!.
Defined.

Lemma get_index_plates_hidden_by_factual_witness :
  registry_frames factual_in_mwc_with_X 0%nat
  = Some [("X", index_frame "X" (-5) 2)]
  ∧ apply_stack hooks get_index_plates_msg factual_in_mwc_with_X
    = Return (msg.set_value (VFrames [])
                (msg.set_done true (msg.set_stop true get_index_plates_msg)))
        factual_in_mwc_with_X.
Proof.
  split; [reflexivity|].
  apply (get_index_plates_hidden_by_factual factual_in_mwc_with_X 2%nat
           {| class_of := Factual; fields := NoFields |}
           [0%nat; 1%nat] []).
  - reflexivity.
  - by left.
  - reflexivity.
  - intros r Hr. apply list_elem_of_singleton in Hr. subst r. simpl. lia.
  - reflexivity.
  - reflexivity.
  - constructor.
Defined.

Lemma factual_returns_observed_witness :
  intervene (λ a k, inr (default VNone (a !! 1%nat))) (VArray "x")
    (VArray "x'") (Some "X") None factual_in_mwc_with_X
  = Return (VArray "x") factual_in_mwc_with_X.
Proof.
  apply (factual_returns_observed factual_in_mwc_with_X 2%nat NoFields
           [0%nat; 1%nat] [] (λ a k, default VNone (a !! 1%nat))).
  - reflexivity.
  - reflexivity.
  - constructor.
Defined.

Lemma repeated_site_names_get_axes_of_their_own_witness :
  ∃ σ' plates,
    interventions (λ a k, inr (default VNone (a !! 1%nat)))
      [ {| site_obs := VArray "x"; site_act := VArray "x'";
           site_name := None; site_event_dim := None |};
        {| site_obs := VArray "y"; site_act := VArray "y'";
           site_name := None; site_event_dim := None |} ]
      mwc_active
    = Return [ two_worlds "__intervention__" (VArray "x") (VArray "x'") None;
               two_worlds "__intervention___-6" (VArray "y") (VArray "y'")
                 None ] σ'
    ∧ registry σ' 0%nat = Some plates
    ∧ plates.*1 = ["__intervention__"; "__intervention___-6"]
    ∧ worlds σ' 0%nat = Some 4.
Proof.
  destruct (repeated_site_names_get_axes_of_their_own mwc_active 0%nat (-5)
              [] [] (λ a k, default VNone (a !! 1%nat))
              [ {| site_obs := VArray "x"; site_act := VArray "x'";
                   site_name := None; site_event_dim := None |};
                {| site_obs := VArray "y"; site_act := VArray "y'";
                   site_name := None; site_event_dim := None |} ] None)
    as (σ' & plates & Hrun & Hreg & Hnames & _ & _ & Hworlds).
  - concrete_inv.
  - constructor.
  - intros s Hs.
    apply elem_of_cons in Hs as [->|Hs%list_elem_of_singleton];
      [|subst s]; reflexivity.
  - intros i Hi. simpl in Hi.
    destruct i as [|[|i]]; [reflexivity|reflexivity|lia].
  - intros n _. apply not_elem_of_nil.
  - exists σ', plates. by split_and!.
Defined.

Lemma mwc_with_X_and_X_7_inv :
  allocator_inv mwc_with_X_and_X_7 0%nat MultiWorldCounterfactual (-5)
    [("X", 1%nat); ("X_-7", 2%nat)] [] [].
Proof. concrete_inv. Qed.

Lemma suffixed_name_can_share_an_axis_witness :
  intervene (λ a k, inr (default VNone (a !! 1%nat))) (VArray "z")
    (VArray "z'") (Some "X") None mwc_with_X_and_X_7
  = Return (two_worlds "X_-7" (VArray "z") (VArray "z'") None)
      mwc_with_X_and_X_7.
Proof.
  destruct (suffixed_name_can_share_an_axis mwc_with_X_and_X_7 0%nat (-5)
              [("X", 1%nat); ("X_-7", 2%nat)] [] []
              (λ a k, default VNone (a !! 1%nat)) (VArray "z") (VArray "z'")
              (Some "X") None 2) as [_ Hrun].
  - concrete_inv.
  - constructor.
  - reflexivity.
  - lia.
  - exact Hrun.
Defined.

Lemma intervene_reports_allocation_error_witness :
  ∃ text σ',
    intervene (λ a k, inr (default VNone (a !! 1%nat))) (VArray "x")
      (VArray "x'") (Some "X") None mwc_and_batch_plate
    = Raise (ValueError text) σ'
    ∧ Py.str_in "Try setting a value less than -5 for `first_available_dim`"
        text = true
    ∧ _DIM_ALLOCATOR σ' = _DIM_ALLOCATOR mwc_and_batch_plate
    ∧ registry σ' 0%nat = Some [].
Proof.
  destruct (intervene_reports_allocation_error mwc_and_batch_plate 0%nat
              (-5) [] [] [1%nat] (λ a k, default VNone (a !! 1%nat))
              (VArray "x") (VArray "x'") (Some "X") None "data")
    as (text & σ' & Hrun & Hadvice & Hdims & _ & Hinv).
  - concrete_inv.
  - repeat constructor. by eexists.
  - apply not_elem_of_nil.
  - reflexivity.
  - by_compute.
  - exists text, σ'. split_and!; [done..|].
    exact (registry_inv _ _ _ _ _ _ _ Hinv).
Defined.

Lemma add_indices_keeps_the_allocator_consistent_witness :
  ∃ σ' news,
    (IndexPlatesMessenger._pyro_add_indices 0%nat
       (add_indices_msg [("Y", {[0; 1]}); ("X", {[5]})]) mwc_with_X
     = Return (add_indices_msg [("Y", {[0; 1]}); ("X", {[5]})]) σ'
     ∨ ∃ e,
         IndexPlatesMessenger._pyro_add_indices 0%nat
           (add_indices_msg [("Y", {[0; 1]}); ("X", {[5]})]) mwc_with_X
         = Raise e σ')
    ∧ allocator_inv σ' 0%nat MultiWorldCounterfactual (-5)
        ([("X", 1%nat)] ++ news) [] []
    ∧ registry σ' 0%nat = Some ([("X", 1%nat)] ++ news)
    ∧ cursor σ' 0%nat
      = Some (-5 - Z.of_nat (length [("X", 1%nat)])
              - Z.of_nat (length news)).
Proof.
  apply (add_indices_keeps_the_allocator_consistent mwc_with_X 0%nat
           MultiWorldCounterfactual (-5) [("X", 1%nat)] [] []).
  concrete_inv.
Defined.

Lemma scope_gives_back_on_every_path_witness :
  ∃ e σ',
    with_ (IndexPlatesMessenger.__enter__ 1%nat)
      (IndexPlatesMessenger.__exit__ 1%nat)
      (add_indices [("X", {[0; 1]}); ("Y", ∅)])
      data_plate_and_mwc_created
    = Raise e σ'
    ∧ _PYRO_STACK σ' = [0%nat]
    ∧ _DIM_ALLOCATOR σ' = [Some "data"]
    ∧ registry σ' 1%nat = Some []
    ∧ cursor σ' 1%nat = Some (-5).
Proof.
  destruct (scope_gives_back_on_every_path data_plate_and_mwc_created 1%nat
              MultiWorldCounterfactual (-5) [("X", {[0; 1]}); ("Y", ∅)])
    as (σ' & Hrun & Hstack & _ & Hdims & Hself).
  - reflexivity.
  - by right; left.
  - lia.
  - by_compute.
  - by_compute.
  - repeat constructor. by eexists.
  - destruct Hrun as [Hrun|[e Hrun]].
    + exfalso. vm_compute in Hrun. discriminate Hrun.
    + exists e, σ'. split; [exact Hrun|]. split; [exact Hstack|].
      split; [apply Hdims; discriminate|].
      unfold registry, cursor. rewrite Hself. by split.
Defined.

Lemma abstract_get_mask_fails_witness :
  sample_through (λ _ _, "cpu")
    [(0%nat, λ _ _ _ _, mret (VArray "a"));
     (1%nat, DependentMaskMessenger.get_mask);
     (2%nat, λ _ _ _ _, mret (VArray "b"))]
    sample_msg empty_runtime
  = Raise NotImplementedError empty_runtime.
Proof.
  apply (abstract_get_mask_fails (λ _ _, "cpu")
           [(0%nat, λ _ _ _ _, mret (VArray "a"))]
           [(2%nat, λ _ _ _ _, mret (VArray "b"))] 1%nat [VArray "a"]).
  repeat constructor.
Defined.
